(** * AWSAppSyncRealTimeProvider: a shallow embedding

    Source: packages/pubsub/src/Providers/AWSAppSyncRealTimeProvider.ts

    The provider is a single-threaded JavaScript object driven by the event
    loop.  Every handler (a consumer call, a socket event, a timer, the
    resumption of an [await]) is embedded as a state transformer over the
    fields of the class and over the part of the JavaScript runtime the
    class talks to (sockets, timers, promises, the microtask queue and the
    observers of zen-observable).  The calls the provider makes on its
    collaborators are recorded, in order, in a trace. *)

From Stdlib Require Import String List ZArith Bool Arith Lia.
Import ListNotations.
Open Scope string_scope.
Open Scope list_scope.

Set Warnings "-register-all".

(** ** Identifiers handed out by the runtime *)

Definition SubscriptionId := string.
Definition ObserverId := nat.
Definition TimerId := nat.
Definition PromiseId := nat.
Definition SocketId := nat.
Definition CallId := nat.

(** ** JSON values (the result of [JSON.parse]) *)

Inductive Json : Type :=
| JNull
| JBool (b : bool)
| JNum (n : Z)
| JStr (s : string)
| JArr (items : list Json)
| JObj (fields : list (string * Json)).

Definition string_truthy (s : string) : bool :=
  match s with EmptyString => false | _ => true end.

(** JavaScript truthiness; [None] stands for [undefined]. *)
Definition truthy (v : option Json) : bool :=
  match v with
  | None => false
  | Some JNull => false
  | Some (JBool b) => b
  | Some (JNum n) => negb (Z.eqb n 0)
  | Some (JStr s) => string_truthy s
  | Some (JArr _) => true
  | Some (JObj _) => true
  end.

Fixpoint assoc {V : Type} (k : string) (l : list (string * V)) : option V :=
  match l with
  | [] => None
  | (k', v) :: l' => if String.eqb k k' then Some v else assoc k l'
  end.

(** Property read [v.k] on a value that is neither [null] nor [undefined]:
    only objects carry the properties read here. *)
Definition prop (v : Json) (k : string) : option Json :=
  match v with
  | JObj fields => assoc k fields
  | _ => None
  end.

(** ** Text built by template literals

    String building that goes through [JSON.stringify], [String(...)] or an
    error's [toString] is kept symbolic; literal parts are concrete. *)

Inductive Text : Type :=
| Lit (s : string)
| Stringify (j : Json)              (* JSON.stringify(j) *)
| StringifyCloseEvent               (* JSON.stringify(event) of a CloseEvent *)
| ToString (j : Json)               (* String(j) *)
| Cat (a b : Text)
| OfThrown (e : Thrown)             (* `${err}` *)

(** Values that are thrown or used to reject a promise. *)
with Thrown : Type :=
| Error (message : Text)              (* new Error(message) *)
| TypeError                           (* raised by the engine *)
| NonRetryableError (message : Text)  (* new NonRetryableError(message) *)
| ErrorObject (errorType errorCode : Json)  (* the plain object { errorType, errorCode } *)
| Undefined.                          (* rej() called without a reason *)

Inductive Result (A : Type) : Type :=
| Returned (a : A)
| Throws (e : Thrown).
Arguments Returned {A} a.
Arguments Throws {A} e.

(** [{ ...new GraphQLError(message) }] *)
Record GraphQLError := mkGraphQLError { message : Text }.

(** The value handed to [observer.error]: [{ errors: [...] }]. *)
Record ErrorValue := mkErrorValue { errors : list GraphQLError }.

(** ** Enumerations of the source *)

Inductive SUBSCRIPTION_STATUS := PENDING | CONNECTED | FAILED.

Inductive SOCKET_STATUS := CLOSED | READY | CONNECTING.

Definition GQL_CONNECTION_INIT := "connection_init".
Definition GQL_CONNECTION_ERROR := "connection_error".
Definition GQL_CONNECTION_ACK := "connection_ack".
Definition GQL_START := "start".
Definition GQL_START_ACK := "start_ack".
Definition GQL_DATA := "data".
Definition GQL_CONNECTION_KEEP_ALIVE := "ka".
Definition GQL_STOP := "stop".
Definition GQL_COMPLETE := "complete".
Definition GQL_ERROR := "error".

Definition MAX_DELAY_MS : Z := 5000.
Definition NON_RETRYABLE_CODES : list Z := [400; 401; 403]%Z.
Definition CONNECTION_INIT_TIMEOUT : Z := 15000.
Definition START_ACK_TIMEOUT : Z := 15000.
Definition DEFAULT_KEEP_ALIVE_TIMEOUT : Z := (5 * 60 * 1000)%Z.

(** ** Headers and options *)

(** A header object; a value may be [undefined] ([None]). *)
Definition Headers := list (string * option string).

(** Object spread [{ ...a, ...b }]: later keys replace earlier ones in place. *)
Fixpoint obj_set (k : string) (v : option string) (h : Headers) : Headers :=
  match h with
  | [] => [(k, v)]
  | (k', v') :: h' =>
      if String.eqb k k' then (k, v) :: h' else (k', v') :: obj_set k v h'
  end.

Definition obj_spread (a b : Headers) : Headers :=
  fold_left (fun acc kv => obj_set (fst kv) (snd kv) acc) b a.

(** What [_awsRealTimeHeaderBasedAuth] resolves to: the empty string or a
    header object. *)
Inductive AuthHeaders :=
| EmptyStringHeaders
| HeaderObject (h : Headers).

(** [{ ...(auth headers) }]: spreading the empty string adds nothing. *)
Definition spread_auth (a : AuthHeaders) : Headers :=
  match a with
  | EmptyStringHeaders => []
  | HeaderObject h => h
  end.

Record AWSAppSyncRealTimeProviderOptions := mkOptions {
  appSyncGraphqlEndpoint : option string;
  authenticationType : option string;
  options_query : option string;
  options_variables : option Json;
  apiKey : option string;
  region : option string;
  (* the function [graphql_headers], given by what a call of it yields *)
  graphql_headers : option (Result Headers);
  additionalHeaders : option Headers
}.

(** AWSAppSyncRealTimeAuthInput with the [host] the dispatcher adds. *)
Record AWSAppSyncRealTimeAuthInput := mkAuthInput {
  in_payload : Text;
  in_canonicalUri : string;
  in_appSyncGraphqlEndpoint : option string;
  in_apiKey : option string;
  in_region : option string;
  in_host : option string;
  in_additionalHeaders : option Headers
}.

Record ICredentials := mkCredentials {
  secretAccessKey : option string;
  accessKeyId : option string;
  sessionToken : option string
}.

(** The request handed to [Signer.sign]. *)
Record SignRequest := mkSignRequest {
  req_url : option string * string;   (* `${appSyncGraphqlEndpoint}${canonicalUri}` *)
  req_data : Text;
  req_region : option string
}.

(** What the collaborators of the auth strategies answer when asked:
    [Auth], [Cache], [Credentials], [Signer], the clock and [url.parse]. *)
Record AuthAnswers := mkAuthAnswers {
  isoDate : string;                                   (* the stamped date *)
  currentSession : Result string;                     (* the access token's jwt *)
  federatedInfo : option (option string);             (* Cache.getItem('federatedInfo') and its token *)
  currentAuthenticatedUser : Result (option (option string));
  credentials : Result (option ICredentials);         (* Credentials.get() *)
  sign : SignRequest -> ICredentials -> Headers;      (* Signer.sign(...).headers *)
  url_host : string -> option string;                 (* url.parse(s).host *)
  (* what calling a member inherited from Object.prototype yields *)
  inherited : string -> Result AuthHeaders
}.

(** ** Messages *)

(** A parsed message of the server; [m_id] and [m_payload] may be absent. *)
Record ServerMessage := mkServerMessage {
  m_type : string;
  m_id : option string;
  m_payload : option Json
}.

(** The connection URL.  The rewriting of the endpoint and the base64
    encoding of the two query parameters are not unfolded: the URL is given
    by the values that go into it. *)
Record Url := mkUrl {
  url_endpoint : string;         (* appSyncGraphqlEndpoint ?? '' *)
  url_ssl : bool;                (* wss:// or ws:// *)
  url_header : AuthHeaders;      (* header=base64(JSON.stringify(...)) *)
  url_payload : string           (* payload=base64('{}') *)
}.

(** Messages the client sends. *)
Inductive ClientMessage :=
| ConnectionInit                                         (* { type: 'connection_init' } *)
| Start (id : SubscriptionId) (data : Text) (authorization : Headers)
| Stop (id : SubscriptionId).

(** ** Promises, continuations and callbacks *)

Inductive Outcome :=
| Fulfilled
| Rejected (reason : Thrown).

(** The two functions [res] and [rej] of a promise executor. *)
Inductive Callback :=
| Res (p : PromiseId)
| Rej (p : PromiseId).

Record ObserverQuery := mkObserverQuery {
  observer : ObserverId;
  query : string;
  variables : Json;
  subscriptionState : SUBSCRIPTION_STATUS;
  subscriptionReadyCallback : option Callback;
  subscriptionFailedCallback : option Callback;
  startAckTimeoutId : option TimerId
}.

(** The closure of a suspended [_startSubscriptionWithAWSAppSyncRealTime]. *)
Record StartCall := mkStartCall {
  sc_options : AWSAppSyncRealTimeProviderOptions;
  sc_observer : ObserverId;
  sc_subscriptionId : SubscriptionId;
  (* dataString and headerObj of stringToAWSRealTime, once built *)
  sc_message : option (Text * Headers)
}.

(** The closure of a suspended executor of [_initializeWebSocketConnection]. *)
Record ConnectCall := mkConnectCall {
  cc_options : AWSAppSyncRealTimeProviderOptions;
  cc_url : option Url;        (* awsRealTimeUrl, once built *)
  cc_attempt : nat            (* attempts of the handshake started so far *)
}.

(** What runs when an awaited promise settles. *)
Inductive Continuation :=
| KStartSubscription (c : StartCall)   (* await this._initializeWebSocketConnection(...) *)
| KUnsubscribe (id : SubscriptionId)   (* await this._waitForSubscriptionToBeConnected(id) *)
| KHandshakeOpen (call : CallId)       (* step 1 of _initializeHandshake *)
| KHandshakeAck (call : CallId).       (* step 2 of _initializeHandshake *)

Record PromiseCell := mkPromiseCell {
  settled : option Outcome;
  awaiters : list Continuation
}.

(** ** Sockets and timers *)

Inductive ReadyState := WS_CONNECTING | WS_OPEN | WS_CLOSING | WS_CLOSED.

Inductive OpenHandler :=
| OnOpenHandshake (p : PromiseId).       (* this.awsRealTimeSocket = newSocket; res() *)

Inductive CloseHandler :=
| OnCloseHandshakeOpen (p : PromiseId)   (* rej(new Error('Connection handshake error')) *)
| OnCloseHandshakeAck (p : PromiseId)    (* rej(new Error(JSON.stringify(event))) *)
| OnCloseDisconnect.                     (* this._errorDisconnect(CONNECTION_CLOSED) *)

Inductive ErrorHandler :=
| OnErrorLog                             (* logger.debug only *)
| OnErrorDisconnect.                     (* this._errorDisconnect(CONNECTION_CLOSED) *)

Inductive MessageHandler :=
| OnMessageHandshake (p : PromiseId)     (* the listener of step 2 *)
| OnMessageSubscription.                 (* this._handleIncomingSubscriptionMessage *)

Record WebSocket := mkWebSocket {
  readyState : ReadyState;
  bufferedAmount : Z;
  onopen : option OpenHandler;
  onclose : option CloseHandler;
  onerror : option ErrorHandler;
  onmessage : option MessageHandler
}.

Inductive TimerTask :=
| StartAckTimeout (id : SubscriptionId)  (* this._timeoutStartSubscriptionAck(id) *)
| KeepAliveTimeout                       (* this._errorDisconnect(TIMEOUT_DISCONNECT) *)
| CloseSocketCheck                       (* this._closeSocketIfRequired() *)
| InitAckTimeout (p : PromiseId)         (* checkAckOk(false) *)
| RetryBackoff (call : CallId).          (* the retry loop's wait between two attempts *)

(** ** The trace: calls made on the collaborators *)

Inductive Event :=
| EvObserverNext (o : ObserverId) (value : Json)
| EvObserverError (o : ObserverId) (e : ErrorValue)
| EvObserverComplete (o : ObserverId)
| EvNewWebSocket (s : SocketId) (u : Url)
| EvSocketSend (s : SocketId) (m : ClientMessage)
| EvSocketClose (s : SocketId) (code : option Z)
| EvSetTimeout (t : TimerId) (task : TimerTask) (delay : Json)
| EvClearTimeout (t : TimerId)
| EvHubDispatch (event : string) (q : string) (v : Json) (msg : string).

(** ** State *)

(** The fields of the class. *)
Record Provider := mkProvider {
  awsRealTimeSocket : option SocketId;
  socketStatus : SOCKET_STATUS;
  keepAliveTimeoutId : option TimerId;
  keepAliveTimeout : Json;
  subscriptionObserverMap : list (SubscriptionId * ObserverQuery);
  promiseArray : list PromiseId
}.

(** The part of the JavaScript runtime the class relies on. *)
Record Runtime := mkRuntime {
  sockets : list (SocketId * WebSocket);
  timers : list (TimerId * TimerTask);                 (* armed timers *)
  promises : list (PromiseId * PromiseCell);
  microtasks : list (Continuation * Outcome);
  closedObservers : list ObserverId;                   (* observer.closed *)
  cleanups : list (ObserverId * SubscriptionId);       (* the function subscribe returned *)
  startCalls : list (SubscriptionId * StartCall);      (* suspended on the header awaits *)
  connectCalls : list (CallId * ConnectCall);
  nextId : nat;                                        (* fresh handles *)
  uuidCalls : nat;
  randomCalls : nat
}.

Record State := mkState {
  this : Provider;
  rt : Runtime;
  trace : list Event
}.

Definition initialProvider : Provider :=
  {| awsRealTimeSocket := None;
     socketStatus := CLOSED;
     keepAliveTimeoutId := None;
     keepAliveTimeout := JNum DEFAULT_KEEP_ALIVE_TIMEOUT;
     subscriptionObserverMap := [];
     promiseArray := [] |}.

Definition initialRuntime : Runtime :=
  {| sockets := []; timers := []; promises := []; microtasks := [];
     closedObservers := []; cleanups := []; startCalls := [];
     connectCalls := []; nextId := 1; uuidCalls := 0; randomCalls := 0 |}.

Definition initialState : State :=
  {| this := initialProvider; rt := initialRuntime; trace := [] |}.

(** ** Field updates *)

Definition set_awsRealTimeSocket (v : option SocketId) (p : Provider) : Provider :=
  mkProvider v (socketStatus p) (keepAliveTimeoutId p) (keepAliveTimeout p)
    (subscriptionObserverMap p) (promiseArray p).
Definition set_socketStatus (v : SOCKET_STATUS) (p : Provider) : Provider :=
  mkProvider (awsRealTimeSocket p) v (keepAliveTimeoutId p) (keepAliveTimeout p)
    (subscriptionObserverMap p) (promiseArray p).
Definition set_keepAliveTimeoutId (v : option TimerId) (p : Provider) : Provider :=
  mkProvider (awsRealTimeSocket p) (socketStatus p) v (keepAliveTimeout p)
    (subscriptionObserverMap p) (promiseArray p).
Definition set_keepAliveTimeout (v : Json) (p : Provider) : Provider :=
  mkProvider (awsRealTimeSocket p) (socketStatus p) (keepAliveTimeoutId p) v
    (subscriptionObserverMap p) (promiseArray p).
Definition set_subscriptionObserverMap (v : list (SubscriptionId * ObserverQuery))
  (p : Provider) : Provider :=
  mkProvider (awsRealTimeSocket p) (socketStatus p) (keepAliveTimeoutId p)
    (keepAliveTimeout p) v (promiseArray p).
Definition set_promiseArray (v : list PromiseId) (p : Provider) : Provider :=
  mkProvider (awsRealTimeSocket p) (socketStatus p) (keepAliveTimeoutId p)
    (keepAliveTimeout p) (subscriptionObserverMap p) v.

Definition set_sockets (v : list (SocketId * WebSocket)) (r : Runtime) : Runtime :=
  mkRuntime v (timers r) (promises r) (microtasks r) (closedObservers r) (cleanups r)
    (startCalls r) (connectCalls r) (nextId r) (uuidCalls r) (randomCalls r).
Definition set_timers (v : list (TimerId * TimerTask)) (r : Runtime) : Runtime :=
  mkRuntime (sockets r) v (promises r) (microtasks r) (closedObservers r) (cleanups r)
    (startCalls r) (connectCalls r) (nextId r) (uuidCalls r) (randomCalls r).
Definition set_promises (v : list (PromiseId * PromiseCell)) (r : Runtime) : Runtime :=
  mkRuntime (sockets r) (timers r) v (microtasks r) (closedObservers r) (cleanups r)
    (startCalls r) (connectCalls r) (nextId r) (uuidCalls r) (randomCalls r).
Definition set_microtasks (v : list (Continuation * Outcome)) (r : Runtime) : Runtime :=
  mkRuntime (sockets r) (timers r) (promises r) v (closedObservers r) (cleanups r)
    (startCalls r) (connectCalls r) (nextId r) (uuidCalls r) (randomCalls r).
Definition set_closedObservers (v : list ObserverId) (r : Runtime) : Runtime :=
  mkRuntime (sockets r) (timers r) (promises r) (microtasks r) v (cleanups r)
    (startCalls r) (connectCalls r) (nextId r) (uuidCalls r) (randomCalls r).
Definition set_cleanups (v : list (ObserverId * SubscriptionId)) (r : Runtime) : Runtime :=
  mkRuntime (sockets r) (timers r) (promises r) (microtasks r) (closedObservers r) v
    (startCalls r) (connectCalls r) (nextId r) (uuidCalls r) (randomCalls r).
Definition set_startCalls (v : list (SubscriptionId * StartCall)) (r : Runtime) : Runtime :=
  mkRuntime (sockets r) (timers r) (promises r) (microtasks r) (closedObservers r)
    (cleanups r) v (connectCalls r) (nextId r) (uuidCalls r) (randomCalls r).
Definition set_connectCalls (v : list (CallId * ConnectCall)) (r : Runtime) : Runtime :=
  mkRuntime (sockets r) (timers r) (promises r) (microtasks r) (closedObservers r)
    (cleanups r) (startCalls r) v (nextId r) (uuidCalls r) (randomCalls r).
Definition set_nextId (v : nat) (r : Runtime) : Runtime :=
  mkRuntime (sockets r) (timers r) (promises r) (microtasks r) (closedObservers r)
    (cleanups r) (startCalls r) (connectCalls r) v (uuidCalls r) (randomCalls r).
Definition set_uuidCalls (v : nat) (r : Runtime) : Runtime :=
  mkRuntime (sockets r) (timers r) (promises r) (microtasks r) (closedObservers r)
    (cleanups r) (startCalls r) (connectCalls r) (nextId r) v (randomCalls r).
Definition set_randomCalls (v : nat) (r : Runtime) : Runtime :=
  mkRuntime (sockets r) (timers r) (promises r) (microtasks r) (closedObservers r)
    (cleanups r) (startCalls r) (connectCalls r) (nextId r) (uuidCalls r) v.

(** ** Keyed collections

    [Map] of JavaScript keeps insertion order; setting a key that is present
    replaces its value in place. *)

Section KeyedList.
Context {K V : Type} (eqb : K -> K -> bool).

Fixpoint kl_get (k : K) (l : list (K * V)) : option V :=
  match l with
  | [] => None
  | (k', v) :: l' => if eqb k k' then Some v else kl_get k l'
  end.

Fixpoint kl_set (k : K) (v : V) (l : list (K * V)) : list (K * V) :=
  match l with
  | [] => [(k, v)]
  | (k', v') :: l' =>
      if eqb k k' then (k, v) :: l' else (k', v') :: kl_set k v l'
  end.

Fixpoint kl_delete (k : K) (l : list (K * V)) : list (K * V) :=
  match l with
  | [] => []
  | (k', v') :: l' =>
      if eqb k k' then kl_delete k l' else (k', v') :: kl_delete k l'
  end.
End KeyedList.

Definition map_get {V} := @kl_get string V String.eqb.
Definition map_set {V} := @kl_set string V String.eqb.
Definition map_delete {V} := @kl_delete string V String.eqb.
Definition store_get {V} := @kl_get nat V Nat.eqb.
Definition store_set {V} := @kl_set nat V Nat.eqb.
Definition store_delete {V} := @kl_delete nat V Nat.eqb.

(** ** The state monad of a handler *)

Definition M (A : Type) : Type := State -> A * State.

Definition ret {A} (a : A) : M A := fun st => (a, st).

Definition bind {A B} (m : M A) (f : A -> M B) : M B :=
  fun st => f (fst (m st)) (snd (m st)).

Declare Scope js_scope.
Delimit Scope js_scope with js.
Notation "x <- m ;; k" := (bind m (fun x => k))
  (at level 61, m at next level, right associativity) : js_scope.
Notation "m ;; k" := (bind m (fun _ => k))
  (at level 61, right associativity) : js_scope.
Open Scope js_scope.

Definition exec {A} (m : M A) (st : State) : State := snd (m st).

Definition gets {A} (f : State -> A) : M A := fun st => (f st, st).

Definition update_this (f : Provider -> Provider) : M unit :=
  fun st => (tt, mkState (f (this st)) (rt st) (trace st)).

Definition update_rt (f : Runtime -> Runtime) : M unit :=
  fun st => (tt, mkState (this st) (f (rt st)) (trace st)).

Definition emit (e : Event) : M unit :=
  fun st => (tt, mkState (this st) (rt st) (trace st ++ [e])).

Definition when (b : bool) (m : M unit) : M unit := if b then m else ret tt.

Fixpoint forEach {A} (l : list A) (f : A -> M unit) : M unit :=
  match l with
  | [] => ret tt
  | x :: l' => f x ;; forEach l' f
  end.

Definition fresh : M nat :=
  n <- gets (fun st => nextId (rt st)) ;;
  update_rt (set_nextId (S n)) ;;
  ret n.

Arguments ret {A} a st /.
Arguments bind {A B} m f st /.
Arguments exec {A} m st /.
Arguments gets {A} f st /.
Arguments update_this f st /.
Arguments update_rt f st /.
Arguments emit e st /.
Arguments fresh st /.

(** *** Promises *)

Definition enqueue (k : Continuation) (o : Outcome) : M unit :=
  update_rt (fun r => set_microtasks (microtasks r ++ [(k, o)]) r).

Definition new_promise : M PromiseId :=
  p <- fresh ;;
  update_rt (fun r => set_promises (promises r ++ [(p, mkPromiseCell None [])]) r) ;;
  ret p.

(** [await v]: [v] is a promise ([Some p]) or another value ([None]); the
    continuation runs in a later microtask. *)
Definition await (v : option PromiseId) (k : Continuation) : M unit :=
  match v with
  | None => enqueue k Fulfilled
  | Some p =>
      cell <- gets (fun st => store_get p (promises (rt st))) ;;
      match cell with
      | None => ret tt
      | Some c =>
          match settled c with
          | Some o => enqueue k o
          | None =>
              update_rt (fun r =>
                set_promises
                  (store_set p (mkPromiseCell None (awaiters c ++ [k])) (promises r)) r)
          end
      end
  end.

(** Settling is single-shot: a settled promise ignores later calls. *)
Definition settle (p : PromiseId) (o : Outcome) : M unit :=
  cell <- gets (fun st => store_get p (promises (rt st))) ;;
  match cell with
  | None => ret tt
  | Some c =>
      match settled c with
      | Some _ => ret tt
      | None =>
          update_rt (fun r =>
            set_promises (store_set p (mkPromiseCell (Some o) (awaiters c)) (promises r)) r) ;;
          forEach (awaiters c) (fun k => enqueue k o)
      end
  end.

(** [cb()] *)
Definition call (cb : Callback) : M unit :=
  match cb with
  | Res p => settle p Fulfilled
  | Rej p => settle p (Rejected Undefined)
  end.

(** [if (typeof cb === 'function') cb()] *)
Definition call_if_function (cb : option Callback) : M unit :=
  match cb with
  | Some f => call f
  | None => ret tt
  end.

(** *** Timers *)

Definition setTimeout (task : TimerTask) (delay : Json) : M TimerId :=
  t <- fresh ;;
  update_rt (fun r => set_timers (timers r ++ [(t, task)]) r) ;;
  emit (EvSetTimeout t task delay) ;;
  ret t.

Definition clearTimeout (t : TimerId) : M unit :=
  update_rt (fun r => set_timers (store_delete t (timers r)) r) ;;
  emit (EvClearTimeout t).

(** [if (id) clearTimeout(id)] *)
Definition clearTimeout_if_set (t : option TimerId) : M unit :=
  match t with
  | Some t => clearTimeout t
  | None => ret tt
  end.

(** *** Sockets *)

Definition update_socket (s : SocketId) (f : WebSocket -> WebSocket) : M unit :=
  update_rt (fun r =>
    match store_get s (sockets r) with
    | Some w => set_sockets (store_set s (f w) (sockets r)) r
    | None => r
    end).

Definition set_readyState (v : ReadyState) (w : WebSocket) : WebSocket :=
  mkWebSocket v (bufferedAmount w) (onopen w) (onclose w) (onerror w) (onmessage w).
Definition set_bufferedAmount (v : Z) (w : WebSocket) : WebSocket :=
  mkWebSocket (readyState w) v (onopen w) (onclose w) (onerror w) (onmessage w).
Definition set_onopen (v : option OpenHandler) (w : WebSocket) : WebSocket :=
  mkWebSocket (readyState w) (bufferedAmount w) v (onclose w) (onerror w) (onmessage w).
Definition set_onclose (v : option CloseHandler) (w : WebSocket) : WebSocket :=
  mkWebSocket (readyState w) (bufferedAmount w) (onopen w) v (onerror w) (onmessage w).
Definition set_onerror (v : option ErrorHandler) (w : WebSocket) : WebSocket :=
  mkWebSocket (readyState w) (bufferedAmount w) (onopen w) (onclose w) v (onmessage w).
Definition set_onmessage (v : option MessageHandler) (w : WebSocket) : WebSocket :=
  mkWebSocket (readyState w) (bufferedAmount w) (onopen w) (onclose w) (onerror w) v.

(** [new WebSocket(url, 'graphql-ws')] *)
Definition new_WebSocket (u : Url) : M SocketId :=
  s <- fresh ;;
  update_rt (fun r =>
    set_sockets (sockets r ++ [(s, mkWebSocket WS_CONNECTING 0 None None None None)]) r) ;;
  emit (EvNewWebSocket s u) ;;
  ret s.

Definition socket_send (s : SocketId) (m : ClientMessage) : M unit :=
  emit (EvSocketSend s m).

(** [socket.close(code)]: an open or connecting socket starts closing. *)
Definition socket_close (s : SocketId) (code : option Z) : M unit :=
  update_socket s (fun w =>
    match readyState w with
    | WS_CONNECTING | WS_OPEN => set_readyState WS_CLOSING w
    | _ => w
    end) ;;
  emit (EvSocketClose s code).

Definition socket_is_open (s : SocketId) : M bool :=
  gets (fun st =>
    match store_get s (sockets (rt st)) with
    | Some w => match readyState w with WS_OPEN => true | _ => false end
    | None => false
    end).

(** ** What the source imports

    [CONTROL_MSG] (from ../index), [USER_AGENT_HEADER] and
    [Constants.userAgent] (from @aws-amplify/core) are constants declared
    outside this file; [uuid] and [Math.random] are generators; the flag
    behind [isSSLEnabled] is read from [this.options]. *)

Record ControlMsg := mkControlMsg {
  CONNECTION_CLOSED : string;
  CONNECTION_FAILED : string;
  REALTIME_SUBSCRIPTION_INIT_ERROR : string;
  SUBSCRIPTION_ACK : string;
  TIMEOUT_DISCONNECT : string
}.

Record World := mkWorld {
  CONTROL_MSG : ControlMsg;
  USER_AGENT_HEADER : string;
  userAgent : string;
  uuid : nat -> string;          (* the n-th value uuid() yields *)
  random : nat -> Z;             (* the n-th jitter the retry loop draws, in ms *)
  retryBaseMs : Z;               (* base delay of the retry loop's backoff *)
  isSSLEnabled : bool
}.

(** [`${a}: ${b}`] *)
Definition colon (a : string) (b : Text) : Text := Cat (Lit a) (Cat (Lit ": ") b).

(** [JSON.stringify(v)] inside a template, [v] possibly [undefined]. *)
Definition stringify (v : option Json) : Text :=
  match v with
  | Some j => Stringify j
  | None => Lit "undefined"
  end.

Definition error_value (t : Text) : ErrorValue :=
  mkErrorValue [mkGraphQLError t].

(** ** Auth header strategies (lines 811-946) *)

Inductive HeaderHandler :=
| API_KEY
| AWS_IAM
| OPENID_CONNECT
| AMAZON_COGNITO_USER_POOLS
| AWS_LAMBDA.

(** The own keys of the object literal [headerHandler]. *)
Definition headerHandler (authenticationType : string) : option HeaderHandler :=
  if String.eqb authenticationType "API_KEY" then Some API_KEY
  else if String.eqb authenticationType "AWS_IAM" then Some AWS_IAM
  else if String.eqb authenticationType "OPENID_CONNECT" then Some OPENID_CONNECT
  else if String.eqb authenticationType "AMAZON_COGNITO_USER_POOLS"
       then Some AMAZON_COGNITO_USER_POOLS
  else if String.eqb authenticationType "AWS_LAMBDA" then Some AWS_LAMBDA
  else None.

(** [headerHandler] is a plain object, so [headerHandler[key]] also finds
    the members it inherits from [Object.prototype]. *)
Definition Object_prototype_members : list string :=
  [ "constructor"; "__proto__"; "hasOwnProperty"; "isPrototypeOf";
    "propertyIsEnumerable"; "toLocaleString"; "toString"; "valueOf";
    "__defineGetter__"; "__defineSetter__"; "__lookupGetter__";
    "__lookupSetter__" ].

Definition inherited_member (key : string) : bool :=
  existsb (String.eqb key) Object_prototype_members.

Definition opt_string_truthy (s : option string) : bool :=
  match s with
  | Some s => string_truthy s
  | None => false
  end.

Definition _awsRealTimeCUPHeader (a : AuthAnswers) (i : AWSAppSyncRealTimeAuthInput)
  : Result AuthHeaders :=
  match currentSession a with
  | Throws e => Throws e
  | Returned jwt =>
      Returned (HeaderObject [("Authorization", Some jwt); ("host", in_host i)])
  end.

Definition _awsRealTimeOPENIDHeader (a : AuthAnswers) (i : AWSAppSyncRealTimeAuthInput)
  : Result AuthHeaders :=
  let token : Result (option string) :=
    match federatedInfo a with
    | Some t => Returned t
    | None =>
        match currentAuthenticatedUser a with
        | Throws e => Throws e
        | Returned (Some t) => Returned t
        | Returned None => Returned None
        end
    end in
  match token with
  | Throws e => Throws e
  | Returned token =>
      if opt_string_truthy token
      then Returned (HeaderObject [("Authorization", token); ("host", in_host i)])
      else Throws (Error (Lit "No federated jwt"))
  end.

Definition _awsRealTimeApiKeyHeader (a : AuthAnswers) (i : AWSAppSyncRealTimeAuthInput)
  : Result AuthHeaders :=
  Returned (HeaderObject
    [("host", in_host i); ("x-amz-date", Some (isoDate a)); ("x-api-key", in_apiKey i)]).

(** [_ensureCredentials] answers [true] only if [Credentials.get()] yields
    credentials. *)
Definition _ensureCredentials (a : AuthAnswers) : bool :=
  match credentials a with
  | Returned (Some _) => true
  | _ => false
  end.

Definition _awsRealTimeIAMHeader (a : AuthAnswers) (i : AWSAppSyncRealTimeAuthInput)
  : Result AuthHeaders :=
  if _ensureCredentials a then
    match credentials a with
    | Returned (Some creds) =>
        Returned (HeaderObject
          (sign a
             (mkSignRequest (in_appSyncGraphqlEndpoint i, in_canonicalUri i)
                (in_payload i) (in_region i))
             creds))
    | Returned None => Throws TypeError
    | Throws e => Throws e
    end
  else Throws (Error (Lit "No credentials")).

Definition _customAuthHeader (i : AWSAppSyncRealTimeAuthInput) : Result AuthHeaders :=
  match in_additionalHeaders i with
  | None => Throws (Error (Lit "No auth token specified"))
  | Some additional =>
      match assoc "Authorization" additional with
      | Some (Some token) =>
          if string_truthy token
          then Returned (HeaderObject [("Authorization", Some token); ("host", in_host i)])
          else Throws (Error (Lit "No auth token specified"))
      | _ => Throws (Error (Lit "No auth token specified"))
      end
  end.

Definition run_handler (h : HeaderHandler) (a : AuthAnswers)
  (i : AWSAppSyncRealTimeAuthInput) : Result AuthHeaders :=
  match h with
  | API_KEY => _awsRealTimeApiKeyHeader a i
  | AWS_IAM => _awsRealTimeIAMHeader a i
  | OPENID_CONNECT => _awsRealTimeOPENIDHeader a i
  | AMAZON_COGNITO_USER_POOLS => _awsRealTimeCUPHeader a i
  | AWS_LAMBDA => _customAuthHeader i
  end.

(** What the call of a member inherited from [Object.prototype] yields is
    left to the engine: [inherited a key]. *)
Definition _awsRealTimeHeaderBasedAuth (a : AuthAnswers)
  (authenticationType : option string) (payload : Text) (canonicalUri : string)
  (options : AWSAppSyncRealTimeProviderOptions) : Result AuthHeaders :=
  match authenticationType with
  | None => Returned EmptyStringHeaders                (* !authenticationType *)
  | Some key =>
      match headerHandler key with
      | Some handler =>
          let host :=
            url_host a (match appSyncGraphqlEndpoint options with
                        | Some e => e
                        | None => EmptyString
                        end) in
          run_handler handler a
            (mkAuthInput payload canonicalUri (appSyncGraphqlEndpoint options)
               (apiKey options) (region options) host (additionalHeaders options))
      | None =>
          if inherited_member key
          then inherited a key
          else Returned EmptyStringHeaders             (* !headerHandler[authenticationType] *)
      end
  end.

(** ** The provider *)

Section Provider.

Variable W : World.

Definition get_record (id : SubscriptionId) : M (option ObserverQuery) :=
  gets (fun st => map_get id (subscriptionObserverMap (this st))).

(** [this.subscriptionObserverMap.set(id, r)] *)
Definition set_record (id : SubscriptionId) (r : ObserverQuery) : M unit :=
  update_this (fun p =>
    set_subscriptionObserverMap (map_set id r (subscriptionObserverMap p)) p).

(** *** Unsubscribing (lines 233-257 and 388-463) *)

Definition _waitForSubscriptionToBeConnected (subscriptionId : SubscriptionId)
  : M (option PromiseId) :=
  subscriptionObserver <- get_record subscriptionId ;;
  match subscriptionObserver with
  | Some so =>
      match subscriptionState so with
      | PENDING =>
          p <- new_promise ;;
          set_record subscriptionId
            {| observer := observer so;
               subscriptionState := subscriptionState so;
               variables := variables so;
               query := query so;
               subscriptionReadyCallback := Some (Res p);
               subscriptionFailedCallback := Some (Rej p);
               startAckTimeoutId := None |} ;;
          ret (Some p)
      | _ => ret None
      end
  | None => ret None
  end.

Definition _sendUnsubscriptionMessage (subscriptionId : SubscriptionId) : M unit :=
  sock <- gets (fun st => awsRealTimeSocket (this st)) ;;
  status <- gets (fun st => socketStatus (this st)) ;;
  match sock with
  | Some s =>
      is_open <- socket_is_open s ;;
      match is_open, status with
      | true, READY => socket_send s (Stop subscriptionId)
      | _, _ => ret tt
      end
  | None => ret tt
  end.

Definition _removeSubscriptionObserver (subscriptionId : SubscriptionId) : M unit :=
  update_this (fun p =>
    set_subscriptionObserverMap (map_delete subscriptionId (subscriptionObserverMap p)) p) ;;
  _ <- setTimeout CloseSocketCheck (JNum 1000) ;;
  ret tt.

Definition _closeSocketIfRequired : M unit :=
  size <- gets (fun st => length (subscriptionObserverMap (this st))) ;;
  if Nat.ltb 0 size then ret tt
  else
    sock <- gets (fun st => awsRealTimeSocket (this st)) ;;
    match sock with
    | None => update_this (set_socketStatus CLOSED)
    | Some s =>
        buffered <- gets (fun st =>
          match store_get s (sockets (rt st)) with
          | Some w => bufferedAmount w
          | None => 0%Z
          end) ;;
        if Z.ltb 0 buffered then
          _ <- setTimeout CloseSocketCheck (JNum 1000) ;; ret tt
        else
          ka <- gets (fun st => keepAliveTimeoutId (this st)) ;;
          clearTimeout_if_set ka ;;
          update_socket s (set_onclose None) ;;
          update_socket s (set_onerror None) ;;
          socket_close s (Some 1000%Z) ;;
          update_this (set_awsRealTimeSocket None) ;;
          update_this (set_socketStatus CLOSED)
    end.

(** The function the subscriber hands back to the observable (lines
    233-257), up to its [await]. *)
Definition cleanup_begin (subscriptionId : SubscriptionId) : M unit :=
  waiting <- _waitForSubscriptionToBeConnected subscriptionId ;;
  await waiting (KUnsubscribe subscriptionId).

(** The same function after the [await]. *)
Definition cleanup_resume (subscriptionId : SubscriptionId) (o : Outcome) : M unit :=
  match o with
  | Fulfilled =>
      r <- get_record subscriptionId ;;
      match r with
      | None => ret tt                      (* subscription already unsubscribed *)
      | Some r =>
          match subscriptionState r with
          | PENDING => ret tt               (* PENDING is 0, so !subscriptionState holds *)
          | CONNECTED => _sendUnsubscriptionMessage subscriptionId
          | FAILED => ret tt                (* 'Subscription never connected', caught and logged *)
          end
      end
  | Rejected _ => ret tt                    (* caught and logged *)
  end ;;
  _removeSubscriptionObserver subscriptionId.

(** *** The observer of zen-observable

    The provider calls [next], [error] and [complete] and reads [closed].
    [error] and [complete] close an open observer, and closing runs the
    function the subscriber handed back ("Cleanup will be automatically
    executed", line 606).  The trace records the calls. *)

Definition observer_closed (o : ObserverId) : M bool :=
  gets (fun st => existsb (Nat.eqb o) (closedObservers (rt st))).

Definition close_subscription (o : ObserverId) : M unit :=
  closed <- observer_closed o ;;
  if closed then ret tt
  else
    update_rt (fun r => set_closedObservers (o :: closedObservers r) r) ;;
    cleanup <- gets (fun st => store_get o (cleanups (rt st))) ;;
    match cleanup with
    | Some subscriptionId => cleanup_begin subscriptionId
    | None => ret tt
    end.

Definition observer_next (o : ObserverId) (value : Json) : M unit :=
  emit (EvObserverNext o value).

Definition observer_error (o : ObserverId) (e : ErrorValue) : M unit :=
  emit (EvObserverError o e) ;; close_subscription o.

Definition observer_complete (o : ObserverId) : M unit :=
  emit (EvObserverComplete o) ;; close_subscription o.

(** *** Incoming messages and disconnects (lines 465-614) *)

Definition dispatchApiEvent (event : string) (q : string) (v : Json) (msg : string)
  : M unit :=
  emit (EvHubDispatch event q v msg).

(** [forEach] visits the entries the map holds; the callbacks it runs may
    replace the value of an entry but add or remove none, and only the
    observer of an entry is read. *)
Definition _errorDisconnect (msg : string) : M unit :=
  entries <- gets (fun st => subscriptionObserverMap (this st)) ;;
  forEach entries (fun entry =>
    closed <- observer_closed (observer (snd entry)) ;;
    when (negb closed) (observer_error (observer (snd entry)) (error_value (Lit msg)))) ;;
  update_this (set_subscriptionObserverMap []) ;;
  sock <- gets (fun st => awsRealTimeSocket (this st)) ;;
  match sock with
  | Some s => socket_close s None
  | None => ret tt
  end ;;
  update_this (set_socketStatus CLOSED).

Definition _handleIncomingSubscriptionMessage (m : ServerMessage) : M unit :=
  let id := match m_id m with Some i => i | None => EmptyString end in
  let payload := m_payload m in
  let type := m_type m in
  r <- get_record id ;;
  let observer_ := option_map observer r in
  let query_ := match r with Some r => query r | None => EmptyString end in
  let variables_ := match r with Some r => variables r | None => JObj [] end in
  let startAckTimeoutId_ := match r with Some r => startAckTimeoutId r | None => None end in
  let subscriptionReadyCallback_ :=
    match r with Some r => subscriptionReadyCallback r | None => None end in
  let subscriptionFailedCallback_ :=
    match r with Some r => subscriptionFailedCallback r | None => None end in
  if String.eqb type GQL_DATA && truthy payload
     && truthy (match payload with Some p => prop p "data" | None => None end)
  then
    match observer_, payload with
    | Some o, Some p => observer_next o p
    | _, _ => ret tt
    end
  else if String.eqb type GQL_START_ACK then
    call_if_function subscriptionReadyCallback_ ;;
    clearTimeout_if_set startAckTimeoutId_ ;;
    dispatchApiEvent (SUBSCRIPTION_ACK (CONTROL_MSG W)) query_ variables_
      "Connection established for subscription" ;;
    match observer_ with
    | Some o =>
        set_record id
          {| observer := o;
             query := query_;
             variables := variables_;
             startAckTimeoutId := None;
             subscriptionState := CONNECTED;
             subscriptionReadyCallback := subscriptionReadyCallback_;
             subscriptionFailedCallback := subscriptionFailedCallback_ |}
    | None => ret tt
    end
  else if String.eqb type GQL_CONNECTION_KEEP_ALIVE then
    ka <- gets (fun st => keepAliveTimeoutId (this st)) ;;
    clearTimeout_if_set ka ;;
    delay <- gets (fun st => keepAliveTimeout (this st)) ;;
    t <- setTimeout KeepAliveTimeout delay ;;
    update_this (set_keepAliveTimeoutId (Some t))
  else if String.eqb type GQL_ERROR then
    match observer_ with
    | Some o =>
        set_record id
          {| observer := o;
             query := query_;
             variables := variables_;
             startAckTimeoutId := startAckTimeoutId_;
             subscriptionReadyCallback := subscriptionReadyCallback_;
             subscriptionFailedCallback := subscriptionFailedCallback_;
             subscriptionState := FAILED |} ;;
        observer_error o
          (error_value (colon (CONNECTION_FAILED (CONTROL_MSG W)) (stringify payload))) ;;
        clearTimeout_if_set startAckTimeoutId_ ;;
        observer_complete o ;;
        call_if_function subscriptionFailedCallback_
    | None => ret tt
    end
  else ret tt.

Definition _timeoutStartSubscriptionAck (subscriptionId : SubscriptionId) : M unit :=
  subscriptionObserver <- get_record subscriptionId ;;
  match subscriptionObserver with
  | Some so =>
      let o := observer so in
      set_record subscriptionId
        {| observer := o;
           query := query so;
           variables := variables so;
           subscriptionState := FAILED;
           subscriptionReadyCallback := None;
           subscriptionFailedCallback := None;
           startAckTimeoutId := None |} ;;
      closed <- observer_closed o ;;
      when (negb closed)
        (observer_error o
           (error_value
              (Cat (Lit "Subscription timeout ")
                 (Stringify (JObj [("query", JStr (query so));
                                   ("variables", variables so)])))) ;;
         observer_complete o)
  | None => ret tt
  end.

(** *** Establishing the connection (lines 616-809) *)

Definition get_call (call : CallId) : M (option ConnectCall) :=
  gets (fun st => store_get call (connectCalls (rt st))).

Definition set_call (call : CallId) (c : ConnectCall) : M unit :=
  update_rt (fun r => set_connectCalls (store_set call c (connectCalls r)) r).

(** [NON_RETRYABLE_CODES.includes(errorCode)] *)
Definition includes (codes : list Z) (v : option Json) : bool :=
  match v with
  | Some (JNum n) => existsb (Z.eqb n) codes
  | _ => false
  end.

(** The members [errorType] and [errorCode] read off a caught value; an
    [Error] has neither. *)
Definition errorType_of (err : Thrown) : option Json :=
  match err with
  | ErrorObject errorType _ => Some errorType
  | _ => None
  end.

Definition errorCode_of (err : Thrown) : option Json :=
  match err with
  | ErrorObject _ errorCode => Some errorCode
  | _ => None
  end.

(** The catch block of [_initializeHandshake] (lines 795-808): what the
    attempt throws for the value [err] it caught. *)
Definition _initializeHandshake_catch (err : Thrown) : Thrown :=
  match err with
  | Undefined => TypeError                  (* destructuring undefined *)
  | _ =>
      if includes NON_RETRYABLE_CODES (errorCode_of err) then
        NonRetryableError
          (match errorType_of err with Some t => ToString t | None => Lit "undefined" end)
      else if truthy (errorType_of err) then
        Error (match errorType_of err with Some t => ToString t | None => Lit "undefined" end)
      else err
  end.

(** Lines 670-675: the handshake went through. *)
Definition connection_established : M unit :=
  waiters <- gets (fun st => promiseArray (this st)) ;;
  forEach waiters (fun p => settle p Fulfilled) ;;
  update_this (set_socketStatus READY) ;;
  update_this (set_promiseArray []).

(** Lines 676-687: the catch block of the executor. *)
Definition connection_failed (err : Thrown) : M unit :=
  waiters <- gets (fun st => promiseArray (this st)) ;;
  forEach waiters (fun p => settle p (Rejected err)) ;;
  update_this (set_promiseArray []) ;;
  sock <- gets (fun st => awsRealTimeSocket (this st)) ;;
  match sock with
  | Some s =>
      is_open <- socket_is_open s ;;
      when is_open (socket_close s (Some 3001%Z))
  | None => ret tt
  end ;;
  update_this (set_awsRealTimeSocket None) ;;
  update_this (set_socketStatus CLOSED).

(** Step 1 of [_initializeHandshake]: open the socket. *)
Definition _initializeHandshake (call : CallId) : M unit :=
  c <- get_call call ;;
  match c with
  | Some c =>
      match cc_url c with
      | Some awsRealTimeUrl =>
          set_call call (mkConnectCall (cc_options c) (cc_url c) (S (cc_attempt c))) ;;
          p <- new_promise ;;
          newSocket <- new_WebSocket awsRealTimeUrl ;;
          update_socket newSocket (set_onerror (Some OnErrorLog)) ;;
          update_socket newSocket (set_onclose (Some (OnCloseHandshakeOpen p))) ;;
          update_socket newSocket (set_onopen (Some (OnOpenHandshake p))) ;;
          await (Some p) (KHandshakeOpen call)
      | None => ret tt
      end
  | None => ret tt
  end.

(** Step 2 of [_initializeHandshake]: send the init message and wait for
    the ack. *)
Definition _initializeHandshake_step2 (call : CallId) : M unit :=
  p <- new_promise ;;
  sock <- gets (fun st => awsRealTimeSocket (this st)) ;;
  match sock with
  | Some s =>
      update_socket s (set_onerror (Some OnErrorLog)) ;;
      update_socket s (set_onclose (Some (OnCloseHandshakeAck p))) ;;
      update_socket s (set_onmessage (Some (OnMessageHandshake p))) ;;
      socket_send s ConnectionInit ;;
      _ <- setTimeout (InitAckTimeout p) (JNum CONNECTION_INIT_TIMEOUT) ;;
      ret tt
  | None => ret tt
  end ;;
  await (Some p) (KHandshakeAck call).

(** Modelled from the spec: the retry loop [jitteredExponentialRetry] of
    @aws-amplify/core, which is not part of this file.  Spec 4.1 (3) and
    4.5: the handshake attempt is wrapped in a jittered exponential backoff
    with a capped maximum delay (5s per step); a non-retryable failure
    aborts the loop at once, every other failure is retried. *)
Definition jitteredBackoffDelay (attempt : nat) (jitter : Z) : Z :=
  Z.min MAX_DELAY_MS (retryBaseMs W * 2 ^ Z.of_nat attempt + jitter).

Inductive RetryDecision :=
| Abort
| RetryAfter (delay : Z).

(** Modelled from the spec: the decision of the retry loop of
    @aws-amplify/core on what an attempt threw (spec 4.5). *)
Definition retry_decision (thrown : Thrown) (attempt : nat) (jitter : Z)
  : RetryDecision :=
  match thrown with
  | NonRetryableError _ => Abort
  | _ => RetryAfter (jitteredBackoffDelay attempt jitter)
  end.

(** Modelled from the spec: one turn of the retry loop of
    @aws-amplify/core around [_initializeHandshake] (spec 4.1 (3)).  The
    attempt rejected with [err]; its catch block (from the source) turns
    that into what the attempt throws; the loop then either gives up, which
    lands in the catch block of the executor, or waits for the backoff
    delay and attempts again (timer [RetryBackoff]). *)
Definition handshake_attempt_failed (call : CallId) (err : Thrown) : M unit :=
  let thrown := _initializeHandshake_catch err in
  c <- get_call call ;;
  n <- gets (fun st => randomCalls (rt st)) ;;
  match retry_decision thrown
          (match c with Some c => cc_attempt c | None => 0 end) (random W n) with
  | Abort => connection_failed thrown
  | RetryAfter delay =>
      update_rt (set_randomCalls (S n)) ;;
      _ <- setTimeout (RetryBackoff call) (JNum delay) ;;
      ret tt
  end.

(** [_initializeWebSocketConnection], up to the first [await] of its
    executor.  The result is [undefined] ([None]) or the promise. *)
Definition _initializeWebSocketConnection (options : AWSAppSyncRealTimeProviderOptions)
  : M (option PromiseId) :=
  status <- gets (fun st => socketStatus (this st)) ;;
  match status with
  | READY => ret None
  | _ =>
      p <- new_promise ;;
      update_this (fun t => set_promiseArray (promiseArray t ++ [p]) t) ;;
      match status with
      | CLOSED =>
          update_this (set_socketStatus CONNECTING) ;;
          call <- fresh ;;
          set_call call (mkConnectCall options None 0)
      | _ => ret tt
      end ;;
      ret (Some p)
  end.

(** The executor once the auth headers of the connection are there. *)
Definition _initializeWebSocketConnection_headers (a : AuthAnswers) (call : CallId)
  : M unit :=
  c <- get_call call ;;
  match c with
  | Some c =>
      let options := cc_options c in
      match _awsRealTimeHeaderBasedAuth a (authenticationType options) (Lit "{}")
              "/connect" options with
      | Throws err => connection_failed err
      | Returned headers =>
          let awsRealTimeUrl :=
            mkUrl (match appSyncGraphqlEndpoint options with
                   | Some e => e
                   | None => EmptyString
                   end)
                  (isSSLEnabled W) headers "{}" in
          set_call call (mkConnectCall options (Some awsRealTimeUrl) (cc_attempt c)) ;;
          _initializeHandshake call
      end
  | None => ret tt
  end.

(** [const { payload: { connectionTimeoutMs = DEFAULT } = {} } = data];
    [None] when the destructuring throws. *)
Definition destructure_connectionTimeoutMs (payload : option Json) : option Json :=
  match payload with
  | None => Some (JNum DEFAULT_KEEP_ALIVE_TIMEOUT)
  | Some JNull => None
  | Some p =>
      match prop p "connectionTimeoutMs" with
      | Some v => Some v
      | None => Some (JNum DEFAULT_KEEP_ALIVE_TIMEOUT)
      end
  end.

Definition with_default (d : Json) (v : option Json) : Json :=
  match v with Some v => v | None => d end.

(** [{ errorType = '', errorCode = 0 } = {}] applied to the first item. *)
Definition destructure_error_item (item : option Json) : option (Json * Json) :=
  match item with
  | Some JNull => None
  | Some i =>
      Some (with_default (JStr EmptyString) (prop i "errorType"),
            with_default (JNum 0) (prop i "errorCode"))
  | None => Some (JStr EmptyString, JNum 0%Z)
  end.

(** [const { payload: { errors: [{ errorType = '', errorCode = 0 } = {}] = [] } = {} } = data];
    [None] when the destructuring throws. *)
Definition destructure_connection_error (payload : option Json)
  : option (Json * Json) :=
  match payload with
  | None => destructure_error_item None
  | Some JNull => None
  | Some p =>
      match prop p "errors" with
      | None => destructure_error_item None
      | Some (JArr items) => destructure_error_item (hd_error items)
      | Some (JStr s) =>
          match s with
          | EmptyString => destructure_error_item None
          | String c _ => destructure_error_item (Some (JStr (String c EmptyString)))
          end
      | Some _ => None                       (* not iterable *)
      end
  end.

(** The message listener of step 2 (lines 735-774). *)
Definition handshake_onmessage (p : PromiseId) (m : ServerMessage) : M unit :=
  match destructure_connectionTimeoutMs (m_payload m) with
  | None => ret tt
  | Some connectionTimeoutMs =>
      if String.eqb (m_type m) GQL_CONNECTION_ACK then
        sock <- gets (fun st => awsRealTimeSocket (this st)) ;;
        match sock with
        | Some s =>
            update_this (set_keepAliveTimeout connectionTimeoutMs) ;;
            update_socket s (set_onmessage (Some OnMessageSubscription)) ;;
            update_socket s (set_onerror (Some OnErrorDisconnect)) ;;
            update_socket s (set_onclose (Some OnCloseDisconnect))
        | None => ret tt
        end ;;
        settle p Fulfilled
      else if String.eqb (m_type m) GQL_CONNECTION_ERROR then
        match destructure_connection_error (m_payload m) with
        | Some (errorType, errorCode) =>
            settle p (Rejected (ErrorObject errorType errorCode))
        | None => ret tt
        end
      else ret tt
  end.

(** *** Subscribing (lines 196-385) *)

Definition opt_field (k : string) (v : option Json) : list (string * Json) :=
  match v with
  | Some v => [(k, v)]
  | None => []
  end.

(** [{ query, variables }] as [JSON.stringify] sees it. *)
Definition data_object (options : AWSAppSyncRealTimeProviderOptions) : Json :=
  JObj (opt_field "query" (option_map JStr (options_query options))
        ++ opt_field "variables" (options_variables options)).

Definition query_or_default (options : AWSAppSyncRealTimeProviderOptions) : string :=
  match options_query options with Some q => q | None => EmptyString end.

Definition variables_or_default (options : AWSAppSyncRealTimeProviderOptions) : Json :=
  match options_variables options with Some v => v | None => JObj [] end.

(** The [catch] attached in [subscribe] (lines 220-231). *)
Definition subscribe_catch (o : ObserverId) (err : Thrown) : M unit :=
  observer_error o
    (error_value (colon (REALTIME_SUBSCRIPTION_INIT_ERROR (CONTROL_MSG W)) (OfThrown err))) ;;
  observer_complete o.

(** [_startSubscriptionWithAWSAppSyncRealTime], up to its first [await]. *)
Definition _startSubscriptionWithAWSAppSyncRealTime
  (options : AWSAppSyncRealTimeProviderOptions) (o : ObserverId)
  (subscriptionId : SubscriptionId) : M unit :=
  set_record subscriptionId
    {| observer := o;
       query := query_or_default options;
       variables := variables_or_default options;
       subscriptionState := PENDING;
       subscriptionReadyCallback := None;
       subscriptionFailedCallback := None;
       startAckTimeoutId := None |} ;;
  update_rt (fun r =>
    set_startCalls
      (map_set subscriptionId (mkStartCall options o subscriptionId None)
         (startCalls r)) r).

(** The same call once the two header awaits are through (lines 303-341):
    it builds the start message and asks for the connection. *)
Definition _startSubscription_headers (a : AuthAnswers) (c : StartCall) : M unit :=
  let options := sc_options c in
  let dataString := Stringify (data_object options) in
  match _awsRealTimeHeaderBasedAuth a (authenticationType options) dataString
          EmptyString options with
  | Throws err => subscribe_catch (sc_observer c) err
  | Returned auth =>
      match (match graphql_headers options with
             | Some r => r
             | None => Returned []
             end) with
      | Throws err => subscribe_catch (sc_observer c) err
      | Returned extra =>
          let additional :=
            match additionalHeaders options with Some h => h | None => [] end in
          let headerObj :=
            obj_set (USER_AGENT_HEADER W) (Some (userAgent W))
              (obj_spread (obj_spread (spread_auth auth) extra) additional) in
          v <- _initializeWebSocketConnection options ;;
          await v
            (KStartSubscription
               (mkStartCall options (sc_observer c) (sc_subscriptionId c)
                  (Some (dataString, headerObj))))
      end
  end.

(** [err['message'] ?? ''] *)
Definition message_or_empty (err : Thrown) : Text :=
  match err with
  | Error m => m
  | NonRetryableError m => m
  | TypeError => OfThrown TypeError
  | ErrorObject _ _ => Lit EmptyString
  | Undefined => Lit EmptyString
  end.

(** The same call after [await this._initializeWebSocketConnection(...)]
    (lines 342-385). *)
Definition _startSubscription_resume (c : StartCall) (o : Outcome) : M unit :=
  let subscriptionId := sc_subscriptionId c in
  let options := sc_options c in
  match o with
  | Rejected Undefined =>
      (* err['message'] throws inside the catch block *)
      subscribe_catch (sc_observer c) TypeError
  | Rejected err =>
      observer_error (sc_observer c)
        (error_value (colon (CONNECTION_FAILED (CONTROL_MSG W)) (message_or_empty err))) ;;
      observer_complete (sc_observer c) ;;
      r <- get_record subscriptionId ;;
      (* Notify concurrent unsubscription *)
      call_if_function
        (match r with Some r => subscriptionFailedCallback r | None => None end)
  | Fulfilled =>
      r <- get_record subscriptionId ;;
      t <- setTimeout (StartAckTimeout subscriptionId) (JNum START_ACK_TIMEOUT) ;;
      set_record subscriptionId
        {| observer := sc_observer c;
           subscriptionState := PENDING;
           query := query_or_default options;
           variables := variables_or_default options;
           subscriptionReadyCallback :=
             match r with Some r => subscriptionReadyCallback r | None => None end;
           subscriptionFailedCallback :=
             match r with Some r => subscriptionFailedCallback r | None => None end;
           startAckTimeoutId := Some t |} ;;
      sock <- gets (fun st => awsRealTimeSocket (this st)) ;;
      match sock, sc_message c with
      | Some s, Some (dataString, headerObj) =>
          socket_send s (Start subscriptionId dataString headerObj)
      | _, _ => ret tt
      end
  end.

(** [subscribe(_topics, options)] together with the subscription of the
    consumer to the observable it returns: the subscriber function runs
    with a fresh observer.  The result is that observer. *)
Definition subscribe (_topics : list string)
  (options : option AWSAppSyncRealTimeProviderOptions) : M ObserverId :=
  o <- fresh ;;
  match options with
  | Some opts =>
      if opt_string_truthy (appSyncGraphqlEndpoint opts) then
        n <- gets (fun st => uuidCalls (rt st)) ;;
        update_rt (set_uuidCalls (S n)) ;;
        let subscriptionId := uuid W n in
        _startSubscriptionWithAWSAppSyncRealTime opts o subscriptionId ;;
        update_rt (fun r => set_cleanups (store_set o subscriptionId (cleanups r)) r) ;;
        ret o
      else
        observer_error o
          (error_value (Lit "Subscribe only available for AWS AppSync endpoint")) ;;
        observer_complete o ;;
        ret o
  | None =>
      observer_error o
        (error_value (Lit "Subscribe only available for AWS AppSync endpoint")) ;;
      observer_complete o ;;
      ret o
  end.

(** ** The event loop

    A task (a call of the consumer, an event of a socket, a timer, the
    answer of a collaborator) runs to its end; the continuations it queued
    then run one by one, each as one microtask, before the next task. *)

(** A continuation runs when the promise it awaits has settled. *)
Definition resume (k : Continuation) (o : Outcome) : M unit :=
  match k with
  | KStartSubscription c => _startSubscription_resume c o
  | KUnsubscribe id => cleanup_resume id o
  | KHandshakeOpen call =>
      match o with
      | Fulfilled => _initializeHandshake_step2 call
      | Rejected err => handshake_attempt_failed call err
      end
  | KHandshakeAck call =>
      match o with
      | Fulfilled => connection_established
      | Rejected err => handshake_attempt_failed call err
      end
  end.

Definition run_onopen (s : SocketId) (h : option OpenHandler) : M unit :=
  match h with
  | Some (OnOpenHandshake p) =>
      update_this (set_awsRealTimeSocket (Some s)) ;;
      settle p Fulfilled
  | None => ret tt
  end.

Definition run_onclose (h : option CloseHandler) : M unit :=
  match h with
  | Some (OnCloseHandshakeOpen p) =>
      settle p (Rejected (Error (Lit "Connection handshake error")))
  | Some (OnCloseHandshakeAck p) =>
      settle p (Rejected (Error StringifyCloseEvent))
  | Some OnCloseDisconnect => _errorDisconnect (CONNECTION_CLOSED (CONTROL_MSG W))
  | None => ret tt
  end.

Definition run_onerror (h : option ErrorHandler) : M unit :=
  match h with
  | Some OnErrorLog => ret tt
  | Some OnErrorDisconnect => _errorDisconnect (CONNECTION_CLOSED (CONTROL_MSG W))
  | None => ret tt
  end.

Definition run_onmessage (h : option MessageHandler) (m : ServerMessage) : M unit :=
  match h with
  | Some (OnMessageHandshake p) => handshake_onmessage p m
  | Some OnMessageSubscription => _handleIncomingSubscriptionMessage m
  | None => ret tt
  end.

Definition run_timer (task : TimerTask) : M unit :=
  match task with
  | StartAckTimeout id => _timeoutStartSubscriptionAck id
  | KeepAliveTimeout => _errorDisconnect (TIMEOUT_DISCONNECT (CONTROL_MSG W))
  | CloseSocketCheck => _closeSocketIfRequired
  | InitAckTimeout p =>
      settle p
        (Rejected
           (Error
              (Lit "Connection timeout: ack from AWSRealTime was not received on 15000 ms")))
  | RetryBackoff call => _initializeHandshake call
  end.

(** What the event loop can run next. *)
Inductive Action :=
| Subscribe (topics : list string) (options : option AWSAppSyncRealTimeProviderOptions)
| Unsubscribe (o : ObserverId)                      (* the consumer unsubscribes *)
| SubscriptionHeaders (id : SubscriptionId) (a : AuthAnswers)
| ConnectionHeaders (call : CallId) (a : AuthAnswers)
| SocketOpen (s : SocketId)
| SocketClose (s : SocketId)
| SocketError (s : SocketId)
| SocketMessage (s : SocketId) (m : ServerMessage)
| SocketBuffered (s : SocketId) (amount : Z)        (* bufferedAmount changes *)
| TimerFires (t : TimerId)
| Microtask.

(** A task: [None] when the action cannot happen in [st]. *)
Definition task (a : Action) (st : State) : option State :=
  match a with
  | Subscribe topics options => Some (exec (subscribe topics options) st)
  | Unsubscribe o => Some (exec (close_subscription o) st)
  | SubscriptionHeaders id a =>
      match map_get id (startCalls (rt st)) with
      | Some c =>
          Some (exec (update_rt (fun r => set_startCalls (map_delete id (startCalls r)) r) ;;
                      _startSubscription_headers a c) st)
      | None => None
      end
  | ConnectionHeaders call a =>
      match store_get call (connectCalls (rt st)) with
      | Some c =>
          match cc_url c with
          | None => Some (exec (_initializeWebSocketConnection_headers a call) st)
          | Some _ => None
          end
      | None => None
      end
  | SocketOpen s =>
      match store_get s (sockets (rt st)) with
      | Some w =>
          match readyState w with
          | WS_CONNECTING =>
              Some (exec (update_socket s (set_readyState WS_OPEN) ;;
                          run_onopen s (onopen w)) st)
          | _ => None
          end
      | None => None
      end
  | SocketClose s =>
      match store_get s (sockets (rt st)) with
      | Some w =>
          match readyState w with
          | WS_CLOSED => None
          | _ =>
              Some (exec (update_socket s (set_readyState WS_CLOSED) ;;
                          run_onclose (onclose w)) st)
          end
      | None => None
      end
  | SocketError s =>
      match store_get s (sockets (rt st)) with
      | Some w => Some (exec (run_onerror (onerror w)) st)
      | None => None
      end
  | SocketMessage s m =>
      match store_get s (sockets (rt st)) with
      | Some w =>
          match readyState w with
          | WS_OPEN | WS_CLOSING => Some (exec (run_onmessage (onmessage w) m) st)
          | _ => None
          end
      | None => None
      end
  | SocketBuffered s amount =>
      match store_get s (sockets (rt st)) with
      | Some w => Some (exec (update_socket s (set_bufferedAmount amount)) st)
      | None => None
      end
  | TimerFires t =>
      match store_get t (timers (rt st)) with
      | Some task =>
          Some (exec (update_rt (fun r => set_timers (store_delete t (timers r)) r) ;;
                      run_timer task) st)
      | None => None
      end
  | Microtask => None
  end.

(** One turn of the event loop: the microtask queue is drained before the
    next task is taken. *)
Definition step (a : Action) (st : State) : option State :=
  match microtasks (rt st), a with
  | (k, o) :: rest, Microtask =>
      Some (exec (update_rt (set_microtasks rest) ;; resume k o) st)
  | [], Microtask => None
  | [], _ => task a st
  | _ :: _, _ => None
  end.

Fixpoint run (actions : list Action) (st : State) : option State :=
  match actions with
  | [] => Some st
  | a :: rest =>
      match step a st with
      | Some st' => run rest st'
      | None => None
      end
  end.

End Provider.

(** * Vocabulary of the statements *)

(** ** States and traces *)


(** [observer.closed] *)
Definition is_closed (o : ObserverId) (st : State) : bool :=
  existsb (Nat.eqb o) (closedObservers (rt st)).

(** Some record of the registry holds the observer [o]. *)
Definition holds_observer (o : ObserverId)
  (entries : list (SubscriptionId * ObserverQuery)) : bool :=
  existsb (fun entry => Nat.eqb o (observer (snd entry))) entries.

Definition is_error_on (o : ObserverId) (e : Event) : bool :=
  match e with
  | EvObserverError o' _ => Nat.eqb o o'
  | _ => false
  end.

(** How often [observer.error] was called on [o]. *)
Definition errors_on (o : ObserverId) (evs : list Event) : nat :=
  length (filter (is_error_on o) evs).

(** The ids of the stop messages sent. *)
Definition sent_stops (evs : list Event) : list SubscriptionId :=
  flat_map (fun e => match e with
                     | EvSocketSend _ (Stop id) => [id]
                     | _ => []
                     end) evs.

(** The timers [clearTimeout] was called on. *)
Definition cleared_timers (evs : list Event) : list TimerId :=
  flat_map (fun e => match e with
                     | EvClearTimeout t => [t]
                     | _ => []
                     end) evs.

Definition closing (r : ReadyState) : Prop := r = WS_CLOSING \/ r = WS_CLOSED.

(** The states the event loop can get to. *)
Inductive reachable (W : World) : State -> Prop :=
| reachable_initial : reachable W initialState
| reachable_step a st st' :
    reachable W st -> step W a st = Some st' -> reachable W st'.

(** ** Subscribing *)


Definition no_endpoint_error : ErrorValue :=
  error_value (Lit "Subscribe only available for AWS AppSync endpoint").

(** The record [_startSubscriptionWithAWSAppSyncRealTime] registers. *)
Definition pending_record (options : AWSAppSyncRealTimeProviderOptions) (o : ObserverId)
  : ObserverQuery :=
  {| observer := o;
     query := query_or_default options;
     variables := variables_or_default options;
     subscriptionState := PENDING;
     subscriptionReadyCallback := None;
     subscriptionFailedCallback := None;
     startAckTimeoutId := None |}.

(** The record [_timeoutStartSubscriptionAck] leaves. *)
Definition failed_record (r : ObserverQuery) : ObserverQuery :=
  {| observer := observer r;
     query := query r;
     variables := variables r;
     subscriptionState := FAILED;
     subscriptionReadyCallback := None;
     subscriptionFailedCallback := None;
     startAckTimeoutId := None |}.


(** ** Authentication and connection *)

(** The mode is absent, or names neither a handler nor an inherited member
    of the handler table. *)
Definition no_handler (authenticationType : option string) : Prop :=
  match authenticationType with
  | None => True
  | Some key => headerHandler key = None /\ inherited_member key = false
  end.

Definition connection_url (W : World) (options : AWSAppSyncRealTimeProviderOptions)
  (headers : AuthHeaders) : Url :=
  mkUrl (match appSyncGraphqlEndpoint options with
         | Some e => e
         | None => EmptyString
         end) (isSSLEnabled W) headers "{}".


Definition non_retryable_code (err : Thrown) : bool :=
  includes NON_RETRYABLE_CODES (errorCode_of err).

(** The state after [settle p o] when [p] is pending with cell [c]. *)
Definition settled_state (p : PromiseId) (o : Outcome) (c : PromiseCell) (st : State)
  : State :=
  mkState (this st)
    (set_microtasks (microtasks (rt st) ++ map (fun k => (k, o)) (awaiters c))
       (set_promises (store_set p (mkPromiseCell (Some o) (awaiters c)) (promises (rt st)))
          (rt st)))
    (trace st).

(** What a loop [waiters.forEach(p => settle(p))] leaves behind. *)
Record settled_all (o : Outcome) (waiters : list PromiseId) (st st' : State) : Prop := {
  sa_this : this st' = this st;
  sa_trace : trace st' = trace st;
  sa_waiter : forall p c,
      In p waiters -> store_get p (promises (rt st)) = Some c -> settled c = None ->
      store_get p (promises (rt st')) = Some (mkPromiseCell (Some o) (awaiters c))
      /\ forall k, In k (awaiters c) -> In (k, o) (microtasks (rt st'));
  sa_other : forall p c,
      store_get p (promises (rt st)) = Some c -> settled c <> None \/ ~ In p waiters ->
      store_get p (promises (rt st')) = Some c;
  sa_queue : forall x, In x (microtasks (rt st)) -> In x (microtasks (rt st'))
}.


(** ** Disconnecting *)

(** What running the cleanup function up to its await leaves alone. *)
Record cleanup_frame (st st' : State) : Prop := {
  cf_trace : trace st' = trace st;
  cf_closed : closedObservers (rt st') = closedObservers (rt st);
  cf_socket : awsRealTimeSocket (this st') = awsRealTimeSocket (this st);
  cf_sockets : sockets (rt st') = sockets (rt st)
}.

(** The body of the loop of [_errorDisconnect]. *)
Definition disconnect_entry (msg : string) (entry : SubscriptionId * ObserverQuery)
  : M unit :=
  closed <- observer_closed (observer (snd entry)) ;;
  when (negb closed) (observer_error (observer (snd entry)) (error_value (Lit msg))).

(** What the loop of [_errorDisconnect] over [entries] does: it adds [evs]
    to the trace. *)
Record disconnected (msg : string) (entries : list (SubscriptionId * ObserverQuery))
  (st st' : State) (evs : list Event) : Prop := {
  dc_trace : trace st' = trace st ++ evs;
  dc_only_errors : forall e, In e evs ->
      exists o, e = EvObserverError o (error_value (Lit msg));
  dc_count : forall o,
      errors_on o evs
      = if holds_observer o entries && negb (is_closed o st) then 1 else 0;
  dc_socket : awsRealTimeSocket (this st') = awsRealTimeSocket (this st);
  dc_sockets : sockets (rt st') = sockets (rt st)
}.

(** ** Frame conditions and invariants *)

(** [frames R m]: the state after [m] is related to the state before by
    [R]. *)
Definition frames (R : State -> State -> Prop) {A} (m : M A) : Prop :=
  forall st, R st (snd (m st)).

(** A handler is quiet when it sends no stop message, registers no cleanup
    function and hands out no handle twice. *)
Record quiet (st st' : State) : Prop := {
  q_stops : sent_stops (trace st') = sent_stops (trace st);
  q_cleanups : cleanups (rt st') = cleanups (rt st);
  q_nextId : nextId (rt st) <= nextId (rt st')
}.

Definition same_stops (st st' : State) : Prop :=
  sent_stops (trace st') = sent_stops (trace st).

(** Every observer with a registered cleanup function was handed out
    before. *)
Definition cleanups_below_nextId (st : State) : Prop :=
  forall o id, store_get o (cleanups (rt st)) = Some id -> o < nextId (rt st).

Definition call_registered (C : list (ObserverId * SubscriptionId)) (c : StartCall)
  : Prop :=
  store_get (sc_observer c) C = Some (sc_subscriptionId c).

Definition continuation_registered (C : list (ObserverId * SubscriptionId))
  (k : Continuation) : Prop :=
  match k with
  | KStartSubscription c => call_registered C c
  | _ => True
  end.

(** With [C] the registered cleanup functions: the observer of every
    record, and of every start call that is suspended, awaits a promise or
    is queued, has the cleanup function of that very subscription. *)
Record linked (C : list (ObserverId * SubscriptionId)) (st : State) : Prop := {
  l_records : forall id r,
      map_get id (subscriptionObserverMap (this st)) = Some r ->
      store_get (observer r) C = Some id;
  l_calls : forall id c,
      map_get id (startCalls (rt st)) = Some c -> call_registered C c;
  l_awaiters : forall p cell k,
      store_get p (promises (rt st)) = Some cell -> In k (awaiters cell) ->
      continuation_registered C k;
  l_microtasks : forall k o,
      In (k, o) (microtasks (rt st)) -> continuation_registered C k
}.

Definition keeps (C : list (ObserverId * SubscriptionId)) {A} (m : M A) : Prop :=
  forall st, linked C st -> linked C (snd (m st)).

Definition linked_state (st : State) : Prop := linked (cleanups (rt st)) st.

(** ** The waiters of the connection *)

Definition callback_promise (cb : option Callback) (q : PromiseId) : Prop :=
  cb = Some (Res q) \/ cb = Some (Rej q).

Definition record_holds (r : ObserverQuery) (q : PromiseId) : Prop :=
  callback_promise (subscriptionReadyCallback r) q
  \/ callback_promise (subscriptionFailedCallback r) q.

Definition socket_holds (w : WebSocket) (q : PromiseId) : Prop :=
  onopen w = Some (OnOpenHandshake q)
  \/ onclose w = Some (OnCloseHandshakeOpen q)
  \/ onclose w = Some (OnCloseHandshakeAck q)
  \/ onmessage w = Some (OnMessageHandshake q).

(** The promises that a callback kept in the state settles: the waiters of
    the records, the promises of the socket handlers of a handshake and of
    its ack timer. *)
Definition held (q : PromiseId) (st : State) : Prop :=
  (exists id r, In (id, r) (subscriptionObserverMap (this st)) /\ record_holds r q)
  \/ (exists s w, In (s, w) (sockets (rt st)) /\ socket_holds w q)
  \/ (exists t, In (t, InitAckTimeout q) (timers (rt st))).

(** [q] is a promise that exists and is no waiter of the connection. *)
Definition outside (q : PromiseId) (st : State) : Prop :=
  q < nextId (rt st) /\ ~ In q (promiseArray (this st)).

(** Every waiter of the connection is a pending promise, and no callback
    kept in the state settles one. *)
Record waiters_pending (st : State) : Prop := {
  w_pending : forall p,
      In p (promiseArray (this st)) ->
      exists c, store_get p (promises (rt st)) = Some c /\ settled c = None;
  w_keys : forall p c,
      store_get p (promises (rt st)) = Some c -> p < nextId (rt st);
  w_held : forall q, held q st -> outside q st
}.

(** [m] leaves the waiters pending, the promises of [O] being no waiters;
    and it makes no promise a waiter that was none. *)
Definition spares (O : PromiseId -> Prop) {A} (m : M A) : Prop :=
  forall st,
    waiters_pending st -> (forall q, O q -> outside q st) ->
    waiters_pending (snd (m st))
    /\ forall q, outside q st -> outside q (snd (m st)).

(** What settling promises leaves as it was. *)
Record settling (st st' : State) : Prop := {
  sg_records : subscriptionObserverMap (this st') = subscriptionObserverMap (this st);
  sg_sockets : sockets (rt st') = sockets (rt st);
  sg_timers : timers (rt st') = timers (rt st);
  sg_nextId : nextId (rt st') = nextId (rt st);
  sg_keys : forall p c,
      store_get p (promises (rt st')) = Some c ->
      exists c', store_get p (promises (rt st)) = Some c'
}.

(** * A concrete run

    One consumer subscribes with an API key; the socket opens, the server
    acknowledges the connection and the start message is sent. *)

Definition exampleControl : ControlMsg :=
  mkControlMsg "Connection closed" "Connection failed"
    "AppSync Realtime subscription init error" "Subscription ack" "Timeout disconnect".

Definition exampleUuid (n : nat) : string :=
  match n with
  | 0 => "s1"
  | 1 => "s2"
  | _ => "s3"
  end.

Definition exampleWorld : World :=
  mkWorld exampleControl "x-amz-user-agent" "aws-amplify" exampleUuid
    (fun _ => 7%Z) 100%Z true.

(** The same world with another uuid generator. *)
Definition otherWorld : World :=
  mkWorld exampleControl "x-amz-user-agent" "aws-amplify" (fun _ => "other")
    (fun _ => 7%Z) 100%Z true.

Definition exampleAnswers : AuthAnswers :=
  mkAuthAnswers "20210101T000000Z" (Returned "jwt") None (Returned None)
    (Returned None) (fun _ _ => []) (fun _ => Some "example.com")
    (fun _ => Throws TypeError).

Definition exampleEndpoint : string := "https://example.com/graphql".

Definition exampleOptions : AWSAppSyncRealTimeProviderOptions :=
  mkOptions (Some exampleEndpoint) (Some "API_KEY") (Some "{onCreate}") None
    (Some "key") None None None.

(** Options whose mode is none of the five. *)
Definition unsupportedOptions : AWSAppSyncRealTimeProviderOptions :=
  mkOptions (Some exampleEndpoint) (Some "NONE") (Some "{onCreate}") None None None
    None None.

Definition connection_ack : ServerMessage :=
  mkServerMessage GQL_CONNECTION_ACK None None.

Definition examplePayload : Json :=
  JObj [("data", JObj [("onCreate", JStr "x")])].


(** Observer 1 subscribes as "s1"; promise 2 waits for the connection of
    call 3; socket 5 opens (promise 4), the init message goes out with
    timer 7 (promise 6); after the ack the start message goes out with the
    start-ack timer 8. *)
Definition start_sent : list Action :=
  [ Subscribe [] (Some exampleOptions);
    SubscriptionHeaders "s1" exampleAnswers;
    ConnectionHeaders 3 exampleAnswers;
    SocketOpen 5;
    Microtask;
    SocketMessage 5 connection_ack;
    Microtask;
    Microtask ].

Definition after (actions : list Action) : State :=
  match run exampleWorld actions initialState with
  | Some st => st
  | None => initialState
  end.



(** The start message of "s1" is sent and its ack timer armed. *)
Definition started : State := Eval vm_compute in after start_sent.

Definition started_record : ObserverQuery :=
  {| observer := 1;
     query := "{onCreate}";
     variables := JObj [];
     subscriptionState := PENDING;
     subscriptionReadyCallback := None;
     subscriptionFailedCallback := None;
     startAckTimeoutId := Some 8 |}.

(** The consumer unsubscribed before the start-ack: the cleanup function
    waits on promise 9. *)
Definition waiting : State := Eval vm_compute in after (start_sent ++ [Unsubscribe 1]).

Definition waiting_record : ObserverQuery :=
  {| observer := 1;
     query := "{onCreate}";
     variables := JObj [];
     subscriptionState := PENDING;
     subscriptionReadyCallback := Some (Res 9);
     subscriptionFailedCallback := Some (Rej 9);
     startAckTimeoutId := None |}.

(** A keep-alive message has armed the keep-alive timer 9. *)
Definition kept_alive : State :=
  Eval vm_compute in
    after (start_sent
           ++ [SocketMessage 5 (mkServerMessage GQL_CONNECTION_KEEP_ALIVE None None)]).

(** The subscription "s1" of a consumer whose mode is "NONE" has asked for
    the connection; call 3 waits for the auth headers. *)
Definition unsupported_connecting : State :=
  Eval vm_compute in
    after [Subscribe [] (Some unsupportedOptions); SubscriptionHeaders "s1" exampleAnswers].

(** The claim C5 as stated: the key of the new record is a function of
    what the caller passes to [subscribe]. *)
Definition caller_supplies_id : Prop :=
  exists id_of : list string -> AWSAppSyncRealTimeProviderOptions -> SubscriptionId,
    forall W topics options,
      opt_string_truthy (appSyncGraphqlEndpoint options) = true ->
      map fst (subscriptionObserverMap
                 (this (exec (subscribe W topics (Some options)) initialState)))
      = [id_of topics options].

(** ** More vocabulary *)

(** The calls made on observers. *)
Definition observer_calls (evs : list Event) : list Event :=
  filter (fun e => match e with
                   | EvObserverNext _ _ | EvObserverError _ _ | EvObserverComplete _ => true
                   | _ => false
                   end) evs.

(** The messages sent, with the socket they went to. *)
Definition sent_messages (evs : list Event) : list (SocketId * ClientMessage) :=
  flat_map (fun e => match e with
                     | EvSocketSend s m => [(s, m)]
                     | _ => []
                     end) evs.

(** [const { id = '' } = JSON.parse(message.data)] *)
Definition id_or_empty (m : ServerMessage) : string :=
  match m_id m with Some i => i | None => EmptyString end.

(** The state once timer [t] has fired and is gone. *)
Definition timer_gone (t : TimerId) (st : State) : State :=
  mkState (this st) (set_timers (store_delete t (timers (rt st))) (rt st)) (trace st).

(** What closing an observer, which runs the cleanup function up to its
    await, leaves alone: no call is made, the connection is not touched
    and no observer is reopened. *)
Record calm (st st' : State) : Prop := {
  calm_trace : trace st' = trace st;
  calm_status : socketStatus (this st') = socketStatus (this st);
  calm_socket : awsRealTimeSocket (this st') = awsRealTimeSocket (this st);
  calm_waiters : promiseArray (this st') = promiseArray (this st);
  calm_calls : connectCalls (rt st') = connectCalls (rt st);
  calm_sockets : sockets (rt st') = sockets (rt st);
  calm_timers : timers (rt st') = timers (rt st);
  calm_closed : forall o, is_closed o st = true -> is_closed o st' = true
}.

(** Every armed keep-alive timer is the one the provider remembers. *)
Definition one_keep_alive (st : State) : Prop :=
  forall t,
    In (t, KeepAliveTimeout) (timers (rt st)) -> keepAliveTimeoutId (this st) = Some t.

(** A handler that arms no keep-alive timer and keeps the one
    remembered. *)
Record keeps_keep_alive (st st' : State) : Prop := {
  ka_id : keepAliveTimeoutId (this st') = keepAliveTimeoutId (this st);
  ka_timers : forall t,
      In (t, KeepAliveTimeout) (timers (rt st')) ->
      In (t, KeepAliveTimeout) (timers (rt st))
}.


(** [additionalHeaders && additionalHeaders['Authorization']], when truthy. *)
Definition lambda_token (options : AWSAppSyncRealTimeProviderOptions) : option string :=
  match additionalHeaders options with
  | Some additional =>
      match assoc "Authorization" additional with
      | Some (Some token) => if string_truthy token then Some token else None
      | _ => None
      end
  | None => None
  end.

(** [headerObj] of the start message (lines 304-317). *)
Definition start_message_headers (W : World) (auth : AuthHeaders)
  (extra additional : Headers) : Headers :=
  obj_set (USER_AGENT_HEADER W) (Some (userAgent W))
    (obj_spread (obj_spread (spread_auth auth) extra) additional).

(** The value of the last entry for [k], as an object literal with a
    repeated key keeps it. *)
Definition last_value (k : string) (h : Headers) : option (option string) :=
  assoc k (rev h).

(** The cases in which a strategy refuses for want of credentials, with
    the text of its error. *)
Definition missing_credentials (a : AuthAnswers)
  (options : AWSAppSyncRealTimeProviderOptions) (reason : string) : Prop :=
  (authenticationType options = Some "AWS_LAMBDA"
   /\ lambda_token options = None
   /\ reason = "No auth token specified")
  \/ (authenticationType options = Some "OPENID_CONNECT"
      /\ (federatedInfo a = Some None \/ federatedInfo a = Some (Some EmptyString))
      /\ reason = "No federated jwt")
  \/ (authenticationType options = Some "AWS_IAM"
      /\ match credentials a with Returned (Some _) => False | _ => True end
      /\ reason = "No credentials").

(** ** More states of the concrete run *)

Definition start_ack : ServerMessage :=
  mkServerMessage GQL_START_ACK (Some "s1") None.

(** The subscription "s1" is acknowledged: its record is CONNECTED. *)
Definition connected : State :=
  Eval vm_compute in after (start_sent ++ [SocketMessage 5 start_ack]).

Definition connected_record : ObserverQuery :=
  {| observer := 1;
     query := "{onCreate}";
     variables := JObj [];
     subscriptionState := CONNECTED;
     subscriptionReadyCallback := None;
     subscriptionFailedCallback := None;
     startAckTimeoutId := None |}.

(** The consumer has unsubscribed: the registry is empty and timer 9
    checks for an idle socket. *)
Definition unsubscribed : State :=
  Eval vm_compute in
    after (start_sent ++ [SocketMessage 5 start_ack; Unsubscribe 1; Microtask]).

(** The socket is open and the init message sent: promise 6 waits for the
    connection ack. *)
Definition handshaking : State :=
  Eval vm_compute in
    after [Subscribe [] (Some exampleOptions); SubscriptionHeaders "s1" exampleAnswers;
           ConnectionHeaders 3 exampleAnswers; SocketOpen 5; Microtask].

Definition connection_refused : ServerMessage :=
  mkServerMessage GQL_CONNECTION_ERROR None
    (Some (JObj [("errors",
                  JArr [JObj [("errorType", JStr "UnauthorizedException");
                              ("errorCode", JNum 401)]])])).

(** A consumer subscribes in the mode AWS_LAMBDA without a token. *)
Definition lambdaOptions : AWSAppSyncRealTimeProviderOptions :=
  mkOptions (Some exampleEndpoint) (Some "AWS_LAMBDA") (Some "{onCreate}") None None None
    None None.

Definition lambda_subscribed : State :=
  Eval vm_compute in after [Subscribe [] (Some lambdaOptions)].

(** A consumer subscribes in the mode AMAZON_COGNITO_USER_POOLS; the
    session is there when the start message is built and gone when the
    connection is. *)
Definition cognitoOptions : AWSAppSyncRealTimeProviderOptions :=
  mkOptions (Some exampleEndpoint) (Some "AMAZON_COGNITO_USER_POOLS") (Some "{onCreate}")
    None None None None None.

Definition signedOutAnswers : AuthAnswers :=
  mkAuthAnswers "20210101T000000Z" (Throws (Error (Lit "No current user"))) None
    (Returned None) (Returned None) (fun _ _ => []) (fun _ => Some "example.com")
    (fun _ => Throws TypeError).

Definition cognito_connecting : State :=
  Eval vm_compute in
    after [Subscribe [] (Some cognitoOptions); SubscriptionHeaders "s1" exampleAnswers].

(** The first consumer has subscribed; its start call waits for the
    headers. *)
Definition subscribed : State :=
  Eval vm_compute in after [Subscribe [] (Some exampleOptions)].

(** Socket 5 once the connection is established. *)
Definition established_socket : WebSocket :=
  mkWebSocket WS_OPEN 0 (Some (OnOpenHandshake 4)) (Some OnCloseDisconnect)
    (Some OnErrorDisconnect) (Some OnMessageSubscription).



(** A second consumer, observer 9, subscribes as "s2" on the established
    connection. *)
Definition second_subscribed : State :=
  Eval vm_compute in
    after (start_sent ++ [SocketMessage 5 start_ack; Subscribe [] (Some exampleOptions)]).

(** The consumer has unsubscribed and the stop message is still buffered
    when timer 9 checks for an idle socket. *)
Definition buffered : State :=
  Eval vm_compute in
    after (start_sent ++ [SocketMessage 5 start_ack; Unsubscribe 1; Microtask;
                          SocketBuffered 5 10]).


(** * The address of the socket (lines 147-150, 192-194, 262-265, 649-664)

    ** Strings

    A string of JavaScript is a sequence of code units; the strings of
    this development hold the code units below 256, one character each. *)

(** [s.startsWith(p)] *)
Fixpoint starts_with (p s : string) : bool :=
  match p, s with
  | EmptyString, _ => true
  | String a p', String b s' => Ascii.eqb a b && starts_with p' s'
  | String _ _, EmptyString => false
  end.

(** [s.substring(n)] *)
Fixpoint drop (n : nat) (s : string) : string :=
  match n, s with
  | 0, _ => s
  | S n', String _ s' => drop n' s'
  | S _, EmptyString => EmptyString
  end.

(** [s.includes(p)] *)
Fixpoint contains (p s : string) : bool :=
  starts_with p s
  || match s with
     | EmptyString => false
     | String _ s' => contains p s'
     end.

(** [s.replace(p, r)] for a string pattern [p] and a replacement [r]
    without [$]: the first occurrence of [p] is replaced, if there is
    one. *)
Fixpoint replace (p r s : string) : string :=
  if starts_with p s then (r ++ drop (String.length p) s)%string
  else match s with
       | EmptyString => EmptyString
       | String c s' => String c (replace p r s')
       end.

(** The code unit [c] occurs in [s]. *)
Fixpoint occurs (c : Ascii.ascii) (s : string) : bool :=
  match s with
  | EmptyString => false
  | String x s' => Ascii.eqb c x || occurs c s'
  end.

(** ** Regular expressions

    The patterns of the source use no group that is referred to, no
    look-around and no lazy quantifier, and they are anchored at both
    ends: [s.match(re)] is [null] exactly when [s] is not in the language
    of [re]. *)

Inductive Regex : Type :=
| Never                                  (* no string *)
| Empty                                  (* the empty string *)
| Class (f : Ascii.ascii -> bool)        (* one code unit of a class *)
| Seq (a b : Regex)
| Alt (a b : Regex)
| Star (a : Regex).

Fixpoint nullable (r : Regex) : bool :=
  match r with
  | Never => false
  | Empty => true
  | Class _ => false
  | Seq a b => nullable a && nullable b
  | Alt a b => nullable a || nullable b
  | Star _ => true
  end.

(** The strings [s] with [c s] in the language of [r]. *)
Fixpoint deriv (c : Ascii.ascii) (r : Regex) : Regex :=
  match r with
  | Never => Never
  | Empty => Never
  | Class f => if f c then Empty else Never
  | Seq a b =>
      if nullable a then Alt (Seq (deriv c a) b) (deriv c b)
      else Seq (deriv c a) b
  | Alt a b => Alt (deriv c a) (deriv c b)
  | Star a => Seq (deriv c a) (Star a)
  end.

Fixpoint matches (r : Regex) (s : string) : bool :=
  match s with
  | EmptyString => nullable r
  | String c s' => matches (deriv c r) s'
  end.

(** The language of a pattern. *)
Inductive lang : Regex -> string -> Prop :=
| lang_Empty : lang Empty EmptyString
| lang_Class f c : f c = true -> lang (Class f) (String c EmptyString)
| lang_Seq a b s t : lang a s -> lang b t -> lang (Seq a b) (s ++ t)%string
| lang_Alt_l a b s : lang a s -> lang (Alt a b) s
| lang_Alt_r a b s : lang b s -> lang (Alt a b) s
| lang_Star_nil a : lang (Star a) EmptyString
| lang_Star_cons a s t : lang a s -> lang (Star a) t -> lang (Star a) (s ++ t)%string.

(** [a+], [a{n}] and [a{n,}] *)
Definition Plus (a : Regex) : Regex := Seq a (Star a).

Fixpoint Times (n : nat) (a : Regex) : Regex :=
  match n with
  | 0 => Empty
  | S n' => Seq a (Times n' a)
  end.

Definition AtLeast (n : nat) (a : Regex) : Regex := Seq (Times n a) (Star a).

Definition code_unit (c : Ascii.ascii) : nat := Ascii.nat_of_ascii c.

Definition is_between (lo hi : nat) (c : Ascii.ascii) : bool :=
  Nat.leb lo (code_unit c) && Nat.leb (code_unit c) hi.

(** The canonical form of a code unit below 256 under the flag [i]
    (without [u]): the code unit of its upper-case form, when that form is
    one code unit and is not a code unit below 128 got from one from 128
    on.  The small letters of the basic alphabet (97-122) and of Latin-1
    (224-254, but the division sign 247) lie 32 above their capitals; the
    micro sign (181) and the y with diaeresis (255) have their capitals at
    924 and 376; the upper-case form of the sharp s (223) is two code
    units. *)
Definition canonicalize (c : Ascii.ascii) : nat :=
  let n := code_unit c in
  if is_between 97 122 c then n - 32
  else if is_between 224 254 c && negb (Nat.eqb n 247) then n - 32
  else if Nat.eqb n 181 then 924
  else if Nat.eqb n 255 then 376
  else n.

(** [\w], [\d] and [.]; a code unit is in a class under the flag [i] when
    its canonical form is that of a member, which for these three classes
    gives the members themselves. *)
Definition word_char (c : Ascii.ascii) : bool :=
  is_between 97 122 c || is_between 65 90 c || is_between 48 57 c
  || Nat.eqb (code_unit c) 95.

Definition digit_char (c : Ascii.ascii) : bool := is_between 48 57 c.

Definition any_char (c : Ascii.ascii) : bool :=
  negb (Nat.eqb (code_unit c) 10 || Nat.eqb (code_unit c) 13).

(** A character of the pattern under the flag [i]. *)
Definition same_letter (c x : Ascii.ascii) : bool :=
  Nat.eqb (canonicalize x) (canonicalize c).

(** A run of characters of the pattern under the flag [i]. *)
Fixpoint Literal (s : string) : Regex :=
  match s with
  | EmptyString => Empty
  | String c s' => Seq (Class (same_letter c)) (Literal s')
  end.

(** [\w{26}] *)
Definition apiIdPattern : Regex := Times 26 (Class word_char).

(** [\w{2}(?:(?:\-\w{2,})+)\-\d] *)
Definition regionPattern : Regex :=
  Seq (Times 2 (Class word_char))
    (Seq (Plus (Seq (Literal "-") (AtLeast 2 (Class word_char))))
       (Seq (Literal "-") (Class digit_char))).

(** [/^https:\/\/\w{26}\.appsync\-api\.\w{2}(?:(?:\-\w{2,})+)\-\d\.amazonaws.com\/graphql$/i] *)
Definition standardDomainPattern : Regex :=
  Seq (Literal "https://")
    (Seq apiIdPattern
       (Seq (Literal ".appsync-api.")
          (Seq regionPattern
             (Seq (Literal ".amazonaws")
                (Seq (Class any_char) (Literal "com/graphql")))))).

Definition customDomainPath : string := EmptyString.

(** [isCustomDomain(url)]: [url.match(standardDomainPattern) === null] *)
Definition isCustomDomain (url : string) : bool :=
  negb (matches standardDomainPattern url).

(** [this.isSSLEnabled ? 'wss://' : 'ws://'] *)
Definition protocol (ssl : bool) : string := if ssl then "wss://" else "ws://".

(** [discoverableEndpoint] as it goes into [awsRealTimeUrl] (lines
    649-664). *)
Definition discoverableEndpoint (ssl : bool) (appSyncGraphqlEndpoint : string) : string :=
  let discoverableEndpoint :=
    if isCustomDomain appSyncGraphqlEndpoint
    then (appSyncGraphqlEndpoint ++ customDomainPath)%string
    else replace "gogi-beta" "grt-beta"
           (replace "appsync-api" "appsync-realtime-api" appSyncGraphqlEndpoint) in
  replace "http://" (protocol ssl) (replace "https://" (protocol ssl) discoverableEndpoint).


(** Every code unit of [s] is in the class [P]. *)
Fixpoint all_chars (P : Ascii.ascii -> bool) (s : string) : bool :=
  match s with
  | EmptyString => true
  | String c s' => P c && all_chars P s'
  end.

(** Every class of the pattern [r] lies within [P]. *)
Fixpoint classes_within (P : Ascii.ascii -> bool) (r : Regex) : Prop :=
  match r with
  | Never | Empty => True
  | Class f => forall c, f c = true -> P c = true
  | Seq a b | Alt a b => classes_within P a /\ classes_within P b
  | Star a => classes_within P a
  end.

(** The code units of a region: those of [\w], and the hyphen. *)
Definition region_char (c : Ascii.ascii) : bool := word_char c || Nat.eqb (code_unit c) 45.

(** [s] begins with [p], the letters compared as under the flag [i]. *)
Fixpoint starts_with_i (p s : string) : bool :=
  match p, s with
  | EmptyString, _ => true
  | String a p', String b s' => same_letter a b && starts_with_i p' s'
  | String _ _, EmptyString => false
  end.

(** * Facts about the runtime *)

(** ** Keyed collections *)

Section KeyedListFacts.
Context {K V : Type} (eqb : K -> K -> bool).
Hypothesis eqb_eq : forall a b, eqb a b = true <-> a = b.

Lemma eqb_same (k : K) : eqb k k = true.
Proof using eqb_eq. now apply eqb_eq. Qed.

Lemma kl_get_set_same (k : K) (v : V) l :
  kl_get eqb k (kl_set eqb k v l) = Some v.
Proof using eqb_eq.
  induction l as [|[k' v'] l IH]; cbn.
  - now rewrite eqb_same.
  - destruct (eqb k k') eqn:E; cbn.
    + now rewrite eqb_same.
    + now rewrite E.
Qed.

Lemma kl_get_set_other (k k' : K) (v : V) l :
  k <> k' -> kl_get eqb k (kl_set eqb k' v l) = kl_get eqb k l.
Proof using eqb_eq.
  intros Hne.
  assert (Hf : eqb k k' = false).
  { destruct (eqb k k') eqn:E; [apply eqb_eq in E; contradiction | reflexivity]. }
  induction l as [|[k2 v2] l IH]; cbn.
  - now rewrite Hf.
  - destruct (eqb k' k2) eqn:E; cbn.
    + apply eqb_eq in E; subst k2. now rewrite Hf.
    + destruct (eqb k k2); [reflexivity | exact IH].
Qed.

Lemma kl_get_delete_same (k : K) (l : list (K * V)) :
  kl_get eqb k (kl_delete eqb k l) = None.
Proof using eqb_eq.
  induction l as [|[k' v'] l IH]; cbn; [reflexivity|].
  destruct (eqb k k') eqn:E; cbn; [exact IH | now rewrite E].
Qed.

End KeyedListFacts.

Lemma string_eqb_eq (a b : string) : String.eqb a b = true <-> a = b.
Proof. apply String.eqb_eq. Qed.

Lemma nat_eqb_eq (a b : nat) : Nat.eqb a b = true <-> a = b.
Proof. apply Nat.eqb_eq. Qed.

Lemma map_get_set_same {V} (k : string) (v : V) l :
  map_get k (map_set k v l) = Some v.
Proof. apply kl_get_set_same, string_eqb_eq. Qed.

Lemma map_get_set_other {V} (k k' : string) (v : V) l :
  k <> k' -> map_get k (map_set k' v l) = map_get k l.
Proof. apply kl_get_set_other, string_eqb_eq. Qed.

Lemma map_get_delete_same {V} (k : string) (l : list (string * V)) :
  map_get k (map_delete k l) = None.
Proof. apply kl_get_delete_same, string_eqb_eq. Qed.

Lemma store_get_set_same {V} (k : nat) (v : V) l :
  store_get k (store_set k v l) = Some v.
Proof. apply kl_get_set_same, nat_eqb_eq. Qed.

Lemma store_get_set_other {V} (k k' : nat) (v : V) l :
  k <> k' -> store_get k (store_set k' v l) = store_get k l.
Proof. apply kl_get_set_other, nat_eqb_eq. Qed.

Lemma store_get_delete_same {V} (k : nat) (l : list (nat * V)) :
  store_get k (store_delete k l) = None.
Proof. apply kl_get_delete_same, nat_eqb_eq. Qed.

(** ** Awaiting leaves the trace and the fields alone *)

Lemma await_trace v k st : trace (snd (await v k st)) = trace st.
Proof.
  unfold await. destruct v as [p|]; cbn; [|reflexivity].
  destruct (store_get p (promises (rt st))) as [c|]; cbn; [|reflexivity].
  destruct (settled c); reflexivity.
Qed.

(** ** Frame conditions *)

Section Frames.
Variable R : State -> State -> Prop.
Hypothesis R_refl : forall st, R st st.
Hypothesis R_trans : forall a b c, R a b -> R b c -> R a c.

Lemma frames_ret {A} (a : A) : frames R (ret a).
Proof using R_refl. intros st. apply R_refl. Qed.

Lemma frames_gets {A} (f : State -> A) : frames R (gets f).
Proof using R_refl. intros st. apply R_refl. Qed.

Lemma frames_bind {A B} (m : M A) (f : A -> M B) :
  frames R m -> (forall a, frames R (f a)) -> frames R (bind m f).
Proof using R_trans.
  intros Hm Hf st. cbn. eapply R_trans; [apply Hm | apply Hf].
Qed.

Lemma frames_when (b : bool) (m : M unit) : frames R m -> frames R (when b m).
Proof using R_refl. intros Hm. destruct b; [exact Hm | apply frames_ret]. Qed.

Lemma frames_forEach {A} (l : list A) (f : A -> M unit) :
  (forall a, frames R (f a)) -> frames R (forEach l f).
Proof using R_refl R_trans.
  intros Hf. induction l as [|x l IH]; cbn [forEach].
  - apply frames_ret.
  - apply frames_bind; auto.
Qed.
End Frames.

Ltac frame_step Rrefl Rtrans :=
  first
    [ apply (frames_ret _ Rrefl)
    | apply (frames_gets _ Rrefl)
    | apply (frames_when _ Rrefl)
    | apply (frames_forEach _ Rrefl Rtrans); intros
    | apply (frames_bind _ Rtrans); [|intros]
    | match goal with
      | |- frames _ (match ?x with _ => _ end) => destruct x
      | |- frames _ (let _ := _ in _) => cbv zeta
      end ].

(** *** Quiet handlers *)

Lemma quiet_refl st : quiet st st.
Proof. constructor; auto. Qed.

Lemma quiet_trans a b c : quiet a b -> quiet b c -> quiet a c.
Proof. intros [] []. constructor; try congruence. lia. Qed.

Lemma sent_stops_app a b : sent_stops (a ++ b) = sent_stops a ++ sent_stops b.
Proof. apply flat_map_app. Qed.

Lemma quiet_update_this f : frames quiet (update_this f).
Proof. intros st. constructor; reflexivity. Qed.

Lemma quiet_update_rt f :
  (forall r, cleanups (f r) = cleanups r /\ nextId r <= nextId (f r)) ->
  frames quiet (update_rt f).
Proof. intros H st. destruct (H (rt st)). constructor; cbn; auto. Qed.

Lemma quiet_emit e : sent_stops [e] = [] -> frames quiet (emit e).
Proof.
  intros He st. constructor; cbn; auto.
  now rewrite sent_stops_app, He, app_nil_r.
Qed.

Lemma quiet_fresh : frames quiet fresh.
Proof. intros st. constructor; cbn; auto. Qed.

Create HintDb quiet.

Ltac quiet_rt :=
  let r := fresh "r" in
  intros r;
  repeat match goal with
         | |- context [match ?x with _ => _ end] => destruct x
         end;
  cbn; split; (reflexivity || lia).

Ltac quiet :=
  repeat first
    [ apply quiet_update_this
    | apply quiet_fresh
    | apply quiet_emit; reflexivity
    | solve [auto with quiet]
    | apply quiet_update_rt; quiet_rt
    | frame_step quiet_refl quiet_trans ].

Lemma quiet_enqueue k o : frames quiet (enqueue k o).
Proof. unfold enqueue. quiet. Qed.
#[local] Hint Resolve quiet_enqueue : quiet.

Lemma quiet_new_promise : frames quiet new_promise.
Proof. unfold new_promise. quiet. Qed.
#[local] Hint Resolve quiet_new_promise : quiet.

Lemma quiet_await v k : frames quiet (await v k).
Proof. unfold await. quiet. Qed.
#[local] Hint Resolve quiet_await : quiet.

Lemma quiet_settle p o : frames quiet (settle p o).
Proof. unfold settle. quiet. Qed.
#[local] Hint Resolve quiet_settle : quiet.

Lemma quiet_call cb : frames quiet (call cb).
Proof. unfold call. quiet. Qed.
#[local] Hint Resolve quiet_call : quiet.

Lemma quiet_call_if_function cb : frames quiet (call_if_function cb).
Proof. unfold call_if_function. quiet. Qed.
#[local] Hint Resolve quiet_call_if_function : quiet.

Lemma quiet_setTimeout task delay : frames quiet (setTimeout task delay).
Proof. unfold setTimeout. quiet. Qed.
#[local] Hint Resolve quiet_setTimeout : quiet.

Lemma quiet_clearTimeout t : frames quiet (clearTimeout t).
Proof. unfold clearTimeout. quiet. Qed.
#[local] Hint Resolve quiet_clearTimeout : quiet.

Lemma quiet_clearTimeout_if_set t : frames quiet (clearTimeout_if_set t).
Proof. unfold clearTimeout_if_set. quiet. Qed.
#[local] Hint Resolve quiet_clearTimeout_if_set : quiet.

Lemma quiet_update_socket s f : frames quiet (update_socket s f).
Proof. unfold update_socket. quiet. Qed.
#[local] Hint Resolve quiet_update_socket : quiet.

Lemma quiet_new_WebSocket u : frames quiet (new_WebSocket u).
Proof. unfold new_WebSocket. quiet. Qed.
#[local] Hint Resolve quiet_new_WebSocket : quiet.

Lemma quiet_socket_close s code : frames quiet (socket_close s code).
Proof. unfold socket_close. quiet. Qed.
#[local] Hint Resolve quiet_socket_close : quiet.

Lemma quiet_socket_is_open s : frames quiet (socket_is_open s).
Proof. unfold socket_is_open. quiet. Qed.
#[local] Hint Resolve quiet_socket_is_open : quiet.

Lemma quiet_get_record id : frames quiet (get_record id).
Proof. unfold get_record. quiet. Qed.
#[local] Hint Resolve quiet_get_record : quiet.

Lemma quiet_set_record id r : frames quiet (set_record id r).
Proof. unfold set_record. quiet. Qed.
#[local] Hint Resolve quiet_set_record : quiet.

Lemma quiet_waitForSubscriptionToBeConnected id :
  frames quiet (_waitForSubscriptionToBeConnected id).
Proof. unfold _waitForSubscriptionToBeConnected. quiet. Qed.
#[local] Hint Resolve quiet_waitForSubscriptionToBeConnected : quiet.

Lemma quiet_removeSubscriptionObserver id : frames quiet (_removeSubscriptionObserver id).
Proof. unfold _removeSubscriptionObserver. quiet. Qed.
#[local] Hint Resolve quiet_removeSubscriptionObserver : quiet.

Lemma quiet_closeSocketIfRequired : frames quiet _closeSocketIfRequired.
Proof. unfold _closeSocketIfRequired. quiet. Qed.
#[local] Hint Resolve quiet_closeSocketIfRequired : quiet.

Lemma quiet_cleanup_begin id : frames quiet (cleanup_begin id).
Proof. unfold cleanup_begin. quiet. Qed.
#[local] Hint Resolve quiet_cleanup_begin : quiet.

Lemma quiet_close_subscription o : frames quiet (close_subscription o).
Proof. unfold close_subscription, observer_closed. quiet. Qed.
#[local] Hint Resolve quiet_close_subscription : quiet.

Lemma quiet_observer_next o v : frames quiet (observer_next o v).
Proof. unfold observer_next. quiet. Qed.
#[local] Hint Resolve quiet_observer_next : quiet.

Lemma quiet_observer_error o e : frames quiet (observer_error o e).
Proof. unfold observer_error. quiet. Qed.
#[local] Hint Resolve quiet_observer_error : quiet.

Lemma quiet_observer_complete o : frames quiet (observer_complete o).
Proof. unfold observer_complete. quiet. Qed.
#[local] Hint Resolve quiet_observer_complete : quiet.

Lemma quiet_errorDisconnect msg : frames quiet (_errorDisconnect msg).
Proof. unfold _errorDisconnect, observer_closed. quiet. Qed.
#[local] Hint Resolve quiet_errorDisconnect : quiet.

Lemma quiet_handleIncomingSubscriptionMessage W m :
  frames quiet (_handleIncomingSubscriptionMessage W m).
Proof. unfold _handleIncomingSubscriptionMessage, dispatchApiEvent. quiet. Qed.
#[local] Hint Resolve quiet_handleIncomingSubscriptionMessage : quiet.

Lemma quiet_timeoutStartSubscriptionAck id : frames quiet (_timeoutStartSubscriptionAck id).
Proof. unfold _timeoutStartSubscriptionAck, observer_closed. quiet. Qed.
#[local] Hint Resolve quiet_timeoutStartSubscriptionAck : quiet.

Lemma quiet_connection_established : frames quiet connection_established.
Proof. unfold connection_established. quiet. Qed.
#[local] Hint Resolve quiet_connection_established : quiet.

Lemma quiet_connection_failed err : frames quiet (connection_failed err).
Proof. unfold connection_failed. quiet. Qed.
#[local] Hint Resolve quiet_connection_failed : quiet.

Lemma quiet_set_call call c : frames quiet (set_call call c).
Proof. unfold set_call. quiet. Qed.
#[local] Hint Resolve quiet_set_call : quiet.

Lemma quiet_initializeHandshake call : frames quiet (_initializeHandshake call).
Proof. unfold _initializeHandshake, get_call. quiet. Qed.
#[local] Hint Resolve quiet_initializeHandshake : quiet.

Lemma quiet_initializeHandshake_step2 call : frames quiet (_initializeHandshake_step2 call).
Proof. unfold _initializeHandshake_step2, socket_send. quiet. Qed.
#[local] Hint Resolve quiet_initializeHandshake_step2 : quiet.

Lemma quiet_handshake_attempt_failed W call err :
  frames quiet (handshake_attempt_failed W call err).
Proof. unfold handshake_attempt_failed, get_call. quiet. Qed.
#[local] Hint Resolve quiet_handshake_attempt_failed : quiet.

Lemma quiet_initializeWebSocketConnection options :
  frames quiet (_initializeWebSocketConnection options).
Proof. unfold _initializeWebSocketConnection. quiet. Qed.
#[local] Hint Resolve quiet_initializeWebSocketConnection : quiet.

Lemma quiet_initializeWebSocketConnection_headers W a call :
  frames quiet (_initializeWebSocketConnection_headers W a call).
Proof. unfold _initializeWebSocketConnection_headers, get_call. quiet. Qed.
#[local] Hint Resolve quiet_initializeWebSocketConnection_headers : quiet.

Lemma quiet_handshake_onmessage p m : frames quiet (handshake_onmessage p m).
Proof. unfold handshake_onmessage. quiet. Qed.
#[local] Hint Resolve quiet_handshake_onmessage : quiet.

Lemma quiet_subscribe_catch W o err : frames quiet (subscribe_catch W o err).
Proof. unfold subscribe_catch. quiet. Qed.
#[local] Hint Resolve quiet_subscribe_catch : quiet.

Lemma quiet_startSubscription_headers W a c :
  frames quiet (_startSubscription_headers W a c).
Proof. unfold _startSubscription_headers. quiet. Qed.
#[local] Hint Resolve quiet_startSubscription_headers : quiet.

Lemma quiet_startSubscription_resume W c o :
  frames quiet (_startSubscription_resume W c o).
Proof. unfold _startSubscription_resume, socket_send. quiet. Qed.
#[local] Hint Resolve quiet_startSubscription_resume : quiet.

Lemma quiet_run_onopen s h : frames quiet (run_onopen s h).
Proof. unfold run_onopen. quiet. Qed.

Lemma quiet_run_onclose W h : frames quiet (run_onclose W h).
Proof. unfold run_onclose. quiet. Qed.

Lemma quiet_run_onerror W h : frames quiet (run_onerror W h).
Proof. unfold run_onerror. quiet. Qed.

Lemma quiet_run_onmessage W h m : frames quiet (run_onmessage W h m).
Proof. unfold run_onmessage. quiet. Qed.

Lemma quiet_run_timer W task : frames quiet (run_timer W task).
Proof. unfold run_timer. quiet. Qed.

(** *** Stop messages are only sent for CONNECTED records *)

Lemma quiet_task W a st st' :
  task W a st = Some st' ->
  (forall topics options, a <> Subscribe topics options) ->
  quiet st st'.
Proof.
  intros Ht Hns.
  destruct a as [topics options | o | id a | cid a | s | s | s | s m | s n | t | ];
    cbn [task] in Ht.
  - exfalso. eapply Hns. reflexivity.
  - injection Ht as <-. apply quiet_close_subscription.
  - destruct (map_get id (startCalls (rt st))) as [c|]; [|discriminate].
    injection Ht as <-.
    assert (H : frames quiet
                  (update_rt (fun r => set_startCalls (map_delete id (startCalls r)) r) ;;
                   _startSubscription_headers W a c)) by quiet.
    apply H.
  - destruct (store_get cid (connectCalls (rt st))) as [c|]; [|discriminate].
    destruct (cc_url c); [discriminate|]. injection Ht as <-.
    apply quiet_initializeWebSocketConnection_headers.
  - destruct (store_get s (sockets (rt st))) as [w|]; [|discriminate].
    destruct (readyState w); try discriminate. injection Ht as <-.
    assert (H : frames quiet (update_socket s (set_readyState WS_OPEN) ;;
                              run_onopen s (onopen w)))
      by (pose proof quiet_run_onopen; quiet).
    apply H.
  - destruct (store_get s (sockets (rt st))) as [w|]; [|discriminate].
    assert (H : frames quiet (update_socket s (set_readyState WS_CLOSED) ;;
                              run_onclose W (onclose w)))
      by (pose proof quiet_run_onclose; quiet).
    destruct (readyState w); try discriminate; injection Ht as <-; apply H.
  - destruct (store_get s (sockets (rt st))) as [w|]; [|discriminate].
    injection Ht as <-. apply quiet_run_onerror.
  - destruct (store_get s (sockets (rt st))) as [w|]; [|discriminate].
    destruct (readyState w); try discriminate; injection Ht as <-;
      apply quiet_run_onmessage.
  - destruct (store_get s (sockets (rt st))) as [w|]; [|discriminate].
    injection Ht as <-. apply quiet_update_socket.
  - destruct (store_get t (timers (rt st))) as [tk|]; [|discriminate].
    injection Ht as <-.
    assert (H : frames quiet
                  (update_rt (fun r => set_timers (store_delete t (timers r)) r) ;;
                   run_timer W tk))
      by (pose proof quiet_run_timer; quiet).
    apply H.
  - discriminate.
Qed.

Lemma same_stops_refl st : same_stops st st.
Proof. reflexivity. Qed.

Lemma same_stops_trans a b c : same_stops a b -> same_stops b c -> same_stops a c.
Proof. unfold same_stops. congruence. Qed.

Lemma quiet_same_stops {A} (m : M A) : frames quiet m -> frames same_stops m.
Proof. intros H st. apply H. Qed.

Lemma same_stops_update_rt f : frames same_stops (update_rt f).
Proof. intros st. reflexivity. Qed.

Ltac same_stops :=
  repeat first
    [ apply same_stops_update_rt
    | apply quiet_same_stops; solve [quiet]
    | frame_step same_stops_refl same_stops_trans ].

Lemma same_stops_subscribe W topics options : frames same_stops (subscribe W topics options).
Proof.
  unfold subscribe, _startSubscriptionWithAWSAppSyncRealTime. same_stops.
Qed.

Lemma same_stops_removeSubscriptionObserver id st :
  sent_stops (trace (snd (_removeSubscriptionObserver id st))) = sent_stops (trace st).
Proof. apply (quiet_removeSubscriptionObserver id st). Qed.

Lemma sent_stops_sendUnsubscriptionMessage id st :
  let st' := snd (_sendUnsubscriptionMessage id st) in
  sent_stops (trace st') = sent_stops (trace st)
  \/ sent_stops (trace st') = sent_stops (trace st) ++ [id].
Proof.
  unfold _sendUnsubscriptionMessage, socket_is_open, socket_send. cbn.
  destruct (awsRealTimeSocket (this st)) as [s|]; [|now left]. cbn.
  destruct (store_get s (sockets (rt st))) as [w|]; [|now left].
  destruct (readyState w); try now left.
  destruct (socketStatus (this st)); try now left.
  right. cbn. now rewrite sent_stops_app.
Qed.

(** X1. A step of the event loop sends a stop message only when it
    resumes an unsubscribe whose wait was fulfilled and finds the record
    CONNECTED; it then sends exactly one, with the id of that record. *)
Theorem stop_only_for_connected_record W a st st' :
  step W a st = Some st' ->
  sent_stops (trace st') = sent_stops (trace st)
  \/ exists id rest r,
      a = Microtask
      /\ microtasks (rt st) = (KUnsubscribe id, Fulfilled) :: rest
      /\ map_get id (subscriptionObserverMap (this st)) = Some r
      /\ subscriptionState r = CONNECTED
      /\ sent_stops (trace st') = sent_stops (trace st) ++ [id].
Proof.
  unfold step. intros Hstep.
  destruct (microtasks (rt st)) as [|[k o] rest] eqn:Hq.
  - left. destruct a as [topics options | | | | | | | | | | ];
      try (apply (quiet_task W _ st st' Hstep); intros; discriminate).
    + cbn [task] in Hstep. injection Hstep as <-. apply same_stops_subscribe.
    + discriminate.
  - destruct a; try discriminate. injection Hstep as <-.
    set (st0 := mkState (this st) (set_microtasks rest (rt st)) (trace st)).
    change (exec (update_rt (set_microtasks rest) ;; resume W k o) st)
      with (exec (resume W k o) st0).
    destruct k as [c | id | cid | cid]; cbn [resume].
    + left. apply (quiet_startSubscription_resume W c o st0).
    + unfold cleanup_resume.
      destruct o as [|err].
      * unfold get_record. cbn -[_sendUnsubscriptionMessage _removeSubscriptionObserver].
        destruct (map_get id (subscriptionObserverMap (this st))) as [r|] eqn:Hr;
          cbn -[_sendUnsubscriptionMessage _removeSubscriptionObserver];
          [|left; exact (same_stops_removeSubscriptionObserver id st0)].
        destruct (subscriptionState r) eqn:Hs;
          cbn -[_sendUnsubscriptionMessage _removeSubscriptionObserver];
          try (left; exact (same_stops_removeSubscriptionObserver id st0)).
        rewrite same_stops_removeSubscriptionObserver.
        destruct (sent_stops_sendUnsubscriptionMessage id st0) as [H | H];
          cbn -[_sendUnsubscriptionMessage] in H; rewrite H; [now left|].
        right. exists id, rest, r. auto.
      * left. cbn -[_removeSubscriptionObserver].
        exact (same_stops_removeSubscriptionObserver id st0).
    + left. destruct o.
      * apply (quiet_initializeHandshake_step2 cid st0).
      * apply (quiet_handshake_attempt_failed W cid reason st0).
    + left. destruct o.
      * apply (quiet_connection_established st0).
      * apply (quiet_handshake_attempt_failed W cid reason st0).
Qed.

(** *** Handles are fresh *)

Lemma quiet_cleanups_below_nextId st st' :
  quiet st st' -> cleanups_below_nextId st -> cleanups_below_nextId st'.
Proof.
  intros [_ Hc Hn] H o id Ho. rewrite Hc in Ho. specialize (H o id Ho). lia.
Qed.

Lemma subscribe_cleanups_below_nextId W topics options st :
  cleanups_below_nextId st ->
  cleanups_below_nextId (exec (subscribe W topics options) st).
Proof.
  intros H.
  assert (Hrej : forall o,
             frames quiet (observer_error o no_endpoint_error ;; observer_complete o ;; ret o))
    by (intros; quiet).
  assert (Hfresh : quiet st (exec fresh st)) by apply quiet_fresh.
  unfold subscribe.
  destruct options as [opts|];
    [destruct (opt_string_truthy (appSyncGraphqlEndpoint opts)) eqn:He|].
  - unfold _startSubscriptionWithAWSAppSyncRealTime, set_record. cbn.
    intros o id. cbn.
    destruct (Nat.eq_dec o (nextId (rt st))) as [-> | Hne].
    + intros _. lia.
    + rewrite store_get_set_other by exact Hne. intros Ho.
      specialize (H o id Ho). lia.
  - eapply quiet_cleanups_below_nextId; [|exact H].
    eapply quiet_trans; [exact Hfresh|]. apply Hrej.
  - eapply quiet_cleanups_below_nextId; [|exact H].
    eapply quiet_trans; [exact Hfresh|]. apply Hrej.
Qed.

Lemma quiet_resume W k o st :
  (forall id, k <> KUnsubscribe id) -> quiet st (exec (resume W k o) st).
Proof.
  intros Hk. destruct k as [c | id | cid | cid]; cbn [resume].
  - apply quiet_startSubscription_resume.
  - exfalso. eapply Hk. reflexivity.
  - destruct o; [apply quiet_initializeHandshake_step2
                | apply quiet_handshake_attempt_failed].
  - destruct o; [apply quiet_connection_established
                | apply quiet_handshake_attempt_failed].
Qed.

(** Resuming an unsubscribe registers no cleanup and reuses no handle. *)
Lemma cleanup_resume_handles id o st :
  let st' := exec (cleanup_resume id o) st in
  cleanups (rt st') = cleanups (rt st) /\ nextId (rt st) <= nextId (rt st').
Proof.
  unfold cleanup_resume, get_record, _sendUnsubscriptionMessage, socket_is_open,
    socket_send, _removeSubscriptionObserver, setTimeout.
  destruct o as [|err]; cbn.
  - destruct (map_get id (subscriptionObserverMap (this st))) as [r|]; cbn; [|auto].
    destruct (subscriptionState r); cbn; auto.
    destruct (awsRealTimeSocket (this st)) as [s|]; cbn; auto.
    destruct (store_get s (sockets (rt st))) as [w|]; cbn; auto.
    destruct (readyState w); cbn; auto.
    destruct (socketStatus (this st)); cbn; auto.
  - auto.
Qed.

Lemma step_cleanups_below_nextId W a st st' :
  step W a st = Some st' -> cleanups_below_nextId st -> cleanups_below_nextId st'.
Proof.
  unfold step. intros Hstep H.
  destruct (microtasks (rt st)) as [|[k o] rest] eqn:Hq.
  - destruct a as [topics options | | | | | | | | | | ];
      try (eapply quiet_cleanups_below_nextId; [|exact H];
           apply (quiet_task W _ st st' Hstep); intros; discriminate).
    + cbn [task] in Hstep. injection Hstep as <-.
      now apply subscribe_cleanups_below_nextId.
    + discriminate.
  - destruct a; try discriminate. injection Hstep as <-.
    set (st0 := mkState (this st) (set_microtasks rest (rt st)) (trace st)).
    change (exec (update_rt (set_microtasks rest) ;; resume W k o) st)
      with (exec (resume W k o) st0).
    assert (H0 : cleanups_below_nextId st0) by exact H.
    destruct k as [c | id | cid | cid];
      try (eapply quiet_cleanups_below_nextId; [|exact H0];
           apply quiet_resume; intros; discriminate).
    cbn [resume]. destruct (cleanup_resume_handles id o st0) as [Hc Hn].
    intros o' id' Ho. cbn -[cleanup_resume] in *. rewrite Hc in Ho.
    specialize (H0 o' id' Ho). cbn in H0. lia.
Qed.

Lemma reachable_cleanups_below_nextId W st :
  reachable W st -> cleanups_below_nextId st.
Proof.
  induction 1 as [|a st st' _ IH Hstep].
  - intros o id Ho. discriminate.
  - eapply step_cleanups_below_nextId; eauto.
Qed.


(** *** Records stay linked to the cleanup function of their subscription *)

Section Linked.
Variable C : list (ObserverId * SubscriptionId).

Lemma keeps_ret {A} (a : A) : keeps C (ret a).
Proof using Type. intros st H. exact H. Qed.

Lemma keeps_gets {A} (f : State -> A) : keeps C (gets f).
Proof using Type. intros st H. exact H. Qed.

Lemma keeps_bind {A B} (m : M A) (f : A -> M B) :
  keeps C m -> (forall a, keeps C (f a)) -> keeps C (bind m f).
Proof using Type. intros Hm Hf st H. cbn. apply Hf, Hm, H. Qed.

(** A value read from a linked C state may be used as such. *)
Lemma keeps_gets_bind {A B} (g : State -> A) (k : A -> M B) :
  (forall st0, linked C st0 -> keeps C (k (g st0))) -> keeps C (bind (gets g) k).
Proof using Type. intros Hk st H. cbn. apply (Hk st H st H). Qed.

Lemma keeps_when (b : bool) (m : M unit) : keeps C m -> keeps C (when b m).
Proof using Type. intros Hm. destruct b; [exact Hm | apply keeps_ret]. Qed.

Lemma keeps_forEach {A} (l : list A) (f : A -> M unit) :
  (forall a, keeps C (f a)) -> keeps C (forEach l f).
Proof using Type.
  intros Hf. induction l as [|x l IH]; cbn [forEach].
  - apply keeps_ret.
  - apply keeps_bind; auto.
Qed.

Lemma keeps_forEach_in {A} (l : list A) (f : A -> M unit) :
  (forall a, In a l -> keeps C (f a)) -> keeps C (forEach l f).
Proof using Type.
  induction l as [|x l IH]; intros Hf; cbn [forEach].
  - apply keeps_ret.
  - apply keeps_bind; [apply Hf; now left|].
    intros _. apply IH. intros a Ha. apply Hf. now right.
Qed.

Lemma keeps_emit e : keeps C (emit e).
Proof using Type. intros st []. constructor; auto. Qed.

Lemma keeps_update_this f :
  (forall p id r, map_get id (subscriptionObserverMap (f p)) = Some r ->
                  map_get id (subscriptionObserverMap p) = Some r) ->
  keeps C (update_this f).
Proof using Type. intros Hf st []. constructor; cbn; eauto. Qed.

Lemma keeps_update_rt f :
  (forall r, startCalls (f r) = startCalls r /\ promises (f r) = promises r
             /\ microtasks (f r) = microtasks r) ->
  keeps C (update_rt f).
Proof using Type.
  intros Hf st []. destruct (Hf (rt st)) as (H1 & H2 & H3).
  constructor; cbn; rewrite ?H1, ?H2, ?H3; eauto.
Qed.

Lemma keeps_set_record id r :
  store_get (observer r) C = Some id -> keeps C (set_record id r).
Proof using Type.
  intros Hr st []. constructor; cbn; eauto.
  intros id' r'. destruct (String.eqb_spec id' id) as [-> | Hne].
  - rewrite map_get_set_same. intros [= <-]. exact Hr.
  - rewrite map_get_set_other by exact Hne. eauto.
Qed.

Lemma map_get_delete_some {V} (k k' : string) (v : V) l :
  map_get k (map_delete k' l) = Some v -> map_get k l = Some v.
Proof using Type.
  induction l as [|[k2 v2] l IH]; cbn; [discriminate|].
  destruct (String.eqb k' k2) eqn:E.
  - intros H. specialize (IH H). destruct (String.eqb_spec k k2) as [-> | Hne].
    + apply String.eqb_eq in E. subst k'. unfold map_get, map_delete in H.
      rewrite (kl_get_delete_same _ string_eqb_eq) in H. discriminate.
    + exact IH.
  - cbn. destruct (String.eqb k k2); auto.
Qed.

Lemma keeps_enqueue k o : continuation_registered C k -> keeps C (enqueue k o).
Proof using Type.
  intros Hk st []. constructor; cbn; eauto.
  intros k' o' Hin. apply in_app_or in Hin.
  destruct Hin as [Hin | [[= <- <-] | []]]; eauto.
Qed.

Lemma store_get_app {V} (k : nat) (l l' : list (nat * V)) :
  store_get k (l ++ l') = match store_get k l with
                          | Some v => Some v
                          | None => store_get k l'
                          end.
Proof using Type.
  induction l as [|[k2 v2] l IH]; cbn; [reflexivity|].
  destruct (Nat.eqb k k2); auto.
Qed.

Lemma keeps_new_promise : keeps C new_promise.
Proof using Type.
  intros st []. constructor; cbn; eauto.
  intros p cell k. rewrite store_get_app.
  destruct (store_get p (promises (rt st))) as [c|] eqn:Hp.
  - intros [= <-]. eauto.
  - cbn. destruct (Nat.eqb p (nextId (rt st))); [|discriminate].
    intros [= <-] [].
Qed.

Lemma keeps_await v k : continuation_registered C k -> keeps C (await v k).
Proof using Type.
  intros Hk. unfold await. destruct v as [p|]; [|now apply keeps_enqueue].
  apply keeps_gets_bind. intros st0 L0.
  destruct (store_get p (promises (rt st0))) as [c|] eqn:Hc; [|apply keeps_ret].
  destruct (settled c); [now apply keeps_enqueue|].
  intros st []. constructor; cbn; eauto.
  intros p' cell k'. destruct (Nat.eq_dec p' p) as [-> | Hne].
  - rewrite store_get_set_same. intros [= <-]. cbn. intros Hin.
    apply in_app_or in Hin. destruct Hin as [Hin | [<- | []]]; [|exact Hk].
    destruct L0. eauto.
  - rewrite store_get_set_other by exact Hne. eauto.
Qed.

Lemma keeps_settle p o : keeps C (settle p o).
Proof using Type.
  unfold settle. apply keeps_gets_bind. intros st0 L0.
  destruct (store_get p (promises (rt st0))) as [c|] eqn:Hc; [|apply keeps_ret].
  destruct (settled c); [apply keeps_ret|].
  apply keeps_bind.
  - intros st []. constructor; cbn; eauto.
    intros p' cell k'. destruct (Nat.eq_dec p' p) as [-> | Hne].
    + rewrite store_get_set_same. intros [= <-]. cbn. destruct L0. eauto.
    + rewrite store_get_set_other by exact Hne. eauto.
  - intros _. apply keeps_forEach_in. intros k Hin. apply keeps_enqueue.
    destruct L0. eauto.
Qed.

Create HintDb keeps.

Ltac keeps_rt :=
  let r := fresh "r" in
  intros r;
  repeat match goal with
         | |- context [match ?x with _ => _ end] => destruct x
         end;
  cbn; auto.

Ltac keeps_this :=
  let p := fresh "p" in
  let id := fresh "id" in
  let r := fresh "r" in
  intros p id r; cbn;
  first [ solve [auto] | apply map_get_delete_some | discriminate ].

Ltac keeps_tac :=
  repeat first
    [ apply keeps_emit
    | apply keeps_new_promise
    | apply keeps_settle
    | apply keeps_await; solve [cbn; auto]
    | apply keeps_enqueue; solve [cbn; auto]
    | apply keeps_set_record; solve [cbn; auto]
    | solve [auto with keeps]
    | apply keeps_update_this; solve [keeps_this]
    | apply keeps_update_rt; solve [keeps_rt]
    | apply keeps_ret
    | apply keeps_gets
    | apply keeps_when
    | apply keeps_forEach; intros
    | apply keeps_bind; [|intros]
    | match goal with
      | |- keeps C (match ?x with _ => _ end) => destruct x
      | |- keeps C (let _ := _ in _) => cbv zeta
      end ].

Lemma keeps_fresh : keeps C fresh.
Proof using Type. unfold fresh. keeps_tac. Qed.
Hint Resolve keeps_fresh : keeps.

Lemma keeps_call cb : keeps C (call cb).
Proof using Type. unfold call. keeps_tac. Qed.
Hint Resolve keeps_call : keeps.

Lemma keeps_call_if_function cb : keeps C (call_if_function cb).
Proof using Type. unfold call_if_function. keeps_tac. Qed.
Hint Resolve keeps_call_if_function : keeps.

Lemma keeps_setTimeout task delay : keeps C (setTimeout task delay).
Proof using Type. unfold setTimeout. keeps_tac. Qed.
Hint Resolve keeps_setTimeout : keeps.

Lemma keeps_clearTimeout t : keeps C (clearTimeout t).
Proof using Type. unfold clearTimeout. keeps_tac. Qed.
Hint Resolve keeps_clearTimeout : keeps.

Lemma keeps_clearTimeout_if_set t : keeps C (clearTimeout_if_set t).
Proof using Type. unfold clearTimeout_if_set. keeps_tac. Qed.
Hint Resolve keeps_clearTimeout_if_set : keeps.

Lemma keeps_update_socket s f : keeps C (update_socket s f).
Proof using Type. unfold update_socket. keeps_tac. Qed.
Hint Resolve keeps_update_socket : keeps.

Lemma keeps_new_WebSocket u : keeps C (new_WebSocket u).
Proof using Type. unfold new_WebSocket. keeps_tac. Qed.
Hint Resolve keeps_new_WebSocket : keeps.

Lemma keeps_socket_send s m : keeps C (socket_send s m).
Proof using Type. unfold socket_send. keeps_tac. Qed.
Hint Resolve keeps_socket_send : keeps.

Lemma keeps_socket_close s code : keeps C (socket_close s code).
Proof using Type. unfold socket_close. keeps_tac. Qed.
Hint Resolve keeps_socket_close : keeps.

Lemma keeps_socket_is_open s : keeps C (socket_is_open s).
Proof using Type. unfold socket_is_open. keeps_tac. Qed.
Hint Resolve keeps_socket_is_open : keeps.

Lemma keeps_waitForSubscriptionToBeConnected id :
  keeps C (_waitForSubscriptionToBeConnected id).
Proof using Type.
  unfold _waitForSubscriptionToBeConnected, get_record.
  apply keeps_gets_bind. intros st0 L0.
  destruct (map_get id (subscriptionObserverMap (this st0))) as [so|] eqn:Hso;
    [|keeps_tac].
  pose proof (l_records C st0 L0 id so Hso) as Hreg.
  destruct (subscriptionState so); keeps_tac.
Qed.
Hint Resolve keeps_waitForSubscriptionToBeConnected : keeps.

Lemma keeps_sendUnsubscriptionMessage id : keeps C (_sendUnsubscriptionMessage id).
Proof using Type. unfold _sendUnsubscriptionMessage. keeps_tac. Qed.
Hint Resolve keeps_sendUnsubscriptionMessage : keeps.

Lemma keeps_removeSubscriptionObserver id : keeps C (_removeSubscriptionObserver id).
Proof using Type. unfold _removeSubscriptionObserver. keeps_tac. Qed.
Hint Resolve keeps_removeSubscriptionObserver : keeps.

Lemma keeps_closeSocketIfRequired : keeps C _closeSocketIfRequired.
Proof using Type. unfold _closeSocketIfRequired. keeps_tac. Qed.
Hint Resolve keeps_closeSocketIfRequired : keeps.

Lemma keeps_cleanup_begin id : keeps C (cleanup_begin id).
Proof using Type. unfold cleanup_begin. keeps_tac. Qed.
Hint Resolve keeps_cleanup_begin : keeps.

Lemma keeps_cleanup_resume id o : keeps C (cleanup_resume id o).
Proof using Type. unfold cleanup_resume, get_record. keeps_tac. Qed.
Hint Resolve keeps_cleanup_resume : keeps.

Lemma keeps_close_subscription o : keeps C (close_subscription o).
Proof using Type. unfold close_subscription, observer_closed. keeps_tac. Qed.
Hint Resolve keeps_close_subscription : keeps.

Lemma keeps_observer_error o e : keeps C (observer_error o e).
Proof using Type. unfold observer_error. keeps_tac. Qed.
Hint Resolve keeps_observer_error : keeps.

Lemma keeps_observer_complete o : keeps C (observer_complete o).
Proof using Type. unfold observer_complete. keeps_tac. Qed.
Hint Resolve keeps_observer_complete : keeps.

Lemma keeps_errorDisconnect msg : keeps C (_errorDisconnect msg).
Proof using Type. unfold _errorDisconnect, observer_closed. keeps_tac. Qed.
Hint Resolve keeps_errorDisconnect : keeps.

Lemma keeps_handleIncomingSubscriptionMessage W m :
  keeps C (_handleIncomingSubscriptionMessage W m).
Proof using Type.
  unfold _handleIncomingSubscriptionMessage, get_record, dispatchApiEvent, observer_next.
  cbv zeta. apply keeps_gets_bind. intros st0 L0.
  destruct (map_get (match m_id m with Some i => i | None => EmptyString end)
              (subscriptionObserverMap (this st0))) as [r|] eqn:Hr.
  - pose proof (l_records C st0 L0 _ r Hr) as Hreg. cbn [option_map]. keeps_tac.
  - cbn [option_map]. keeps_tac.
Qed.
Hint Resolve keeps_handleIncomingSubscriptionMessage : keeps.

Lemma keeps_timeoutStartSubscriptionAck id : keeps C (_timeoutStartSubscriptionAck id).
Proof using Type.
  unfold _timeoutStartSubscriptionAck, get_record, observer_closed.
  apply keeps_gets_bind. intros st0 L0.
  destruct (map_get id (subscriptionObserverMap (this st0))) as [so|] eqn:Hso;
    [|keeps_tac].
  pose proof (l_records C st0 L0 id so Hso) as Hreg. keeps_tac.
Qed.
Hint Resolve keeps_timeoutStartSubscriptionAck : keeps.

Lemma keeps_connection_established : keeps C connection_established.
Proof using Type. unfold connection_established. keeps_tac. Qed.
Hint Resolve keeps_connection_established : keeps.

Lemma keeps_connection_failed err : keeps C (connection_failed err).
Proof using Type. unfold connection_failed. keeps_tac. Qed.
Hint Resolve keeps_connection_failed : keeps.

Lemma keeps_set_call cid c : keeps C (set_call cid c).
Proof using Type. unfold set_call. keeps_tac. Qed.
Hint Resolve keeps_set_call : keeps.

Lemma keeps_initializeHandshake cid : keeps C (_initializeHandshake cid).
Proof using Type. unfold _initializeHandshake, get_call. keeps_tac. Qed.
Hint Resolve keeps_initializeHandshake : keeps.

Lemma keeps_initializeHandshake_step2 cid : keeps C (_initializeHandshake_step2 cid).
Proof using Type. unfold _initializeHandshake_step2. keeps_tac. Qed.
Hint Resolve keeps_initializeHandshake_step2 : keeps.

Lemma keeps_handshake_attempt_failed W cid err :
  keeps C (handshake_attempt_failed W cid err).
Proof using Type. unfold handshake_attempt_failed, get_call. keeps_tac. Qed.
Hint Resolve keeps_handshake_attempt_failed : keeps.

Lemma keeps_initializeWebSocketConnection options :
  keeps C (_initializeWebSocketConnection options).
Proof using Type. unfold _initializeWebSocketConnection. keeps_tac. Qed.
Hint Resolve keeps_initializeWebSocketConnection : keeps.

Lemma keeps_initializeWebSocketConnection_headers W a cid :
  keeps C (_initializeWebSocketConnection_headers W a cid).
Proof using Type. unfold _initializeWebSocketConnection_headers, get_call. keeps_tac. Qed.
Hint Resolve keeps_initializeWebSocketConnection_headers : keeps.

Lemma keeps_handshake_onmessage p m : keeps C (handshake_onmessage p m).
Proof using Type. unfold handshake_onmessage. keeps_tac. Qed.
Hint Resolve keeps_handshake_onmessage : keeps.

Lemma keeps_subscribe_catch W o err : keeps C (subscribe_catch W o err).
Proof using Type. unfold subscribe_catch. keeps_tac. Qed.
Hint Resolve keeps_subscribe_catch : keeps.

Lemma keeps_startSubscription_headers W a c :
  call_registered C c -> keeps C (_startSubscription_headers W a c).
Proof using Type. intros Hc. unfold _startSubscription_headers. keeps_tac. Qed.

Lemma keeps_startSubscription_resume W c o :
  call_registered C c -> keeps C (_startSubscription_resume W c o).
Proof using Type.
  intros Hc. unfold _startSubscription_resume, get_record. keeps_tac.
Qed.

Lemma keeps_resume W k o : continuation_registered C k -> keeps C (resume W k o).
Proof using Type.
  intros Hk. destruct k as [c | id | cid | cid]; cbn [resume].
  - now apply keeps_startSubscription_resume.
  - keeps_tac.
  - keeps_tac.
  - keeps_tac.
Qed.

Lemma keeps_run_onopen s h : keeps C (run_onopen s h).
Proof using Type. unfold run_onopen. keeps_tac. Qed.

Lemma keeps_run_onclose W h : keeps C (run_onclose W h).
Proof using Type. unfold run_onclose. keeps_tac. Qed.

Lemma keeps_run_onerror W h : keeps C (run_onerror W h).
Proof using Type. unfold run_onerror. keeps_tac. Qed.

Lemma keeps_run_onmessage W h m : keeps C (run_onmessage W h m).
Proof using Type. unfold run_onmessage. keeps_tac. Qed.

Lemma keeps_run_timer W task : keeps C (run_timer W task).
Proof using Type. unfold run_timer. keeps_tac. Qed.

End Linked.

Lemma linked_quiet {A} (m : M A) st :
  frames quiet m -> keeps (cleanups (rt st)) m -> linked_state st ->
  linked_state (snd (m st)).
Proof.
  intros Hq Hk L. unfold linked_state. rewrite (q_cleanups _ _ (Hq st)).
  apply Hk, L.
Qed.

Lemma store_get_set_fresh {V} (k k' : nat) (v v' : V) l :
  store_get k' l = None -> store_get k l = Some v -> store_get k (store_set k' v' l) = Some v.
Proof.
  intros Hf Hk. rewrite store_get_set_other; [exact Hk|]. congruence.
Qed.

Lemma continuation_registered_fresh C o id k :
  store_get o C = None ->
  continuation_registered C k -> continuation_registered (store_set o id C) k.
Proof.
  intros Hf. destruct k; cbn; auto. unfold call_registered.
  now apply store_get_set_fresh.
Qed.

Lemma subscribe_linked W topics options st :
  cleanups_below_nextId st -> linked_state st ->
  linked_state (exec (subscribe W topics options) st).
Proof.
  intros Hbelow L.
  assert (Hrej : linked_state
                   (exec (o <- fresh ;; observer_error o no_endpoint_error ;;
                          observer_complete o ;; ret o) st)).
  { apply linked_quiet; [quiet | | exact L].
    apply keeps_bind; [apply keeps_fresh|]. intros o.
    apply keeps_bind; [apply keeps_observer_error|]. intros _.
    apply keeps_bind; [apply keeps_observer_complete|]. intros _. apply keeps_ret. }
  unfold subscribe.
  destruct options as [opts|]; [|exact Hrej].
  destruct (opt_string_truthy (appSyncGraphqlEndpoint opts)) eqn:He; [|exact Hrej].
  clear Hrej.
  assert (Hfresh : store_get (nextId (rt st)) (cleanups (rt st)) = None).
  { destruct (store_get (nextId (rt st)) (cleanups (rt st))) as [id|] eqn:E;
      [|reflexivity]. apply Hbelow in E. lia. }
  unfold _startSubscriptionWithAWSAppSyncRealTime, set_record. cbn.
  destruct L as [Lr Lc La Lm].
  set (o := nextId (rt st)) in *. set (id := uuid W (uuidCalls (rt st))).
  constructor; cbn.
  - intros id' r. destruct (String.eqb_spec id' id) as [-> | Hne].
    + rewrite map_get_set_same. intros [= <-]. cbn. apply store_get_set_same.
    + rewrite map_get_set_other by exact Hne. intros Hr.
      apply store_get_set_fresh; eauto.
  - intros id' c. destruct (String.eqb_spec id' id) as [-> | Hne].
    + rewrite map_get_set_same. intros [= <-]. unfold call_registered. cbn.
      apply store_get_set_same.
    + rewrite map_get_set_other by exact Hne. intros Hc.
      apply (continuation_registered_fresh _ o id (KStartSubscription c) Hfresh).
      cbn. eauto.
  - intros p cell k Hp Hin. apply continuation_registered_fresh; eauto.
  - intros k out Hin. apply continuation_registered_fresh; eauto.
Qed.

Lemma task_linked W a st st' :
  task W a st = Some st' ->
  cleanups_below_nextId st -> linked_state st -> linked_state st'.
Proof.
  intros Ht Hbelow L.
  destruct a as [topics options | o | id a | cid a | s | s | s | s m | s n | t | ];
    cbn [task] in Ht.
  - injection Ht as <-. now apply subscribe_linked.
  - injection Ht as <-.
    apply linked_quiet; [apply quiet_close_subscription | apply keeps_close_subscription | exact L].
  - destruct (map_get id (startCalls (rt st))) as [c|] eqn:Hc; [|discriminate].
    injection Ht as <-.
    apply (linked_quiet
             (update_rt (fun r => set_startCalls (map_delete id (startCalls r)) r) ;;
              _startSubscription_headers W a c)); [quiet | | exact L].
    apply keeps_bind.
    + intros st0 []. constructor; cbn; eauto using map_get_delete_some.
    + intros _. apply keeps_startSubscription_headers.
      exact (l_calls _ _ L id c Hc).
  - destruct (store_get cid (connectCalls (rt st))) as [c|]; [|discriminate].
    destruct (cc_url c); [discriminate|]. injection Ht as <-.
    apply linked_quiet;
      [apply quiet_initializeWebSocketConnection_headers
      | apply keeps_initializeWebSocketConnection_headers | exact L].
  - destruct (store_get s (sockets (rt st))) as [w|]; [|discriminate].
    destruct (readyState w); try discriminate. injection Ht as <-.
    apply (linked_quiet (update_socket s (set_readyState WS_OPEN) ;;
                         run_onopen s (onopen w)));
      [pose proof quiet_run_onopen; quiet | | exact L].
    apply keeps_bind; [apply keeps_update_socket | intros; apply keeps_run_onopen].
  - destruct (store_get s (sockets (rt st))) as [w|]; [|discriminate].
    assert (H : linked_state
                  (snd ((update_socket s (set_readyState WS_CLOSED) ;;
                         run_onclose W (onclose w)) st))).
    { apply linked_quiet; [pose proof quiet_run_onclose; quiet | | exact L].
      apply keeps_bind; [apply keeps_update_socket | intros; apply keeps_run_onclose]. }
    destruct (readyState w); try discriminate; injection Ht as <-; exact H.
  - destruct (store_get s (sockets (rt st))) as [w|]; [|discriminate].
    injection Ht as <-.
    apply linked_quiet; [apply quiet_run_onerror | apply keeps_run_onerror | exact L].
  - destruct (store_get s (sockets (rt st))) as [w|]; [|discriminate].
    destruct (readyState w); try discriminate; injection Ht as <-;
      (apply linked_quiet;
       [apply quiet_run_onmessage | apply keeps_run_onmessage | exact L]).
  - destruct (store_get s (sockets (rt st))) as [w|]; [|discriminate].
    injection Ht as <-.
    apply (linked_quiet (update_socket s (set_bufferedAmount n)));
      [apply quiet_update_socket | apply keeps_update_socket | exact L].
  - destruct (store_get t (timers (rt st))) as [tk|]; [|discriminate].
    injection Ht as <-.
    apply (linked_quiet
             (update_rt (fun r => set_timers (store_delete t (timers r)) r) ;;
              run_timer W tk)); [pose proof quiet_run_timer; quiet | | exact L].
    apply keeps_bind; [|intros; apply keeps_run_timer].
    apply keeps_update_rt. intros r. cbn. auto.
  - discriminate.
Qed.

Lemma step_linked W a st st' :
  step W a st = Some st' ->
  cleanups_below_nextId st -> linked_state st -> linked_state st'.
Proof.
  unfold step. intros Hstep Hbelow L.
  destruct (microtasks (rt st)) as [|[k o] rest] eqn:Hq.
  - destruct a; try discriminate; eapply task_linked; eauto.
  - destruct a; try discriminate. injection Hstep as <-.
    set (st0 := mkState (this st) (set_microtasks rest (rt st)) (trace st)).
    change (exec (update_rt (set_microtasks rest) ;; resume W k o) st)
      with (snd (resume W k o st0)).
    assert (L0 : linked_state st0).
    { destruct L. constructor; cbn; eauto.
      intros k' o' Hin. apply (l_microtasks0 k' o'). rewrite Hq. now right. }
    assert (Hk : continuation_registered (cleanups (rt st0)) k).
    { apply (l_microtasks _ _ L k o). rewrite Hq. now left. }
    unfold linked_state.
    assert (Hc : cleanups (rt (snd (resume W k o st0))) = cleanups (rt st0)).
    { destruct k as [c | id | cid | cid].
      - apply (quiet_startSubscription_resume W c o st0).
      - apply (cleanup_resume_handles id o st0).
      - apply (quiet_resume W (KHandshakeOpen cid) o st0). intros; discriminate.
      - apply (quiet_resume W (KHandshakeAck cid) o st0). intros; discriminate. }
    rewrite Hc. apply keeps_resume; [exact Hk | exact L0].
Qed.

Lemma reachable_linked W st : reachable W st -> linked_state st.
Proof.
  induction 1 as [|a st st' Hr IH Hstep].
  - constructor; cbn; intros; try discriminate; contradiction.
  - eapply step_linked; eauto using reachable_cleanups_below_nextId.
Qed.

(** In a reachable state the observer of a record has the cleanup function
    of the subscription the record is registered under. *)
Lemma reachable_record_cleanup W st id r :
  reachable W st ->
  map_get id (subscriptionObserverMap (this st)) = Some r ->
  store_get (observer r) (cleanups (rt st)) = Some id.
Proof. intros Hr. apply (l_records _ _ (reachable_linked W st Hr)). Qed.

Lemma reachable_run W actions st st' :
  reachable W st -> run W actions st = Some st' -> reachable W st'.
Proof.
  revert st. induction actions as [|a actions IH]; cbn; intros st Hr Hrun.
  - now injection Hrun as <-.
  - destruct (step W a st) as [st1|] eqn:Hs; [|discriminate].
    eapply IH; [|exact Hrun]. eapply reachable_step; eauto.
Qed.

(** * The waiters of the connection stay pending *)

Section KeyedListIn.
Context {K V : Type} (eqb : K -> K -> bool).
Hypothesis eqb_eq : forall a b, eqb a b = true <-> a = b.

Lemma kl_get_In (k : K) (v : V) l : kl_get eqb k l = Some v -> In (k, v) l.
Proof using eqb_eq.
  induction l as [|[k' v'] l IH]; cbn; [discriminate|].
  destruct (eqb k k') eqn:E.
  - intros [= <-]. apply eqb_eq in E. subst. now left.
  - intros H. right. auto.
Qed.

Lemma kl_set_In (k k' : K) (v v' : V) l :
  In (k', v') (kl_set eqb k v l) -> (k', v') = (k, v) \/ In (k', v') l.
Proof using Type.
  induction l as [|[k2 v2] l IH]; cbn.
  - intros [H | []]. left. now symmetry.
  - destruct (eqb k k2); cbn.
    + intros [H | H]; [left; now symmetry | right; now right].
    + intros [H | H]; [right; now left|].
      destruct (IH H) as [H1 | H1]; [now left | right; now right].
Qed.

Lemma kl_delete_In (k k' : K) (v' : V) l :
  In (k', v') (kl_delete eqb k l) -> In (k', v') l.
Proof using Type.
  induction l as [|[k2 v2] l IH]; cbn; [auto|].
  destruct (eqb k k2); cbn.
  - intros H. right. auto.
  - intros [H | H]; [now left | right; auto].
Qed.

Lemma kl_get_set_some (k k' : K) (v v' : V) l :
  kl_get eqb k' (kl_set eqb k v l) = Some v' ->
  k' = k \/ kl_get eqb k' l = Some v'.
Proof using eqb_eq.
  induction l as [|[k2 v2] l IH]; cbn.
  - destruct (eqb k' k) eqn:E; [|discriminate].
    apply eqb_eq in E. now left.
  - destruct (eqb k k2) eqn:E; cbn.
    + apply eqb_eq in E. subst k2.
      destruct (eqb k' k) eqn:E'; [apply eqb_eq in E'; now left | now right].
    + destruct (eqb k' k2); [now right | exact IH].
Qed.
End KeyedListIn.

Lemma map_get_In {V} (k : string) (v : V) l : map_get k l = Some v -> In (k, v) l.
Proof. apply (kl_get_In _ string_eqb_eq). Qed.

Lemma store_get_In {V} (k : nat) (v : V) l : store_get k l = Some v -> In (k, v) l.
Proof. apply (kl_get_In _ nat_eqb_eq). Qed.

Lemma map_set_In {V} (k k' : string) (v v' : V) l :
  In (k', v') (map_set k v l) -> (k', v') = (k, v) \/ In (k', v') l.
Proof. apply kl_set_In. Qed.

Lemma store_set_In {V} (k k' : nat) (v v' : V) l :
  In (k', v') (store_set k v l) -> (k', v') = (k, v) \/ In (k', v') l.
Proof. apply kl_set_In. Qed.

Lemma map_delete_incl {V} (k : string) (l : list (string * V)) :
  incl (map_delete k l) l.
Proof. intros [k' v']. apply kl_delete_In. Qed.

Lemma store_delete_incl {V} (k : nat) (l : list (nat * V)) :
  incl (store_delete k l) l.
Proof. intros [k' v']. apply kl_delete_In. Qed.

Lemma store_get_set_some {V} (k k' : nat) (v v' : V) l :
  store_get k' (store_set k v l) = Some v' -> k' = k \/ store_get k' l = Some v'.
Proof. apply (kl_get_set_some _ nat_eqb_eq). Qed.

(** ** The rules of [spares] *)

Lemma spares_ret O {A} (a : A) : spares O (ret a).
Proof. intros st Hw HO. cbn. auto. Qed.

Lemma spares_gets O {A} (f : State -> A) : spares O (gets f).
Proof. intros st Hw HO. cbn. auto. Qed.

Lemma spares_bind O {A B} (m : M A) (f : A -> M B) :
  spares O m -> (forall a, spares O (f a)) -> spares O (bind m f).
Proof.
  intros Hm Hf st Hw HO. cbn.
  destruct (Hm st Hw HO) as [Hw1 H1].
  destruct (Hf (fst (m st)) (snd (m st)) Hw1) as [Hw2 H2]; auto.
Qed.

(** What a callback read from the state settles is no waiter. *)
Lemma spares_gets_bind O {A B} (g : State -> A) (k : A -> M B) :
  (forall st0, waiters_pending st0 ->
               spares (fun q => O q \/ held q st0) (k (g st0))) ->
  spares O (bind (gets g) k).
Proof.
  intros Hk st Hw HO. cbn. apply (Hk st Hw st Hw).
  intros q [Hq | Hq]; [now apply HO | now apply (w_held st Hw)].
Qed.

Lemma spares_weaken (O O' : PromiseId -> Prop) {A} (m : M A) :
  (forall q, O' q -> O q) -> spares O' m -> spares O m.
Proof. intros HOO Hm st Hw HO. apply Hm; auto. Qed.

Lemma spares_when O (b : bool) (m : M unit) : spares O m -> spares O (when b m).
Proof. intros Hm. destruct b; [exact Hm | apply spares_ret]. Qed.

Lemma spares_forEach O {A} (l : list A) (f : A -> M unit) :
  (forall a, spares O (f a)) -> spares O (forEach l f).
Proof.
  intros Hf. induction l as [|x l IH]; cbn [forEach].
  - apply spares_ret.
  - apply spares_bind; auto.
Qed.

Lemma spares_emit O e : spares O (emit e).
Proof.
  intros st Hw HO. cbn. split; [|auto].
  destruct Hw as [Hp Hk Hh]. constructor; cbn; auto.
Qed.

Lemma spares_update_this O f :
  (forall p, promiseArray (f p) = promiseArray p
             /\ incl (subscriptionObserverMap (f p)) (subscriptionObserverMap p)) ->
  spares O (update_this f).
Proof.
  intros Hf st Hw HO. destruct (Hf (this st)) as [Ha Hm].
  destruct Hw as [Hp Hk Hh].
  split.
  - constructor; cbn; try rewrite Ha; auto.
    intros q Hq. unfold outside. cbn. rewrite Ha. apply Hh.
    destruct Hq as [(id & r & Hin & Hr) | Hq]; [|right; exact Hq].
    left. exists id, r. split; [apply Hm, Hin | exact Hr].
  - intros q. unfold outside. cbn. now rewrite Ha.
Qed.

Lemma spares_update_rt O f :
  (forall r, nextId r <= nextId (f r) /\ promises (f r) = promises r
             /\ incl (sockets (f r)) (sockets r)
             /\ incl (timers (f r)) (timers r)) ->
  spares O (update_rt f).
Proof.
  intros Hf st Hw HO. destruct (Hf (rt st)) as (Hn & Hp' & Hs & Ht).
  destruct Hw as [Hp Hk Hh].
  split.
  - constructor; cbn; try rewrite Hp'; auto.
    + intros p c Hc. apply Hk in Hc. lia.
    + intros q Hq.
      assert (Hq' : held q st).
      { destruct Hq as [Hq | [(s & w & Hin & Hw) | (t & Hin)]].
        - left. exact Hq.
        - right. left. exists s, w. split; [apply Hs, Hin | exact Hw].
        - right. right. exists t. apply Ht, Hin. }
      destruct (Hh q Hq') as [H1 H2]. split; cbn; [lia | exact H2].
  - intros q [H1 H2]. split; cbn; [lia | exact H2].
Qed.

Lemma spares_fresh O : spares O fresh.
Proof.
  unfold fresh. intros st Hw HO. cbn.
  destruct Hw as [Hp Hk Hh]. split.
  - constructor; cbn; auto.
    + intros p c Hc. apply Hk in Hc. lia.
    + intros q Hq. destruct (Hh q Hq) as [H1 H2]. split; cbn; [lia | exact H2].
  - intros q [H1 H2]. split; cbn; [lia | exact H2].
Qed.

Lemma spares_set_record O id r :
  (forall q, record_holds r q -> O q) -> spares O (set_record id r).
Proof.
  intros Hr st Hw HO. unfold set_record. cbn.
  destruct Hw as [Hp Hk Hh]. split; [|auto].
  constructor; cbn; auto.
  intros q [(id' & r' & Hin & Hq) | Hq].
  - apply map_set_In in Hin. destruct Hin as [[= -> ->] | Hin].
    + apply (HO q), Hr, Hq.
    + apply Hh. left. exists id', r'. auto.
  - apply Hh. right. exact Hq.
Qed.

Lemma spares_update_socket O s f :
  (forall w q, socket_holds (f w) q -> socket_holds w q \/ O q) ->
  spares O (update_socket s f).
Proof.
  intros Hf st Hw HO. unfold update_socket. cbn.
  destruct (store_get s (sockets (rt st))) as [w|] eqn:Hs; [|destruct st; auto].
  destruct Hw as [Hp Hk Hh]. split; [|auto].
  constructor; cbn; auto.
  intros q [Hq | [(s' & w' & Hin & Hq) | Hq]].
  - apply Hh. left. exact Hq.
  - apply store_set_In in Hin. destruct Hin as [[= -> ->] | Hin].
    + destruct (Hf w q Hq) as [H | H]; [|now apply HO].
      apply Hh. right. left. exists s, w. split; [now apply store_get_In | exact H].
    + apply Hh. right. left. exists s', w'. auto.
  - apply Hh. right. right. exact Hq.
Qed.

Lemma spares_new_WebSocket O u : spares O (new_WebSocket u).
Proof.
  unfold new_WebSocket.
  apply spares_bind; [apply spares_fresh | intros s].
  apply spares_bind; [|intros _; apply spares_bind;
                       [apply spares_emit | intros _; apply spares_ret]].
  intros st Hw HO. cbn. destruct Hw as [Hp Hk Hh]. split; [|auto].
  constructor; cbn; auto.
  intros q [Hq | [(s' & w' & Hin & Hq) | Hq]].
  - apply Hh. left. exact Hq.
  - apply in_app_or in Hin. destruct Hin as [Hin | [[= <- <-] | []]].
    + apply Hh. right. left. exists s', w'. auto.
    + destruct Hq as [Hq | [Hq | [Hq | Hq]]]; discriminate.
  - apply Hh. right. right. exact Hq.
Qed.

Lemma spares_setTimeout O task delay :
  (forall q, task = InitAckTimeout q -> O q) -> spares O (setTimeout task delay).
Proof.
  intros Ht. unfold setTimeout.
  apply spares_bind; [apply spares_fresh | intros t].
  apply spares_bind; [|intros _; apply spares_bind;
                       [apply spares_emit | intros _; apply spares_ret]].
  intros st Hw HO. cbn. destruct Hw as [Hp Hk Hh]. split; [|auto].
  constructor; cbn; auto.
  intros q [Hq | [Hq | (t' & Hin)]].
  - apply Hh. left. exact Hq.
  - apply Hh. right. left. exact Hq.
  - apply in_app_or in Hin. destruct Hin as [Hin | [[= <- Heq] | []]].
    + apply Hh. right. right. exists t'. exact Hin.
    + apply HO, Ht, Heq.
Qed.

Lemma spares_enqueue O k o : spares O (enqueue k o).
Proof.
  unfold enqueue. apply spares_update_rt. intros r. cbn.
  repeat split; auto using incl_refl.
Qed.

(** A new promise is no waiter. *)
Lemma spares_new_promise_bind O {B} (k : PromiseId -> M B) :
  (forall p, spares (fun q => O q \/ q = p) (k p)) ->
  spares O (bind new_promise k).
Proof.
  intros Hk st Hw HO. cbn.
  set (p := nextId (rt st)).
  set (st1 := mkState (this st)
                (set_promises (promises (set_nextId (S p) (rt st))
                               ++ [(p, mkPromiseCell None [])])
                   (set_nextId (S p) (rt st)))
                (trace st)).
  assert (Hmono : forall q, outside q st -> outside q st1).
  { intros q [H1 H2]. split; cbn; [lia | exact H2]. }
  assert (Hw1 : waiters_pending st1).
  { destruct Hw as [Hp Hkeys Hh]. constructor; cbn.
    - intros p' Hin. destruct (Hp p' Hin) as (c & Hc & Hs).
      exists c. split; [|exact Hs]. rewrite store_get_app, Hc. reflexivity.
    - intros p' c. rewrite store_get_app.
      destruct (store_get p' (promises (rt st))) as [c'|] eqn:Hc.
      + intros _. apply Hkeys in Hc. lia.
      + cbn. destruct (Nat.eqb_spec p' p) as [-> | _]; [lia | discriminate].
    - intros q Hq. apply Hmono, Hh. exact Hq. }
  destruct (Hk p st1 Hw1) as [Hw2 H2].
  - intros q [Hq | ->]; [apply Hmono, HO, Hq|].
    split; cbn; [lia|].
    intros Hin. destruct (w_pending st Hw p Hin) as (c & Hc & _).
    apply (w_keys st Hw) in Hc. unfold p in Hc. lia.
  - split; [exact Hw2 | auto].
Qed.

Lemma spares_new_promise O : spares O new_promise.
Proof.
  intros st Hw HO.
  destruct (spares_new_promise_bind O (fun p => ret p)
              (fun p => spares_ret _ p) st Hw HO) as [H1 H2].
  split; [exact H1 | exact H2].
Qed.

Lemma spares_await O v k : spares O (await v k).
Proof.
  unfold await. destruct v as [p|]; [|apply spares_enqueue].
  intros st Hw HO. cbn.
  destruct (store_get p (promises (rt st))) as [c|] eqn:Hc; [|auto].
  destruct (settled c) eqn:Hs; [exact (spares_enqueue O k o st Hw HO)|].
  cbn. destruct Hw as [Hp Hkeys Hh]. split; [|auto].
  constructor; cbn; auto.
  - intros p' Hin. destruct (Nat.eq_dec p' p) as [-> | Hne].
    + rewrite store_get_set_same. eauto.
    + rewrite store_get_set_other by exact Hne. auto.
  - intros p' c' Hc'. apply store_get_set_some in Hc'.
    destruct Hc' as [-> | Hc']; eauto.
Qed.

(** Settling a promise that is no waiter. *)
Lemma spares_settle O p o : O p -> spares O (settle p o).
Proof.
  intros HOp. unfold settle. intros st Hw HO. cbn.
  destruct (store_get p (promises (rt st))) as [c|] eqn:Hc; [|auto].
  destruct (settled c) eqn:Hs; [auto|].
  set (st1 := mkState (this st)
                (set_promises
                   (store_set p (mkPromiseCell (Some o) (awaiters c)) (promises (rt st)))
                   (rt st))
                (trace st)).
  assert (Hw1 : waiters_pending st1).
  { destruct Hw as [Hp Hkeys Hh]. constructor; cbn; auto.
    - intros p' Hin. destruct (Nat.eq_dec p' p) as [-> | Hne].
      + destruct (HO p HOp) as [_ Hout]. contradiction.
      + rewrite store_get_set_other by exact Hne. auto.
    - intros p' c' Hc'. apply store_get_set_some in Hc'.
      destruct Hc' as [-> | Hc']; eauto. }
  destruct (spares_forEach O (awaiters c) (fun k => enqueue k o)
              (fun k => spares_enqueue O k o) st1 Hw1) as [H1 H2].
  - intros q Hq. apply (HO q Hq).
  - split; [exact H1|]. intros q Hq. apply H2. exact Hq.
Qed.

(** ** The handlers *)

Create HintDb spares.

Ltac spares_rt :=
  let r := fresh "r" in
  intros r;
  repeat match goal with
         | |- context [match ?x with _ => _ end] => destruct x
         end;
  cbn; repeat split; auto using incl_refl, store_delete_incl.

Ltac spares_this :=
  let p := fresh "p" in
  intros p; cbn; split;
  [ reflexivity
  | first [ apply incl_refl | apply map_delete_incl | apply incl_nil_l ] ].

(** The handlers a socket is given name no promise, or one of [O]. *)
Ltac spares_socket :=
  let w := fresh "w" in
  let q := fresh "q" in
  let H := fresh "H" in
  intros w q H; unfold socket_holds in *;
  repeat match goal with
         | H : context [match ?x with _ => _ end] |- _ => destruct x
         end;
  cbn in *;
  destruct H as [H | [H | [H | H]]];
  first [ solve [auto 6] | discriminate | injection H as <-; right; solve [cbn; auto] ].

Ltac spares_record :=
  let q := fresh "q" in
  let H := fresh "H" in
  intros q H; unfold record_holds, callback_promise in H; cbn in H;
  destruct H as [[H | H] | [H | H]];
  first [ discriminate | injection H as <-; solve [cbn; auto] ].

Ltac spares_timer :=
  let q := fresh "q" in
  let H := fresh "H" in
  intros q H; first [ discriminate | injection H as <-; solve [cbn; auto] ].

Ltac spares_tac :=
  repeat first
    [ apply spares_emit
    | apply spares_fresh
    | apply spares_enqueue
    | apply spares_await
    | apply spares_new_WebSocket
    | solve [auto with spares]
    | apply spares_settle; solve [cbn; auto]
    | apply spares_set_record; solve [spares_record]
    | apply spares_setTimeout; solve [spares_timer]
    | apply spares_update_socket; solve [spares_socket]
    | apply spares_update_this; solve [spares_this]
    | apply spares_update_rt; solve [spares_rt]
    | apply spares_ret
    | apply spares_gets
    | apply spares_when
    | apply spares_forEach; intros
    | apply spares_new_promise_bind; intros
    | apply spares_bind; [|intros]
    | match goal with
      | |- spares _ (match ?x with _ => _ end) => destruct x
      | |- spares _ (let _ := _ in _) => cbv zeta
      end ].

Lemma spares_call O cb :
  (forall q, callback_promise (Some cb) q -> O q) -> spares O (call cb).
Proof.
  intros H. unfold call.
  destruct cb as [p | p]; apply spares_settle, H; [left | right]; reflexivity.
Qed.

Lemma spares_call_if_function O cb :
  (forall q, callback_promise cb q -> O q) -> spares O (call_if_function cb).
Proof.
  intros H. unfold call_if_function.
  destruct cb as [f|]; [now apply spares_call | apply spares_ret].
Qed.

Lemma spares_clearTimeout O t : spares O (clearTimeout t).
Proof. unfold clearTimeout. spares_tac. Qed.
#[local] Hint Resolve spares_clearTimeout : spares.

Lemma spares_clearTimeout_if_set O t : spares O (clearTimeout_if_set t).
Proof. unfold clearTimeout_if_set. spares_tac. Qed.
#[local] Hint Resolve spares_clearTimeout_if_set : spares.

Lemma spares_socket_send O s m : spares O (socket_send s m).
Proof. unfold socket_send. spares_tac. Qed.
#[local] Hint Resolve spares_socket_send : spares.

Lemma spares_socket_close O s code : spares O (socket_close s code).
Proof. unfold socket_close. spares_tac. Qed.
#[local] Hint Resolve spares_socket_close : spares.

Lemma spares_socket_is_open O s : spares O (socket_is_open s).
Proof. unfold socket_is_open. spares_tac. Qed.
#[local] Hint Resolve spares_socket_is_open : spares.

Lemma spares_get_record O id : spares O (get_record id).
Proof. unfold get_record. spares_tac. Qed.
#[local] Hint Resolve spares_get_record : spares.

Lemma spares_waitForSubscriptionToBeConnected O id :
  spares O (_waitForSubscriptionToBeConnected id).
Proof. unfold _waitForSubscriptionToBeConnected. spares_tac. Qed.
#[local] Hint Resolve spares_waitForSubscriptionToBeConnected : spares.

Lemma spares_sendUnsubscriptionMessage O id : spares O (_sendUnsubscriptionMessage id).
Proof. unfold _sendUnsubscriptionMessage. spares_tac. Qed.
#[local] Hint Resolve spares_sendUnsubscriptionMessage : spares.

Lemma spares_removeSubscriptionObserver O id : spares O (_removeSubscriptionObserver id).
Proof. unfold _removeSubscriptionObserver. spares_tac. Qed.
#[local] Hint Resolve spares_removeSubscriptionObserver : spares.

Lemma spares_closeSocketIfRequired O : spares O _closeSocketIfRequired.
Proof. unfold _closeSocketIfRequired. spares_tac. Qed.
#[local] Hint Resolve spares_closeSocketIfRequired : spares.

Lemma spares_cleanup_begin O id : spares O (cleanup_begin id).
Proof. unfold cleanup_begin. spares_tac. Qed.
#[local] Hint Resolve spares_cleanup_begin : spares.

Lemma spares_cleanup_resume O id o : spares O (cleanup_resume id o).
Proof. unfold cleanup_resume. spares_tac. Qed.
#[local] Hint Resolve spares_cleanup_resume : spares.

Lemma spares_close_subscription O o : spares O (close_subscription o).
Proof. unfold close_subscription, observer_closed. spares_tac. Qed.
#[local] Hint Resolve spares_close_subscription : spares.

Lemma spares_observer_next O o v : spares O (observer_next o v).
Proof. unfold observer_next. spares_tac. Qed.
#[local] Hint Resolve spares_observer_next : spares.

Lemma spares_observer_error O o e : spares O (observer_error o e).
Proof. unfold observer_error. spares_tac. Qed.
#[local] Hint Resolve spares_observer_error : spares.

Lemma spares_observer_complete O o : spares O (observer_complete o).
Proof. unfold observer_complete. spares_tac. Qed.
#[local] Hint Resolve spares_observer_complete : spares.

Lemma spares_errorDisconnect O msg : spares O (_errorDisconnect msg).
Proof. unfold _errorDisconnect, observer_closed. spares_tac. Qed.
#[local] Hint Resolve spares_errorDisconnect : spares.

(** The callbacks of a record read from the state are held by it. *)
Lemma record_callbacks_held O st0 id (r : option ObserverQuery)
      (f : ObserverQuery -> option Callback) q :
  map_get id (subscriptionObserverMap (this st0)) = r ->
  (forall r0 q, callback_promise (f r0) q -> record_holds r0 q) ->
  callback_promise (match r with Some r => f r | None => None end) q ->
  O q \/ held q st0.
Proof.
  intros Hr Hf Hq. destruct r as [r0|].
  - right. left. exists id, r0. split; [now apply map_get_In | now apply Hf].
  - destruct Hq; discriminate.
Qed.

Lemma ready_callback_held r q :
  callback_promise (subscriptionReadyCallback r) q -> record_holds r q.
Proof. intros H. now left. Qed.

Lemma failed_callback_held r q :
  callback_promise (subscriptionFailedCallback r) q -> record_holds r q.
Proof. intros H. now right. Qed.

Lemma spares_handleIncomingSubscriptionMessage O W m :
  spares O (_handleIncomingSubscriptionMessage W m).
Proof.
  unfold _handleIncomingSubscriptionMessage, get_record, dispatchApiEvent.
  cbv zeta. apply spares_gets_bind. intros st0 Hw0.
  set (id := match m_id m with Some i => i | None => EmptyString end).
  destruct (map_get id (subscriptionObserverMap (this st0))) as [r|] eqn:Hr;
    cbn [option_map].
  - assert (Hready : forall q, callback_promise (subscriptionReadyCallback r) q ->
                               O q \/ held q st0).
    { intros q Hq.
      apply (record_callbacks_held O st0 id (Some r) subscriptionReadyCallback q Hr
               ready_callback_held Hq). }
    assert (Hfailed : forall q, callback_promise (subscriptionFailedCallback r) q ->
                                O q \/ held q st0).
    { intros q Hq.
      apply (record_callbacks_held O st0 id (Some r) subscriptionFailedCallback q Hr
               failed_callback_held Hq). }
    assert (Hrec : forall r',
               subscriptionReadyCallback r' = subscriptionReadyCallback r ->
               subscriptionFailedCallback r' = subscriptionFailedCallback r ->
               spares (fun q => O q \/ held q st0) (set_record id r')).
    { intros r' H1 H2. apply spares_set_record.
      intros q [Hq | Hq]; [rewrite H1 in Hq | rewrite H2 in Hq]; auto. }
    repeat first
      [ apply spares_call_if_function; assumption
      | apply Hrec; reflexivity
      | progress spares_tac ].
  - spares_tac.
    all: try (apply spares_call_if_function; intros q [Hq | Hq]; discriminate).
Qed.
#[local] Hint Resolve spares_handleIncomingSubscriptionMessage : spares.

Lemma spares_timeoutStartSubscriptionAck O id : spares O (_timeoutStartSubscriptionAck id).
Proof. unfold _timeoutStartSubscriptionAck, observer_closed. spares_tac. Qed.
#[local] Hint Resolve spares_timeoutStartSubscriptionAck : spares.

(** *** Settling the waiters *)

Lemma settling_refl st : settling st st.
Proof. constructor; eauto. Qed.

Lemma settling_trans a b c : settling a b -> settling b c -> settling a c.
Proof.
  intros [] []. constructor; try congruence.
  intros p cell H. apply sg_keys1 in H. destruct H as (c' & H). eauto.
Qed.

Lemma settling_settle p o : frames settling (settle p o).
Proof.
  unfold settle. intros st. cbn.
  destruct (store_get p (promises (rt st))) as [c|] eqn:Hc; [|apply settling_refl].
  destruct (settled c); [apply settling_refl|].
  apply (settling_trans _
           (mkState (this st)
              (set_promises
                 (store_set p (mkPromiseCell (Some o) (awaiters c)) (promises (rt st)))
                 (rt st))
              (trace st))).
  - constructor; cbn; auto.
    intros p' c' H. apply store_get_set_some in H. destruct H as [-> | H]; eauto.
  - apply (frames_forEach settling settling_refl settling_trans).
    intros k st1. constructor; cbn; eauto.
Qed.

Lemma settling_waiters l o : frames settling (forEach l (fun p => settle p o)).
Proof.
  apply (frames_forEach settling settling_refl settling_trans).
  intros p. apply settling_settle.
Qed.

(** Once the waiters are settled and the set is emptied, the invariant
    holds again. *)
Lemma waiters_cleared st st1 f :
  waiters_pending st -> settling st st1 ->
  (forall t, promiseArray (f t) = []
             /\ subscriptionObserverMap (f t) = subscriptionObserverMap t) ->
  let st' := mkState (f (this st1)) (rt st1) (trace st1) in
  waiters_pending st' /\ forall q, outside q st -> outside q st'.
Proof.
  intros Hw [Hm Hs Ht Hn Hk] Hf. destruct (Hf (this st1)) as [Hf1 Hf2].
  destruct Hw as [Hp Hkeys Hh]. cbn. split.
  - constructor; cbn.
    + rewrite Hf1. intros p [].
    + intros p c Hc. apply Hk in Hc. destruct Hc as (c' & Hc).
      rewrite Hn. eauto.
    + intros q Hq.
      assert (Hq' : held q st).
      { destruct Hq as [(id & r & Hin & Hr) | [(s & w & Hin & Hr) | (t & Hin)]];
          cbn in Hin.
        - left. exists id, r. rewrite Hf2, Hm in Hin. auto.
        - right. left. exists s, w. rewrite Hs in Hin. auto.
        - right. right. exists t. rewrite Ht in Hin. auto. }
      destruct (Hh q Hq') as [H1 _]. split; cbn; [lia | rewrite Hf1; auto].
  - intros q [H1 _]. split; cbn; [lia | rewrite Hf1; auto].
Qed.

Lemma spares_connection_established O : spares O connection_established.
Proof.
  intros st Hw HO. unfold connection_established. cbn.
  apply (waiters_cleared st
           (snd (forEach (promiseArray (this st)) (fun p => settle p Fulfilled) st))
           (fun t => set_promiseArray [] (set_socketStatus READY t)) Hw).
  - apply settling_waiters.
  - intros t. split; reflexivity.
Qed.
#[local] Hint Resolve spares_connection_established : spares.

Lemma spares_connection_failed O err : spares O (connection_failed err).
Proof.
  intros st Hw HO. unfold connection_failed.
  destruct (waiters_cleared st
              (snd (forEach (promiseArray (this st))
                      (fun p => settle p (Rejected err)) st))
              (set_promiseArray []) Hw
              (settling_waiters _ _ st)
              (fun t => conj eq_refl eq_refl)) as [Hw1 Hmono].
  match type of Hw1 with
  | waiters_pending ?s => set (st1 := s) in *
  end.
  assert (Hrest : spares O
            (sock <- gets (fun st => awsRealTimeSocket (this st)) ;;
             match sock with
             | Some s =>
                 is_open <- socket_is_open s ;;
                 when is_open (socket_close s (Some 3001%Z))
             | None => ret tt
             end ;;
             update_this (set_awsRealTimeSocket None) ;;
             update_this (set_socketStatus CLOSED))) by spares_tac.
  destruct (Hrest st1 Hw1) as [Hw2 Hmono2]; [auto|].
  split; [exact Hw2 | auto].
Qed.
#[local] Hint Resolve spares_connection_failed : spares.

(** A new waiter is a new, pending promise. *)
Lemma spares_push_waiter O {B} (k : PromiseId -> M B) :
  (forall p, spares O (k p)) ->
  spares O (p <- new_promise ;;
            update_this (fun t => set_promiseArray (promiseArray t ++ [p]) t) ;;
            k p).
Proof.
  intros Hk st Hw HO.
  set (p := nextId (rt st)).
  set (st2 := mkState (set_promiseArray (promiseArray (this st) ++ [p]) (this st))
                (set_promises (promises (rt st) ++ [(p, mkPromiseCell None [])])
                   (set_nextId (S p) (rt st)))
                (trace st)).
  assert (Hfresh : store_get p (promises (rt st)) = None).
  { destruct (store_get p (promises (rt st))) as [c|] eqn:Hc; [|reflexivity].
    apply (w_keys st Hw) in Hc. unfold p in Hc. lia. }
  assert (Hmono : forall q, outside q st -> outside q st2).
  { intros q [H1 H2]. split; cbn; [lia|].
    intros Hin. apply in_app_or in Hin. destruct Hin as [Hin | [<- | []]]; [auto|].
    unfold p in H1. lia. }
  assert (Hw2 : waiters_pending st2).
  { destruct Hw as [Hp Hkeys Hh]. constructor; cbn.
    - intros p' Hin. rewrite store_get_app.
      apply in_app_or in Hin. destruct Hin as [Hin | [<- | []]].
      + destruct (Hp p' Hin) as (c & Hc & Hs). rewrite Hc. eauto.
      + rewrite Hfresh. cbn. rewrite Nat.eqb_refl. eauto.
    - intros p' c. rewrite store_get_app.
      destruct (store_get p' (promises (rt st))) as [c'|] eqn:Hc.
      + intros _. apply Hkeys in Hc. lia.
      + cbn. destruct (Nat.eqb_spec p' p) as [-> | _]; [lia | discriminate].
    - intros q Hq. apply Hmono, Hh. exact Hq. }
  destruct (Hk p st2 Hw2) as [Hw3 Hmono3]; [auto|].
  split; [exact Hw3 | auto].
Qed.

Lemma spares_set_call O call c : spares O (set_call call c).
Proof. unfold set_call. spares_tac. Qed.
#[local] Hint Resolve spares_set_call : spares.

Lemma spares_initializeHandshake O call : spares O (_initializeHandshake call).
Proof. unfold _initializeHandshake, get_call. spares_tac. Qed.
#[local] Hint Resolve spares_initializeHandshake : spares.

Lemma spares_initializeHandshake_step2 O call : spares O (_initializeHandshake_step2 call).
Proof. unfold _initializeHandshake_step2. spares_tac. Qed.
#[local] Hint Resolve spares_initializeHandshake_step2 : spares.

Lemma spares_handshake_attempt_failed O W call err :
  spares O (handshake_attempt_failed W call err).
Proof. unfold handshake_attempt_failed, get_call. spares_tac. Qed.
#[local] Hint Resolve spares_handshake_attempt_failed : spares.

Lemma spares_initializeWebSocketConnection O options :
  spares O (_initializeWebSocketConnection options).
Proof.
  unfold _initializeWebSocketConnection.
  apply spares_bind; [apply spares_gets | intros status].
  destruct status; [| apply spares_ret |];
    apply spares_push_waiter; intros p; spares_tac.
Qed.
#[local] Hint Resolve spares_initializeWebSocketConnection : spares.

Lemma spares_initializeWebSocketConnection_headers O W a call :
  spares O (_initializeWebSocketConnection_headers W a call).
Proof. unfold _initializeWebSocketConnection_headers, get_call. spares_tac. Qed.
#[local] Hint Resolve spares_initializeWebSocketConnection_headers : spares.

Lemma spares_handshake_onmessage O p m : O p -> spares O (handshake_onmessage p m).
Proof. intros Hp. unfold handshake_onmessage. spares_tac. Qed.

Lemma spares_subscribe_catch O W o err : spares O (subscribe_catch W o err).
Proof. unfold subscribe_catch. spares_tac. Qed.
#[local] Hint Resolve spares_subscribe_catch : spares.

Lemma spares_startSubscription_headers O W a c :
  spares O (_startSubscription_headers W a c).
Proof. unfold _startSubscription_headers. spares_tac. Qed.
#[local] Hint Resolve spares_startSubscription_headers : spares.

Lemma spares_startSubscription_resume O W c o :
  spares O (_startSubscription_resume W c o).
Proof.
  unfold _startSubscription_resume, get_record. cbv zeta.
  destruct o as [|err].
  - apply spares_gets_bind. intros st0 Hw0.
    apply spares_bind; [spares_tac | intros t].
    apply spares_bind; [|intros _; spares_tac].
    apply spares_set_record. intros q [Hq | Hq]; cbn in Hq.
    + exact (record_callbacks_held O st0 _ _ subscriptionReadyCallback q eq_refl
               ready_callback_held Hq).
    + exact (record_callbacks_held O st0 _ _ subscriptionFailedCallback q eq_refl
               failed_callback_held Hq).
  - assert (H : spares O
             (observer_error (sc_observer c)
                (error_value (colon (CONNECTION_FAILED (CONTROL_MSG W))
                                (message_or_empty err))) ;;
              observer_complete (sc_observer c) ;;
              r <- gets (fun st => map_get (sc_subscriptionId c)
                                     (subscriptionObserverMap (this st))) ;;
              call_if_function
                (match r with Some r => subscriptionFailedCallback r | None => None end))).
    { apply spares_bind; [spares_tac | intros _].
      apply spares_bind; [spares_tac | intros _].
      apply spares_gets_bind. intros st0 Hw0.
      apply spares_call_if_function. intros q Hq.
      exact (record_callbacks_held O st0 _ _ subscriptionFailedCallback q eq_refl
               failed_callback_held Hq). }
    destruct err; first [exact H | spares_tac].
Qed.
#[local] Hint Resolve spares_startSubscription_resume : spares.

Lemma spares_subscribe O W topics options : spares O (subscribe W topics options).
Proof.
  unfold subscribe, _startSubscriptionWithAWSAppSyncRealTime. spares_tac.
Qed.

Lemma spares_resume O W k o : spares O (resume W k o).
Proof. unfold resume. spares_tac. Qed.

Lemma spares_run_onopen O s h :
  (forall q, h = Some (OnOpenHandshake q) -> O q) -> spares O (run_onopen s h).
Proof.
  intros Hh. unfold run_onopen. destruct h as [[p]|]; [|apply spares_ret].
  pose proof (Hh p eq_refl). spares_tac.
Qed.

Lemma spares_run_onclose O W h :
  (forall q, h = Some (OnCloseHandshakeOpen q) \/ h = Some (OnCloseHandshakeAck q) ->
             O q) ->
  spares O (run_onclose W h).
Proof.
  intros Hh. unfold run_onclose. destruct h as [[p | p |]|].
  - pose proof (Hh p (or_introl eq_refl)). spares_tac.
  - pose proof (Hh p (or_intror eq_refl)). spares_tac.
  - spares_tac.
  - spares_tac.
Qed.

Lemma spares_run_onerror O W h : spares O (run_onerror W h).
Proof. unfold run_onerror. spares_tac. Qed.

Lemma spares_run_onmessage O W h m :
  (forall q, h = Some (OnMessageHandshake q) -> O q) ->
  spares O (run_onmessage W h m).
Proof.
  intros Hh. unfold run_onmessage. destruct h as [[p |]|].
  - apply spares_handshake_onmessage. now apply Hh.
  - spares_tac.
  - spares_tac.
Qed.

Lemma spares_run_timer O W task :
  (forall q, task = InitAckTimeout q -> O q) -> spares O (run_timer W task).
Proof.
  intros Hh. unfold run_timer. destruct task as [id | | | p | call]; spares_tac.
Qed.

(** ** The invariant *)

Lemma waiters_pending_initial : waiters_pending initialState.
Proof.
  constructor; cbn.
  - intros p [].
  - intros p c H. discriminate.
  - intros q [(id & r & [] & _) | [(s & w & [] & _) | (t & [])]].
Qed.

Lemma spares_held {A} (m : M A) st :
  spares (fun q => held q st) m -> waiters_pending st -> waiters_pending (snd (m st)).
Proof.
  intros Hm Hw. apply (Hm st Hw). intros q Hq. now apply (w_held st Hw).
Qed.

Lemma task_waiters_pending W a st st' :
  task W a st = Some st' -> waiters_pending st -> waiters_pending st'.
Proof.
  intros Ht Hw.
  destruct a as [topics options | o | id a | cid a | s | s | s | s m | s n | t | ];
    cbn [task] in Ht.
  - injection Ht as <-. apply spares_held; [apply spares_subscribe | exact Hw].
  - injection Ht as <-. apply spares_held; [apply spares_close_subscription | exact Hw].
  - destruct (map_get id (startCalls (rt st))) as [c|]; [|discriminate].
    injection Ht as <-.
    apply (spares_held
             (update_rt (fun r => set_startCalls (map_delete id (startCalls r)) r) ;;
              _startSubscription_headers W a c)); [spares_tac | exact Hw].
  - destruct (store_get cid (connectCalls (rt st))) as [c|]; [|discriminate].
    destruct (cc_url c); [discriminate|]. injection Ht as <-.
    apply spares_held; [apply spares_initializeWebSocketConnection_headers | exact Hw].
  - destruct (store_get s (sockets (rt st))) as [w|] eqn:Hs; [|discriminate].
    destruct (readyState w); try discriminate. injection Ht as <-.
    apply (spares_held (update_socket s (set_readyState WS_OPEN) ;;
                        run_onopen s (onopen w))); [|exact Hw].
    apply spares_bind; [spares_tac | intros _].
    apply spares_run_onopen. intros q Hq.
    right. left. exists s, w. split; [now apply store_get_In | now left].
  - destruct (store_get s (sockets (rt st))) as [w|] eqn:Hs; [|discriminate].
    assert (H : waiters_pending
                  (snd ((update_socket s (set_readyState WS_CLOSED) ;;
                         run_onclose W (onclose w)) st))).
    { apply spares_held; [|exact Hw].
      apply spares_bind; [spares_tac | intros _].
      apply spares_run_onclose. intros q Hq.
      right. left. exists s, w. split; [now apply store_get_In|].
      destruct Hq as [Hq | Hq]; [right; left | right; right; left]; exact Hq. }
    destruct (readyState w); try discriminate; injection Ht as <-; exact H.
  - destruct (store_get s (sockets (rt st))) as [w|]; [|discriminate].
    injection Ht as <-. apply spares_held; [apply spares_run_onerror | exact Hw].
  - destruct (store_get s (sockets (rt st))) as [w|] eqn:Hs; [|discriminate].
    assert (H : waiters_pending (snd (run_onmessage W (onmessage w) m st))).
    { apply spares_held; [|exact Hw].
      apply spares_run_onmessage. intros q Hq.
      right. left. exists s, w. split; [now apply store_get_In|].
      right. right. right. exact Hq. }
    destruct (readyState w); try discriminate; injection Ht as <-; exact H.
  - destruct (store_get s (sockets (rt st))) as [w|]; [|discriminate].
    injection Ht as <-.
    apply (spares_held (update_socket s (set_bufferedAmount n))); [spares_tac | exact Hw].
  - destruct (store_get t (timers (rt st))) as [tk|] eqn:Htk; [|discriminate].
    injection Ht as <-.
    apply (spares_held
             (update_rt (fun r => set_timers (store_delete t (timers r)) r) ;;
              run_timer W tk)); [|exact Hw].
    apply spares_bind; [spares_tac | intros _].
    apply spares_run_timer. intros q ->.
    right. right. exists t. now apply store_get_In.
  - discriminate.
Qed.

Lemma step_waiters_pending W a st st' :
  step W a st = Some st' -> waiters_pending st -> waiters_pending st'.
Proof.
  unfold step. intros Hstep Hw.
  destruct (microtasks (rt st)) as [|[k o] rest] eqn:Hq.
  - destruct a; try discriminate; eapply task_waiters_pending; eauto.
  - destruct a; try discriminate. injection Hstep as <-.
    apply (spares_held (update_rt (set_microtasks rest) ;; resume W k o)); [|exact Hw].
    apply spares_bind; [spares_tac | intros _; apply spares_resume].
Qed.

(** In a reachable state every waiter of the connection is a pending
    promise. *)
Lemma reachable_waiters_pending W st : reachable W st -> waiters_pending st.
Proof.
  induction 1 as [|a st st' Hr IH Hstep].
  - apply waiters_pending_initial.
  - eapply step_waiters_pending; eauto.
Qed.

(** ** C10: subscribing without options or endpoint *)



(** ** C9: data messages *)



(** A message of type [data] whose payload or [payload.data] is missing or
    falsy matches no branch of the handler. *)
Lemma data_message_without_data_is_dropped W id payload st :
  truthy payload
  && truthy (match payload with Some p => prop p "data" | None => None end) = false ->
  exec (_handleIncomingSubscriptionMessage W (mkServerMessage GQL_DATA id payload)) st = st.
Proof.
  intros Hf. unfold _handleIncomingSubscriptionMessage, get_record. cbn -[truthy prop].
  rewrite Hf. cbn. reflexivity.
Qed.

(** ** C5: where the subscription id comes from *)

(** C5 (amended). The subscription id is drawn from the uuid generator
    inside [subscribe]: the record, the suspended start call and the cleanup
    function are keyed by the next uuid, whatever the caller passed; the
    start message and the stop message of a call carry the id of its
    closure. *)
Theorem C5_subscription_id_is_generated W topics options st :
  opt_string_truthy (appSyncGraphqlEndpoint options) = true ->
  let id := uuid W (uuidCalls (rt st)) in
  let o := nextId (rt st) in
  let st' := exec (subscribe W topics (Some options)) st in
  map_get id (subscriptionObserverMap (this st')) = Some (pending_record options o)
  /\ map_get id (startCalls (rt st')) = Some (mkStartCall options o id None)
  /\ store_get o (cleanups (rt st')) = Some id
  /\ (forall c data headers s st0,
        sc_message c = Some (data, headers) ->
        awsRealTimeSocket (this st0) = Some s ->
        exists t,
          trace (exec (_startSubscription_resume W c Fulfilled) st0)
          = trace st0 ++ [EvSetTimeout t (StartAckTimeout (sc_subscriptionId c))
                            (JNum START_ACK_TIMEOUT);
                          EvSocketSend s (Start (sc_subscriptionId c) data headers)])
  /\ (forall subscriptionId s w st0,
        awsRealTimeSocket (this st0) = Some s ->
        store_get s (sockets (rt st0)) = Some w -> readyState w = WS_OPEN ->
        socketStatus (this st0) = READY ->
        trace (exec (_sendUnsubscriptionMessage subscriptionId) st0)
        = trace st0 ++ [EvSocketSend s (Stop subscriptionId)]).
Proof.
  intros He id o st'. subst st'.
  unfold subscribe. rewrite He.
  unfold _startSubscriptionWithAWSAppSyncRealTime, set_record. cbn.
  fold id o. repeat split.
  - apply map_get_set_same.
  - apply map_get_set_same.
  - apply store_get_set_same.
  - intros c data headers s st0 Hm Hs.
    unfold _startSubscription_resume, get_record, setTimeout, set_record, socket_send. cbn.
    rewrite Hs, Hm. cbn. eexists. rewrite <- app_assoc. reflexivity.
  - intros sid s w st0 Hs Hw Ho Hr.
    unfold _sendUnsubscriptionMessage, socket_is_open, socket_send. cbn.
    rewrite Hs. cbn. rewrite Hw, Ho, Hr. reflexivity.
Qed.

(** ** C1: authentication modes without a handler *)

Lemma no_handler_empty_headers a authenticationType payload canonicalUri options :
  no_handler authenticationType ->
  _awsRealTimeHeaderBasedAuth a authenticationType payload canonicalUri options
  = Returned EmptyStringHeaders.
Proof.
  unfold no_handler, _awsRealTimeHeaderBasedAuth.
  destruct authenticationType as [key|]; [|reflexivity].
  intros [-> ->]. reflexivity.
Qed.

(** C1 (amended). For an authentication mode that is absent or names no
    handler, building the auth headers does not fail: it yields the empty
    string, and the connection attempt goes ahead: when the executor of a
    pending connection resumes, it opens a socket whose URL carries that
    empty header value. *)
Theorem C1_mode_without_handler_connects W a call c st :
  no_handler (authenticationType (cc_options c)) ->
  microtasks (rt st) = [] ->
  store_get call (connectCalls (rt st)) = Some c ->
  cc_url c = None ->
  (forall payload canonicalUri,
      _awsRealTimeHeaderBasedAuth a (authenticationType (cc_options c)) payload
        canonicalUri (cc_options c) = Returned EmptyStringHeaders)
  /\ exists st',
      step W (ConnectionHeaders call a) st = Some st'
      /\ trace st' = trace st ++ [EvNewWebSocket (S (nextId (rt st)))
                                    (connection_url W (cc_options c) EmptyStringHeaders)].
Proof.
  intros Hno Hq Hcall Hurl. split.
  - intros. now apply no_handler_empty_headers.
  - eexists. split.
    + unfold step. rewrite Hq. cbn [task]. rewrite Hcall, Hurl. reflexivity.
    + unfold _initializeWebSocketConnection_headers, get_call. cbn -[_initializeHandshake].
      rewrite Hcall. rewrite (no_handler_empty_headers a _ (Lit "{}") "/connect" (cc_options c) Hno).
      unfold _initializeHandshake, get_call, set_call. cbn -[await].
      rewrite store_get_set_same. cbn -[await].
      rewrite await_trace. cbn. reflexivity.
Qed.

(** ** C6: which handshake failures are retried *)

Lemma non_retryable_code_spec err :
  non_retryable_code err = true <->
  exists errorType n, err = ErrorObject errorType (JNum n)
                      /\ (n = 400 \/ n = 401 \/ n = 403)%Z.
Proof.
  unfold non_retryable_code, includes, errorCode_of, NON_RETRYABLE_CODES. split.
  - destruct err as [| | |t c|]; try discriminate.
    destruct c as [| |n| | |]; try discriminate. cbn.
    intros H. exists t, n. split; [reflexivity|].
    destruct (Z.eqb_spec n 400); [auto|].
    destruct (Z.eqb_spec n 401); [auto|].
    destruct (Z.eqb_spec n 403); [auto|]. discriminate.
  - intros (t & n & -> & [-> | [-> | ->]]); reflexivity.
Qed.




(** ** C4: one handshake for all callers *)

Lemma forEach_enqueue ks o st :
  exec (forEach ks (fun k => enqueue k o)) st
  = mkState (this st)
      (set_microtasks (microtasks (rt st) ++ map (fun k => (k, o)) ks) (rt st))
      (trace st).
Proof.
  revert st. induction ks as [|k ks IH]; intros st.
  - cbn. rewrite app_nil_r. destruct st as [t [] tr]; reflexivity.
  - cbn [forEach]. cbn -[forEach]. cbn -[forEach] in IH. rewrite IH. cbn.
    rewrite <- app_assoc. reflexivity.
Qed.

Lemma settle_pending p o c st :
  store_get p (promises (rt st)) = Some c -> settled c = None ->
  exec (settle p o) st = settled_state p o c st.
Proof.
  intros Hc Hs. unfold settle. cbn -[forEach]. rewrite Hc, Hs.
  cbn -[forEach]. 
  pose proof (forEach_enqueue (awaiters c) o) as H. cbn -[forEach] in H.
  rewrite H. reflexivity.
Qed.

Lemma settle_not_pending p o st :
  (forall c, store_get p (promises (rt st)) = Some c -> settled c <> None) ->
  exec (settle p o) st = st.
Proof.
  intros H. unfold settle. cbn -[forEach].
  destruct (store_get p (promises (rt st))) as [c|] eqn:Hc; [|reflexivity].
  specialize (H c eq_refl). destruct (settled c); [reflexivity | congruence].
Qed.

Lemma settle_all o waiters st :
  settled_all o waiters st (exec (forEach waiters (fun p => settle p o)) st).
Proof.
  revert st. induction waiters as [|q waiters IH]; intros st.
  - constructor; cbn; auto. intros p c []. 
  - change (exec (forEach (q :: waiters) (fun p => settle p o)) st)
      with (exec (forEach waiters (fun p => settle p o)) (exec (settle q o) st)).
    specialize (IH (exec (settle q o) st)).
    destruct (store_get q (promises (rt st))) as [cq|] eqn:Hq.
    2:{ rewrite settle_not_pending in * by (intros c Hc; congruence).
        destruct IH. constructor; auto.
        - intros p c [<- | Hin] Hc Hs; [congruence | eauto].
        - intros p c Hc [Hs | Hn]; [auto | apply sa_other0; auto; right; intros ?; apply Hn; now right]. }
    destruct (settled cq) as [oq|] eqn:Hsq.
    { rewrite settle_not_pending in * by (intros c Hc; congruence).
      destruct IH. constructor; auto.
      - intros p c [<- | Hin] Hc Hs; [congruence | eauto].
      - intros p c Hc [Hs | Hn]; [auto | apply sa_other0; auto; right; intros ?; apply Hn; now right]. }
    rewrite (settle_pending q o cq st Hq Hsq) in *.
    destruct IH. cbn in *. constructor; cbn; auto.
    + intros p c Hin Hc Hs.
      destruct (Nat.eq_dec p q) as [-> | Hne].
      * assert (c = cq) by congruence. subst c. split.
        -- apply sa_other0; [apply store_get_set_same | left; cbn; discriminate].
        -- intros k Hk. apply sa_queue0. apply in_or_app. right.
           now apply (in_map (fun k => (k, o))).
      * destruct Hin as [-> | Hin]; [contradiction|].
        apply sa_waiter0; auto. now rewrite store_get_set_other.
    + intros p c Hc Hcase.
      destruct (Nat.eq_dec p q) as [-> | Hne].
      * destruct Hcase as [Hs | Hn]; [congruence | exfalso; apply Hn; now left].
      * apply sa_other0; [now rewrite store_get_set_other|].
        destruct Hcase as [Hs | Hn]; [now left | right; intros ?; apply Hn; now right].
    + intros x Hx. apply sa_queue0. apply in_or_app. now left.
Qed.


(** ** C7: keep-alive expiry *)

Lemma cleanup_begin_frame id st : cleanup_frame st (exec (cleanup_begin id) st).
Proof.
  unfold cleanup_begin, _waitForSubscriptionToBeConnected, get_record, new_promise,
    set_record, await.
  cbn. destruct (map_get id (subscriptionObserverMap (this st))) as [so|]; cbn.
  - destruct (subscriptionState so); cbn; try (constructor; reflexivity).
    match goal with
    | |- context [match ?x with _ => _ end] => destruct x as [c|]
    end; cbn; [destruct (settled c)|]; constructor; reflexivity.
  - constructor; reflexivity.
Qed.

(** Closing an open observer marks it closed and runs its cleanup. *)
Lemma close_subscription_open o st :
  is_closed o st = false ->
  let st' := exec (close_subscription o) st in
  trace st' = trace st
  /\ closedObservers (rt st') = o :: closedObservers (rt st)
  /\ awsRealTimeSocket (this st') = awsRealTimeSocket (this st)
  /\ sockets (rt st') = sockets (rt st).
Proof.
  unfold is_closed. intros Hc.
  unfold close_subscription, observer_closed. cbn -[cleanup_begin]. rewrite Hc.
  cbn -[cleanup_begin].
  destruct (store_get o (cleanups (rt st))) as [id|]; [|cbn; auto].
  set (s := mkState (this st) (set_closedObservers (o :: closedObservers (rt st)) (rt st))
              (trace st)).
  destruct (cleanup_begin_frame id s) as [H1 H2 H3 H4].
  cbn -[cleanup_begin] in *. rewrite H1, H2, H3, H4. auto.
Qed.

Lemma disconnect_entry_closed msg entry st :
  is_closed (observer (snd entry)) st = true ->
  exec (disconnect_entry msg entry) st = st.
Proof.
  unfold is_closed, disconnect_entry, observer_closed. intros Hc. cbn. rewrite Hc.
  reflexivity.
Qed.

Lemma disconnect_entry_open msg entry st :
  is_closed (observer (snd entry)) st = false ->
  let o := observer (snd entry) in
  let st' := exec (disconnect_entry msg entry) st in
  trace st' = trace st ++ [EvObserverError o (error_value (Lit msg))]
  /\ closedObservers (rt st') = o :: closedObservers (rt st)
  /\ awsRealTimeSocket (this st') = awsRealTimeSocket (this st)
  /\ sockets (rt st') = sockets (rt st).
Proof.
  intros Hc o st'. subst st' o.
  unfold disconnect_entry, observer_closed. cbn -[observer_error].
  unfold is_closed in Hc. rewrite Hc. unfold observer_error. cbn -[close_subscription].
  set (s := mkState (this st) (rt st)
              (trace st ++ [EvObserverError (observer (snd entry))
                              (error_value (Lit msg))])).
  destruct (close_subscription_open (observer (snd entry)) s Hc) as (H1 & H2 & H3 & H4).
  cbn -[close_subscription] in *. rewrite H1, H2, H3, H4. auto.
Qed.

Lemma disconnect_entries msg entries st :
  exists evs,
    disconnected msg entries st (exec (forEach entries (disconnect_entry msg)) st) evs.
Proof.
  revert st. induction entries as [|entry entries IH]; intros st.
  - exists []. constructor; cbn; auto.
    + now rewrite app_nil_r.
    + intros e [].
  - change (exec (forEach (entry :: entries) (disconnect_entry msg)) st)
      with (exec (forEach entries (disconnect_entry msg))
              (exec (disconnect_entry msg entry) st)).
    destruct (is_closed (observer (snd entry)) st) eqn:Hc.
    + rewrite (disconnect_entry_closed msg entry st Hc).
      destruct (IH st) as (evs & H). exists evs. destruct H. constructor; auto.
      intros o. rewrite dc_count0. cbn [holds_observer existsb].
      destruct (Nat.eqb_spec o (observer (snd entry))) as [-> | Hne]; cbn.
      * rewrite Hc. cbn. now rewrite andb_false_r.
      * reflexivity.
    + destruct (disconnect_entry_open msg entry st Hc) as (H1 & H2 & H3 & H4).
      destruct (IH (exec (disconnect_entry msg entry) st)) as (evs & H).
      exists (EvObserverError (observer (snd entry)) (error_value (Lit msg)) :: evs).
      destruct H. constructor.
      * rewrite dc_trace0, H1, <- app_assoc. reflexivity.
      * intros e [<- | Hin]; eauto.
      * intros o. unfold errors_on in *. cbn [filter is_error_on].
        specialize (dc_count0 o). unfold is_closed in dc_count0, Hc |- *.
        rewrite H2 in dc_count0. cbn [existsb] in dc_count0.
        cbn [holds_observer existsb].
        destruct (Nat.eqb_spec o (observer (snd entry))) as [Heq | Hne].
        -- cbn [length]. rewrite dc_count0. rewrite Heq, Hc. cbn.
           now rewrite andb_false_r.
        -- rewrite dc_count0. cbn. reflexivity.
      * congruence.
      * congruence.
Qed.

(** What [_errorDisconnect] does. *)
Lemma errorDisconnect_disconnects_all msg st :
  let st' := exec (_errorDisconnect msg) st in
  exists evs,
    trace st' = trace st ++ evs
    /\ (forall o,
          errors_on o evs
          = if holds_observer o (subscriptionObserverMap (this st))
               && negb (is_closed o st) then 1 else 0)
    /\ (forall o e, In (EvObserverError o e) evs ->
          e = error_value (Lit msg))
    /\ subscriptionObserverMap (this st') = []
    /\ socketStatus (this st') = CLOSED
    /\ (forall s, awsRealTimeSocket (this st) = Some s ->
          In (EvSocketClose s None) evs
          /\ forall w, store_get s (sockets (rt st)) = Some w ->
               exists w', store_get s (sockets (rt st')) = Some w'
                          /\ closing (readyState w')).
Proof.
  unfold _errorDisconnect. fold (disconnect_entry msg).
  cbn -[forEach disconnect_entry socket_close].
  destruct (disconnect_entries msg (subscriptionObserverMap (this st)) st) as (evs & H).
  cbn -[forEach disconnect_entry] in H.
  set (st1 := snd (forEach (subscriptionObserverMap (this st)) (disconnect_entry msg) st))
    in *.
  destruct H as [Ht Honly Hcount Hsock Hsocks].
  rewrite Hsock.
  destruct (awsRealTimeSocket (this st)) as [s|] eqn:Hs.
  - exists (evs ++ [EvSocketClose s None]).
    unfold socket_close, update_socket. cbn. rewrite Hsocks.
    split; [rewrite Ht, <- app_assoc; reflexivity|].
    split.
    { intros o. unfold errors_on in *. rewrite filter_app, length_app. cbn.
      rewrite Hcount. lia. }
    split.
    { intros o e Hin. apply in_app_or in Hin. destruct Hin as [Hin | [Hin | []]].
      - destruct (Honly _ Hin) as (o' & Heq). congruence.
      - discriminate. }
    split; [reflexivity|]. split; [reflexivity|].
    intros s0 Heq. injection Heq as <-. split; [apply in_or_app; right; now left|].
    intros w Hw. rewrite Hw. cbn. eexists. split; [apply store_get_set_same|].
    unfold closing. destruct (readyState w) eqn:Hr; cbn; rewrite ?Hr; auto.
  - exists evs. cbn. split; [exact Ht|]. split; [exact Hcount|].
    split.
    { intros o e Hin. destruct (Honly _ Hin) as (o' & Heq). congruence. }
    split; [reflexivity|]. split; [reflexivity|]. intros; discriminate.
Qed.

(** C7. When the keep-alive timer expires, [observer.error] is called
    exactly once, with the timeout message, on every observer that a record
    of the registry holds and that is still open, and on no other; the
    registry is left empty, [close()] is called on the socket, which is
    then closing or closed, and the status is CLOSED. *)
Theorem C7_keep_alive_expiry_disconnects_all W st t :
  microtasks (rt st) = [] ->
  store_get t (timers (rt st)) = Some KeepAliveTimeout ->
  exists st' evs,
    step W (TimerFires t) st = Some st'
    /\ trace st' = trace st ++ evs
    /\ (forall o,
          errors_on o evs
          = if holds_observer o (subscriptionObserverMap (this st))
               && negb (is_closed o st) then 1 else 0)
    /\ (forall o e, In (EvObserverError o e) evs ->
          e = error_value (Lit (TIMEOUT_DISCONNECT (CONTROL_MSG W))))
    /\ subscriptionObserverMap (this st') = []
    /\ socketStatus (this st') = CLOSED
    /\ (forall s, awsRealTimeSocket (this st) = Some s ->
          In (EvSocketClose s None) evs
          /\ forall w, store_get s (sockets (rt st)) = Some w ->
               exists w', store_get s (sockets (rt st')) = Some w'
                          /\ closing (readyState w')).
Proof.
  intros Hq Ht.
  set (st0 := mkState (this st) (set_timers (store_delete t (timers (rt st))) (rt st))
                (trace st)).
  destruct (errorDisconnect_disconnects_all (TIMEOUT_DISCONNECT (CONTROL_MSG W)) st0)
    as (evs & H).
  exists (exec (_errorDisconnect (TIMEOUT_DISCONNECT (CONTROL_MSG W))) st0), evs.
  split; [|exact H].
  unfold step. rewrite Hq. cbn [task]. rewrite Ht. reflexivity.
Qed.

(** ** C8: the start-ack deadline *)


(** * The concrete run *)



Lemma started_registry :
  subscriptionObserverMap (this started) = [("s1", started_record)]
  /\ socketStatus (this started) = READY
  /\ timers (rt started) = [(7, InitAckTimeout 6); (8, StartAckTimeout "s1")]
  /\ microtasks (rt started) = [].
Proof. vm_compute. auto. Qed.

Lemma waiting_reached :
  step exampleWorld (Unsubscribe 1) started = Some waiting.
Proof. vm_compute. reflexivity. Qed.

(** ** C2: the ack timeout and the waiting unsubscribe *)

(** C2 (code at the failing input). An unsubscribe waits on the PENDING
    record with its failed waiter [Rej 9] stored; when the ack timer 8
    fires the record becomes FAILED, both waiters are dropped without being
    called, promise 9 stays pending and nothing is queued: the unsubscribe
    never resumes. *)
Theorem C2_ack_timeout_drops_failed_waiter :
  exists st',
    run exampleWorld (start_sent ++ [Unsubscribe 1]) initialState = Some waiting
    /\ map_get "s1" (subscriptionObserverMap (this waiting)) = Some waiting_record
    /\ store_get 9 (promises (rt waiting)) = Some (mkPromiseCell None [KUnsubscribe "s1"])
    /\ step exampleWorld (TimerFires 8) waiting = Some st'
    /\ map_get "s1" (subscriptionObserverMap (this st'))
       = Some (failed_record waiting_record)
    /\ store_get 9 (promises (rt st')) = Some (mkPromiseCell None [KUnsubscribe "s1"])
    /\ microtasks (rt st') = []
    /\ timers (rt st') = [(7, InitAckTimeout 6)]
    /\ trace st' = trace waiting.
Proof.
  eexists. vm_compute. repeat split; reflexivity.
Qed.

(** The sibling path: a protocol error for the same record calls the
    stored failed waiter, and the unsubscribe resumes and removes the
    record. *)
Lemma error_message_calls_failed_waiter :
  exists st1 st2,
    step exampleWorld
      (SocketMessage 5 (mkServerMessage GQL_ERROR (Some "s1") (Some (JObj [])))) waiting
    = Some st1
    /\ store_get 9 (promises (rt st1))
       = Some (mkPromiseCell (Some (Rejected Undefined)) [KUnsubscribe "s1"])
    /\ microtasks (rt st1) = [(KUnsubscribe "s1", Rejected Undefined)]
    /\ step exampleWorld Microtask st1 = Some st2
    /\ map_get "s1" (subscriptionObserverMap (this st2)) = None.
Proof.
  eexists. eexists. vm_compute. repeat split; reflexivity.
Qed.

(** ** C3: unsubscribing while PENDING *)

(** C3 (code at the failing input). The start-ack timer 8 is armed and
    stored on the record.  When the unsubscribe starts waiting, the record
    is rewritten without the timer id although the timer stays armed; no
    stop message is sent while the record is PENDING.  When the start-ack
    arrives the stop message is sent and the record removed, but timer 8 is
    never cleared and is still armed. *)
Theorem C3_waiting_unsubscribe_forgets_ack_timer :
  exists st2,
    startAckTimeoutId started_record = Some 8
    /\ step exampleWorld (Unsubscribe 1) started = Some waiting
    /\ map_get "s1" (subscriptionObserverMap (this waiting)) = Some waiting_record
    /\ startAckTimeoutId waiting_record = None
    /\ store_get 8 (timers (rt waiting)) = Some (StartAckTimeout "s1")
    /\ sent_stops (trace waiting) = []
    /\ run exampleWorld
         [SocketMessage 5 (mkServerMessage GQL_START_ACK (Some "s1") None); Microtask]
         waiting = Some st2
    /\ sent_stops (trace st2) = ["s1"]
    /\ map_get "s1" (subscriptionObserverMap (this st2)) = None
    /\ cleared_timers (trace st2) = []
    /\ store_get 8 (timers (rt st2)) = Some (StartAckTimeout "s1").
Proof.
  eexists. vm_compute. repeat split; reflexivity.
Qed.

(** * Where the code and the specification part *)

(** ** C1 *)

(** C1 (counterexample). For the mode "NONE", which is none of the five
    modes, building the headers throws nothing: it returns the empty
    string; and the run goes on to open socket 5. *)
Lemma C1_counterexample :
  headerHandler "NONE" = None
  /\ _awsRealTimeHeaderBasedAuth exampleAnswers (Some "NONE") (Lit "{}") "/connect"
       unsupportedOptions = Returned EmptyStringHeaders
  /\ (forall e,
        _awsRealTimeHeaderBasedAuth exampleAnswers (Some "NONE") (Lit "{}") "/connect"
          unsupportedOptions <> Throws e)
  /\ exists st,
      run exampleWorld
        [Subscribe [] (Some unsupportedOptions);
         SubscriptionHeaders "s1" exampleAnswers;
         ConnectionHeaders 3 exampleAnswers] initialState = Some st
      /\ trace st
         = [EvNewWebSocket 5 (mkUrl exampleEndpoint true EmptyStringHeaders "{}")].
Proof.
  split; [reflexivity|]. split; [reflexivity|]. split; [discriminate|].
  eexists. vm_compute. split; reflexivity.
Qed.

(** C1 (witness): the amended statement at the mode "NONE". *)
Lemma C1_witness :
  no_handler (authenticationType unsupportedOptions)
  /\ store_get 3 (connectCalls (rt unsupported_connecting))
     = Some (mkConnectCall unsupportedOptions None 0)
  /\ exists st',
      step exampleWorld (ConnectionHeaders 3 exampleAnswers) unsupported_connecting
      = Some st'
      /\ trace st'
         = trace unsupported_connecting
           ++ [EvNewWebSocket (S (nextId (rt unsupported_connecting)))
                 (connection_url exampleWorld unsupportedOptions EmptyStringHeaders)].
Proof.
  assert (H1 : no_handler (authenticationType unsupportedOptions))
    by (split; reflexivity).
  assert (H2 : store_get 3 (connectCalls (rt unsupported_connecting))
               = Some (mkConnectCall unsupportedOptions None 0)) by reflexivity.
  split; [exact H1|]. split; [exact H2|].
  exact (proj2 (C1_mode_without_handler_connects exampleWorld exampleAnswers 3
                  (mkConnectCall unsupportedOptions None 0) unsupported_connecting
                  H1 eq_refl H2 eq_refl)).
Defined.

(** ** C5 *)

(** C5 (counterexample). The same call of [subscribe], with the same
    topics and options, registers "s1" under one uuid generator and "other"
    under another: the id is not among the caller's arguments. *)
Lemma C5_counterexample :
  map fst (subscriptionObserverMap
             (this (exec (subscribe exampleWorld [] (Some exampleOptions)) initialState)))
  = ["s1"]
  /\ map fst (subscriptionObserverMap
                (this (exec (subscribe otherWorld [] (Some exampleOptions)) initialState)))
     = ["other"]
  /\ ~ caller_supplies_id.
Proof.
  split; [reflexivity|]. split; [reflexivity|].
  intros (id_of & H).
  pose proof (H exampleWorld [] exampleOptions eq_refl) as H1.
  pose proof (H otherWorld [] exampleOptions eq_refl) as H2.
  vm_compute in H1, H2. congruence.
Qed.

(** C5 (witness): the first subscription of the example run. *)
Lemma C5_witness :
  opt_string_truthy (appSyncGraphqlEndpoint exampleOptions) = true
  /\ map_get "s1"
       (subscriptionObserverMap
          (this (exec (subscribe exampleWorld [] (Some exampleOptions)) initialState)))
     = Some (pending_record exampleOptions 1).
Proof.
  split; [reflexivity|].
  exact (proj1 (C5_subscription_id_is_generated exampleWorld [] exampleOptions
                  initialState eq_refl)).
Defined.

(** ** C6 *)


(** ** C8 *)



(** ** C9 *)



(** ** C10 *)


(** ** C4 *)




(** ** C7 *)

(** C7 (witness): the keep-alive timer 9 expires with "s1" registered. *)
Lemma C7_witness :
  microtasks (rt kept_alive) = []
  /\ store_get 9 (timers (rt kept_alive)) = Some KeepAliveTimeout
  /\ exists st' evs,
      step exampleWorld (TimerFires 9) kept_alive = Some st'
      /\ trace st' = trace kept_alive ++ evs
      /\ errors_on 1 evs = 1
      /\ subscriptionObserverMap (this st') = []
      /\ socketStatus (this st') = CLOSED.
Proof.
  split; [reflexivity|]. split; [reflexivity|].
  destruct (C7_keep_alive_expiry_disconnects_all exampleWorld kept_alive 9
              eq_refl eq_refl)
    as (st' & evs & Hstep & Htrace & Hcount & _ & Hmap & Hstatus & _).
  exists st', evs. repeat split; try assumption.
  rewrite Hcount. reflexivity.
Defined.

(** * Further properties of the provider *)

(** ** Losing the connection *)

(** X2. When the socket of an established connection closes, or reports
    an error, [observer.error] is called exactly once, with the
    CONNECTION_CLOSED message, on every open observer the registry holds
    and on no other; the registry is left empty and the status CLOSED. *)
Theorem X2_socket_failure_disconnects_all W st s w a :
  microtasks (rt st) = [] ->
  store_get s (sockets (rt st)) = Some w ->
  (a = SocketClose s /\ readyState w <> WS_CLOSED /\ onclose w = Some OnCloseDisconnect)
  \/ (a = SocketError s /\ onerror w = Some OnErrorDisconnect) ->
  exists st' evs,
    step W a st = Some st'
    /\ trace st' = trace st ++ evs
    /\ (forall o,
          errors_on o evs
          = if holds_observer o (subscriptionObserverMap (this st))
               && negb (is_closed o st) then 1 else 0)
    /\ (forall o e, In (EvObserverError o e) evs ->
          e = error_value (Lit (CONNECTION_CLOSED (CONTROL_MSG W))))
    /\ subscriptionObserverMap (this st') = []
    /\ socketStatus (this st') = CLOSED.
Proof.
  intros Hq Hs [(-> & Hr & Hh) | (-> & Hh)].
  - set (st0 := snd (update_socket s (set_readyState WS_CLOSED) st)).
    destruct (errorDisconnect_disconnects_all (CONNECTION_CLOSED (CONTROL_MSG W)) st0)
      as (evs & H1 & H2 & H3 & H4 & H5 & _).
    assert (E : this st0 = this st /\ trace st0 = trace st
                /\ closedObservers (rt st0) = closedObservers (rt st)).
    { unfold st0, update_socket. cbn. rewrite Hs. cbn. auto. }
    destruct E as (E1 & E2 & E3).
    exists (exec (_errorDisconnect (CONNECTION_CLOSED (CONTROL_MSG W))) st0), evs.
    split.
    { unfold step. rewrite Hq. cbn [task]. rewrite Hs, Hh.
      destruct (readyState w); try reflexivity. contradiction. }
    split; [rewrite H1, E2; reflexivity|].
    split.
    { intros o. rewrite H2, E1. unfold is_closed. rewrite E3. reflexivity. }
    auto.
  - destruct (errorDisconnect_disconnects_all (CONNECTION_CLOSED (CONTROL_MSG W)) st)
      as (evs & H1 & H2 & H3 & H4 & H5 & _).
    exists (exec (_errorDisconnect (CONNECTION_CLOSED (CONTROL_MSG W))) st), evs.
    split.
    { unfold step. rewrite Hq. cbn [task]. rewrite Hs, Hh. reflexivity. }
    auto.
Qed.

(** ** Messages for subscriptions that are gone *)

(** X3. A message of the server whose id names no record of the registry
    (or that carries no id while no record is registered under the empty
    string), whatever its type and payload, creates no record, calls no
    observer, sends nothing and settles no promise. *)
Theorem X3_message_for_unknown_id W m st :
  map_get (id_or_empty m) (subscriptionObserverMap (this st)) = None ->
  let st' := exec (_handleIncomingSubscriptionMessage W m) st in
  subscriptionObserverMap (this st') = subscriptionObserverMap (this st)
  /\ observer_calls (trace st') = observer_calls (trace st)
  /\ sent_messages (trace st') = sent_messages (trace st)
  /\ promises (rt st') = promises (rt st)
  /\ microtasks (rt st') = microtasks (rt st)
  /\ closedObservers (rt st') = closedObservers (rt st).
Proof.
  unfold id_or_empty. intros Hr.
  unfold _handleIncomingSubscriptionMessage, get_record, dispatchApiEvent.
  cbn -[String.eqb truthy clearTimeout_if_set setTimeout map_get]. rewrite Hr.
  cbn -[String.eqb truthy clearTimeout_if_set setTimeout map_get].
  destruct (String.eqb (m_type m) GQL_DATA && truthy (m_payload m)
            && truthy match m_payload m with
                      | Some p => prop p "data"
                      | None => None
                      end).
  { destruct (m_payload m); cbn; auto 10. }
  destruct (String.eqb (m_type m) GQL_START_ACK).
  { cbn. unfold observer_calls, sent_messages.
    rewrite filter_app, flat_map_app. cbn. rewrite !app_nil_r. auto 10. }
  destruct (String.eqb (m_type m) GQL_CONNECTION_KEEP_ALIVE).
  { unfold clearTimeout_if_set, clearTimeout, setTimeout.
    destruct (keepAliveTimeoutId (this st)) eqn:Hka; cbn; rewrite ?Hka; cbn;
      unfold observer_calls, sent_messages;
      rewrite ?filter_app, ?flat_map_app; cbn; rewrite ?app_nil_r; auto 10. }
  destruct (String.eqb (m_type m) GQL_ERROR); cbn; auto 10.
Qed.

(** ** Unsubscribing *)

(** X4. In every reachable state, when the consumer of a CONNECTED
    subscription unsubscribes while the socket is open and READY, nothing
    is sent in the task itself; in the next microtask exactly one stop
    message with the id of the subscription goes to the socket, the record
    is removed and the check for an idle socket is scheduled 1000 ms
    later. *)
Theorem X4_unsubscribe_connected W st id r s w :
  reachable W st ->
  microtasks (rt st) = [] ->
  map_get id (subscriptionObserverMap (this st)) = Some r ->
  subscriptionState r = CONNECTED ->
  is_closed (observer r) st = false ->
  awsRealTimeSocket (this st) = Some s ->
  store_get s (sockets (rt st)) = Some w ->
  readyState w = WS_OPEN ->
  socketStatus (this st) = READY ->
  exists st1 st2,
    step W (Unsubscribe (observer r)) st = Some st1
    /\ trace st1 = trace st
    /\ subscriptionObserverMap (this st1) = subscriptionObserverMap (this st)
    /\ step W Microtask st1 = Some st2
    /\ trace st2 = trace st ++ [EvSocketSend s (Stop id);
                                EvSetTimeout (nextId (rt st)) CloseSocketCheck (JNum 1000)]
    /\ map_get id (subscriptionObserverMap (this st2)) = None
    /\ In (nextId (rt st), CloseSocketCheck) (timers (rt st2)).
Proof.
  intros Hreach Hq Hr Hs Hc Hsock Hw Hopen Hready. unfold is_closed in Hc.
  pose proof (reachable_record_cleanup W st id r Hreach Hr) as Hcl.
  eexists. eexists.
  split.
  { unfold step. rewrite Hq. cbn [task]. reflexivity. }
  unfold close_subscription, observer_closed, cleanup_begin,
    _waitForSubscriptionToBeConnected, get_record.
  cbn -[map_get map_set store_get await]. rewrite Hc.
  cbn -[map_get map_set store_get await]. rewrite Hcl.
  cbn -[map_get map_set store_get await]. rewrite Hr.
  cbn -[map_get map_set store_get await]. rewrite Hs.
  cbn -[map_get map_set store_get]. rewrite Hq.
  split; [reflexivity|]. split; [reflexivity|].
  split.
  { unfold step. cbn -[map_get map_set store_get resume]. reflexivity. }
  cbn [resume]. unfold cleanup_resume, get_record, _sendUnsubscriptionMessage,
    socket_is_open, socket_send, _removeSubscriptionObserver, setTimeout.
  cbn -[map_get map_set map_delete store_get]. rewrite Hr.
  cbn -[map_get map_set map_delete store_get]. rewrite Hs.
  cbn -[map_get map_set map_delete store_get]. rewrite Hsock.
  cbn -[map_get map_set map_delete store_get]. rewrite Hw, Hopen, Hready.
  cbn -[map_get map_set map_delete store_get].
  split; [rewrite <- !app_assoc; reflexivity|].
  split; [apply map_get_delete_same|].
  apply in_or_app. right. now left.
Qed.


(** X5. A start-ack releases the unsubscribe that waits for it.  When the
    start-ack of a subscription arrives while the cleanup function of its
    consumer waits on the ready callback of the record, the ack calls no
    observer and sends nothing; it marks the record CONNECTED and clears
    the ack timer only if the record still remembers one.  In the next
    microtask the cleanup function sends exactly one stop message with the
    id to the socket, calls no observer and removes the record. *)
Theorem X5_start_ack_releases_unsubscribe W st s w m id r p :
  microtasks (rt st) = [] ->
  store_get s (sockets (rt st)) = Some w ->
  readyState w = WS_OPEN ->
  onmessage w = Some OnMessageSubscription ->
  awsRealTimeSocket (this st) = Some s ->
  socketStatus (this st) = READY ->
  m_type m = GQL_START_ACK ->
  m_id m = Some id ->
  map_get id (subscriptionObserverMap (this st)) = Some r ->
  subscriptionReadyCallback r = Some (Res p) ->
  store_get p (promises (rt st)) = Some (mkPromiseCell None [KUnsubscribe id]) ->
  exists st1 st2,
    step W (SocketMessage s m) st = Some st1
    /\ observer_calls (trace st1) = observer_calls (trace st)
    /\ sent_messages (trace st1) = sent_messages (trace st)
    /\ map_get id (subscriptionObserverMap (this st1))
       = Some {| observer := observer r;
                 query := query r;
                 variables := variables r;
                 startAckTimeoutId := None;
                 subscriptionState := CONNECTED;
                 subscriptionReadyCallback := subscriptionReadyCallback r;
                 subscriptionFailedCallback := subscriptionFailedCallback r |}
    /\ timers (rt st1)
       = match startAckTimeoutId r with
         | Some t => store_delete t (timers (rt st))
         | None => timers (rt st)
         end
    /\ step W Microtask st1 = Some st2
    /\ observer_calls (trace st2) = observer_calls (trace st)
    /\ sent_messages (trace st2) = sent_messages (trace st) ++ [(s, Stop id)]
    /\ map_get id (subscriptionObserverMap (this st2)) = None.
Proof.
  intros Hq Hs Hopen Hmsg Hsock Hready Hty Hid Hr Hcb Hp.
  assert (Hrec : forall (x : ObserverQuery) l, map_get id (map_set id x l) = Some x)
    by (intros; apply map_get_set_same).
  assert (Hstep : step W (SocketMessage s m) st
                  = Some (exec (_handleIncomingSubscriptionMessage W m) st)).
  { unfold step. rewrite Hq. cbn [task]. rewrite Hs, Hopen, Hmsg. reflexivity. }
  rewrite Hstep. clear Hstep.
  unfold _handleIncomingSubscriptionMessage, get_record.
  rewrite Hty, Hid.
  cbn -[map_get map_set store_get store_set store_delete]. rewrite Hr.
  cbn -[map_get map_set store_get store_set store_delete]. rewrite Hcb.
  change (snd (call_if_function (Some (Res p)) st)) with (exec (settle p Fulfilled) st).
  rewrite (settle_pending p Fulfilled _ st Hp eq_refl). unfold settled_state.
  destruct (startAckTimeoutId r) as [t|];
    cbn -[map_get map_set map_delete store_get store_set store_delete];
    rewrite Hq;
    (eexists; eexists; split; [reflexivity|]);
    cbn -[map_get map_set map_delete store_get store_set store_delete step];
    (split; [unfold observer_calls; rewrite ?filter_app; cbn; now rewrite ?app_nil_r|]);
    (split; [unfold sent_messages; rewrite ?flat_map_app; cbn; now rewrite ?app_nil_r|]);
    (split; [apply Hrec|]);
    (split; [reflexivity|]);
    (split; [unfold step; cbn -[map_get map_set store_get resume]; reflexivity|]);
    cbn [resume]; unfold cleanup_resume, get_record, _sendUnsubscriptionMessage,
      socket_is_open, socket_send, _removeSubscriptionObserver, setTimeout;
    cbn -[map_get map_set map_delete store_get store_set store_delete]; rewrite Hrec;
    cbn -[map_get map_set map_delete store_get store_set store_delete]; rewrite Hsock;
    cbn -[map_get map_set map_delete store_get store_set store_delete];
    rewrite Hs, Hopen, Hready;
    cbn -[map_get map_set map_delete store_get store_set store_delete];
    (split; [unfold observer_calls; rewrite ?filter_app; cbn; now rewrite ?app_nil_r|]);
    (split; [unfold sent_messages; rewrite ?flat_map_app; cbn; now rewrite ?app_nil_r|]);
    apply map_get_delete_same.
Qed.
(** ** Closing an idle socket *)

(** X6. When the check for an idle socket runs with an empty registry and
    nothing buffered on the open socket, the keep-alive timer the provider
    remembers is cleared, the socket is closed with code 1000, forgotten,
    and the status set to CLOSED.  The close handler and the error handler
    were taken off first: when the socket then reports its close, or an
    error, nothing happens to the provider and no call is made. *)
Theorem X6_idle_socket_is_closed_silently W st t s w :
  microtasks (rt st) = [] ->
  store_get t (timers (rt st)) = Some CloseSocketCheck ->
  subscriptionObserverMap (this st) = [] ->
  awsRealTimeSocket (this st) = Some s ->
  store_get s (sockets (rt st)) = Some w ->
  readyState w = WS_OPEN ->
  (bufferedAmount w <= 0)%Z ->
  exists st1 st2,
    step W (TimerFires t) st = Some st1
    /\ trace st1
       = trace st
         ++ match keepAliveTimeoutId (this st) with
            | Some ka => [EvClearTimeout ka]
            | None => []
            end
         ++ [EvSocketClose s (Some 1000%Z)]
    /\ awsRealTimeSocket (this st1) = None
    /\ socketStatus (this st1) = CLOSED
    /\ step W (SocketClose s) st1 = Some st2
    /\ this st2 = this st1
    /\ trace st2 = trace st1
    /\ step W (SocketError s) st1 = Some st1.
Proof.
  intros Hq Ht Hmap Hsock Hw Hopen Hbuf.
  assert (Hlt : Z.ltb 0 (bufferedAmount w) = false) by (apply Z.ltb_ge; exact Hbuf).
  destruct (keepAliveTimeoutId (this st)) as [ka|] eqn:Hka.
  all: eexists; eexists.
  all: split; [unfold step; rewrite Hq; cbn [task]; rewrite Ht; reflexivity|].
  all: cbn [run_timer].
  all: unfold _closeSocketIfRequired, clearTimeout_if_set, clearTimeout, update_socket,
         socket_close, update_socket.
  all: cbn -[store_get store_set store_delete]; rewrite Hmap.
  all: cbn -[store_get store_set store_delete]; rewrite Hsock.
  all: cbn -[store_get store_set store_delete]; rewrite Hw, Hlt.
  all: cbn -[store_get store_set store_delete]; rewrite ?Hka;
    cbn -[store_get store_set store_delete];
    rewrite ?Hw; cbn -[store_get store_set store_delete];
    rewrite ?store_get_set_same; cbn -[store_get store_set store_delete];
    rewrite ?store_get_set_same; cbn -[store_get store_set store_delete];
    rewrite ?Hopen; cbn -[store_get store_set store_delete].
  all: split; [rewrite <- ?app_assoc; reflexivity|].
  all: split; [reflexivity|]; split; [reflexivity|].
  all: unfold step; cbn -[store_get store_set store_delete]; rewrite Hq;
    cbn -[store_get store_set store_delete];
    rewrite ?store_get_set_same; cbn -[store_get store_set store_delete];
    rewrite ?store_get_set_same; cbn -[store_get store_set store_delete];
    auto.
Qed.

(** X7. The check for an idle socket leaves a socket in use alone.  With
    a record in the registry it does nothing at all.  With an empty
    registry and data still buffered on the socket it changes neither the
    provider nor the socket, and checks again 1000 ms later. *)
Theorem X7_socket_in_use_is_kept W st t :
  microtasks (rt st) = [] ->
  store_get t (timers (rt st)) = Some CloseSocketCheck ->
  (subscriptionObserverMap (this st) <> [] ->
   step W (TimerFires t) st = Some (timer_gone t st))
  /\ (forall s w,
         subscriptionObserverMap (this st) = [] ->
         awsRealTimeSocket (this st) = Some s ->
         store_get s (sockets (rt st)) = Some w ->
         (0 < bufferedAmount w)%Z ->
         exists st',
           step W (TimerFires t) st = Some st'
           /\ this st' = this st
           /\ sockets (rt st') = sockets (rt st)
           /\ trace st'
              = trace st ++ [EvSetTimeout (nextId (rt st)) CloseSocketCheck (JNum 1000)]
           /\ In (nextId (rt st), CloseSocketCheck) (timers (rt st'))).
Proof.
  intros Hq Ht.
  assert (Hstep : step W (TimerFires t) st
                  = Some (exec (update_rt (fun r =>
                                  set_timers (store_delete t (timers r)) r) ;;
                                _closeSocketIfRequired) st)).
  { unfold step. rewrite Hq. cbn [task]. rewrite Ht. reflexivity. }
  rewrite Hstep. clear Hstep. unfold _closeSocketIfRequired, setTimeout.
  split.
  - intros Hmap. cbn -[store_get store_delete].
    destruct (subscriptionObserverMap (this st)); [congruence | reflexivity].
  - intros s w Hmap Hsock Hw Hbuf. apply Z.ltb_lt in Hbuf.
    eexists. split; [reflexivity|].
    cbn -[store_get store_delete]. rewrite Hmap.
    cbn -[store_get store_delete]. rewrite Hsock.
    cbn -[store_get store_delete]. rewrite Hw, Hbuf.
    cbn -[store_get store_delete].
    repeat split. apply in_or_app. right. now left.
Qed.

(** ** The handshake *)

(** X8. The timer that guards the connection ack is armed with the flag
    [ackOk] as it was when the timer was set, so it always calls [rej]
    when it fires.  If the promise of the handshake step is settled by
    then (the ack arrived, or the socket closed), this changes nothing:
    the timer is gone and everything else is as it was. *)
Theorem X8_late_ack_timer_is_harmless W st t p c o :
  microtasks (rt st) = [] ->
  store_get t (timers (rt st)) = Some (InitAckTimeout p) ->
  store_get p (promises (rt st)) = Some c ->
  settled c = Some o ->
  step W (TimerFires t) st = Some (timer_gone t st).
Proof.
  intros Hq Ht Hp Hs. unfold step. rewrite Hq. cbn [task]. rewrite Ht.
  cbn [run_timer]. unfold settle, timer_gone. cbn -[store_get store_delete].
  rewrite Hp, Hs. reflexivity.
Qed.

(** X9. The keep-alive deadline is the one the server announces.  A
    connection ack sets [keepAliveTimeout] to [payload.connectionTimeoutMs],
    or to 300000 ms when the payload or that member is missing; an ack
    whose payload is [null] makes the listener throw while destructuring,
    and nothing changes.  Every later keep-alive message clears the timer
    the provider remembers and arms a new one with the deadline stored,
    which it then remembers. *)
Theorem X9_keep_alive_deadline W p m st s :
  awsRealTimeSocket (this st) = Some s ->
  (m_type m = GQL_CONNECTION_ACK ->
   match m_payload m with
   | Some JNull => exec (handshake_onmessage p m) st = st
   | Some payload =>
       keepAliveTimeout (this (exec (handshake_onmessage p m) st))
       = match prop payload "connectionTimeoutMs" with
         | Some v => v
         | None => JNum 300000
         end
   | None =>
       keepAliveTimeout (this (exec (handshake_onmessage p m) st)) = JNum 300000
   end)
  /\ (m_type m = GQL_CONNECTION_KEEP_ALIVE ->
      let st' := exec (_handleIncomingSubscriptionMessage W m) st in
      let t := nextId (rt st) in
      trace st'
      = trace st
        ++ match keepAliveTimeoutId (this st) with
           | Some old => [EvClearTimeout old]
           | None => []
           end
        ++ [EvSetTimeout t KeepAliveTimeout (keepAliveTimeout (this st))]
      /\ keepAliveTimeoutId (this st') = Some t
      /\ In (t, KeepAliveTimeout) (timers (rt st'))
      /\ subscriptionObserverMap (this st') = subscriptionObserverMap (this st)).
Proof.
  intros Hsock. split.
  - intros Hty. unfold handshake_onmessage, destructure_connectionTimeoutMs.
    rewrite Hty.
    destruct (m_payload m) as [payload|].
    + assert (Hobj : forall v,
                 keepAliveTimeout
                   (this (exec
                      (sock <- gets (fun st => awsRealTimeSocket (this st)) ;;
                       match sock with
                       | Some s =>
                           update_this (set_keepAliveTimeout v) ;;
                           update_socket s (set_onmessage (Some OnMessageSubscription)) ;;
                           update_socket s (set_onerror (Some OnErrorDisconnect)) ;;
                           update_socket s (set_onclose (Some OnCloseDisconnect))
                       | None => ret tt
                       end ;;
                       settle p Fulfilled) st)) = v).
      { intros v. unfold update_socket, settle. cbn -[forEach]. rewrite Hsock.
        cbn -[forEach store_get store_set].
        repeat match goal with
               | |- context [match ?x with _ => _ end] => destruct x
               end; cbn -[forEach store_get store_set];
          try reflexivity;
          match goal with
          | |- context [forEach ?l ?f ?s] =>
              pose proof (forEach_enqueue l Fulfilled s) as H;
              cbn -[forEach] in H; rewrite H; reflexivity
          end. }
      destruct payload; try reflexivity;
        cbn [prop GQL_CONNECTION_ACK String.eqb Ascii.eqb Bool.eqb];
        try (destruct (assoc "connectionTimeoutMs" fields)); apply Hobj.
    + cbn [GQL_CONNECTION_ACK String.eqb Ascii.eqb Bool.eqb].
      unfold update_socket, settle. cbn -[forEach]. rewrite Hsock.
      cbn -[forEach store_get store_set].
      repeat match goal with
             | |- context [match ?x with _ => _ end] => destruct x
             end; cbn -[forEach store_get store_set];
        try reflexivity;
        match goal with
        | |- context [forEach ?l ?f ?s] =>
            pose proof (forEach_enqueue l Fulfilled s) as H;
            cbn -[forEach] in H; rewrite H; reflexivity
        end.
  - intros Hty.
    unfold _handleIncomingSubscriptionMessage, get_record, dispatchApiEvent,
      clearTimeout_if_set, clearTimeout, setTimeout.
    rewrite Hty. cbn -[map_get store_delete].
    destruct (keepAliveTimeoutId (this st)) as [old|] eqn:Hka;
      cbn -[map_get store_delete]; rewrite ?Hka; cbn -[map_get store_delete].
    + split; [rewrite <- !app_assoc; reflexivity|]. split; [reflexivity|].
      split; [apply in_or_app; right; now left | reflexivity].
    + split; [reflexivity|]. split; [reflexivity|].
      split; [apply in_or_app; right; now left | reflexivity].
Qed.

(** X10. A [connection_error] message rejects the pending promise of the
    handshake step with the type and the code of its first error; a
    message without errors gives the defaults [''] and [0].  What the
    attempt then throws is a [NonRetryableError] exactly for the codes 400,
    401 and 403; with another code it is an [Error] carrying the type, or,
    when the type is empty, the rejected object itself. *)
Theorem X10_connection_error_classified p m st cell fields :
  m_type m = GQL_CONNECTION_ERROR ->
  m_payload m = Some (JObj fields) ->
  store_get p (promises (rt st)) = Some cell ->
  settled cell = None ->
  let st' := exec (handshake_onmessage p m) st in
  (forall ty code rest,
      assoc "errors" fields
      = Some (JArr (JObj [("errorType", JStr ty); ("errorCode", JNum code)] :: rest)) ->
      st' = settled_state p (Rejected (ErrorObject (JStr ty) (JNum code))) cell st
      /\ _initializeHandshake_catch (ErrorObject (JStr ty) (JNum code))
         = if existsb (Z.eqb code) [400; 401; 403]%Z
           then NonRetryableError (ToString (JStr ty))
           else if string_truthy ty then Error (ToString (JStr ty))
                else ErrorObject (JStr ty) (JNum code))
  /\ (assoc "errors" fields = None \/ assoc "errors" fields = Some (JArr []) ->
      st' = settled_state p (Rejected (ErrorObject (JStr EmptyString) (JNum 0))) cell st
      /\ _initializeHandshake_catch (ErrorObject (JStr EmptyString) (JNum 0))
         = ErrorObject (JStr EmptyString) (JNum 0)).
Proof.
  intros Hty Hpay Hp Hs st'. subst st'.
  unfold handshake_onmessage, destructure_connectionTimeoutMs,
    destructure_connection_error.
  rewrite Hty, Hpay.
  cbn [prop GQL_CONNECTION_ERROR GQL_CONNECTION_ACK String.eqb Ascii.eqb Bool.eqb].
  split.
  - intros ty code rest He. rewrite He.
    destruct (assoc "connectionTimeoutMs" fields);
      (split; [apply (settle_pending p _ cell st Hp Hs) | reflexivity]).
  - intros [He | He]; rewrite He;
      destruct (assoc "connectionTimeoutMs" fields);
      (split; [apply (settle_pending p _ cell st Hp Hs) | reflexivity]).
Qed.

(** ** Failing to build the auth headers *)

Lemma calm_refl st : calm st st.
Proof. constructor; auto. Qed.

Lemma calm_trans a b c : calm a b -> calm b c -> calm a c.
Proof. intros [] []. constructor; try congruence. auto. Qed.

Lemma calm_update_this f :
  (forall p, socketStatus (f p) = socketStatus p
             /\ awsRealTimeSocket (f p) = awsRealTimeSocket p
             /\ promiseArray (f p) = promiseArray p) ->
  frames calm (update_this f).
Proof.
  intros Hf st. destruct (Hf (this st)) as (H1 & H2 & H3). constructor; cbn; auto.
Qed.

Lemma calm_update_rt f :
  (forall r, connectCalls (f r) = connectCalls r /\ sockets (f r) = sockets r
             /\ timers (f r) = timers r
             /\ incl (closedObservers r) (closedObservers (f r))) ->
  frames calm (update_rt f).
Proof.
  intros Hf st. destruct (Hf (rt st)) as (H1 & H2 & H3 & H4).
  constructor; cbn; auto.
  unfold is_closed. cbn. intros o Ho. apply existsb_exists in Ho.
  destruct Ho as (x & Hin & Hx). apply existsb_exists. exists x. auto.
Qed.

Ltac calm_tac :=
  repeat first
    [ apply calm_update_this; intros; cbn; solve [auto]
    | apply calm_update_rt; intros;
      repeat match goal with
             | |- context [match ?x with _ => _ end] => destruct x
             end;
      cbn; solve [repeat split; auto using incl_refl, incl_tl]
    | frame_step calm_refl calm_trans ].

Lemma calm_close_subscription o : frames calm (close_subscription o).
Proof.
  unfold close_subscription, observer_closed, cleanup_begin,
    _waitForSubscriptionToBeConnected, get_record, new_promise, fresh, set_record,
    await, enqueue.
  calm_tac.
Qed.

(** An observer is closed once [error] or [complete] was called on it. *)
Lemma close_subscription_closes o st :
  is_closed o (exec (close_subscription o) st) = true.
Proof.
  destruct (is_closed o st) eqn:Hc.
  - apply (calm_closed _ _ (calm_close_subscription o st)). exact Hc.
  - unfold close_subscription, observer_closed. unfold is_closed in Hc.
    cbn -[cleanup_begin]. rewrite Hc. cbn -[cleanup_begin].
    set (st1 := mkState (this st)
                  (set_closedObservers (o :: closedObservers (rt st)) (rt st))
                  (trace st)).
    assert (H1 : is_closed o st1 = true).
    { unfold is_closed. cbn. now rewrite Nat.eqb_refl. }
    destruct (store_get o (cleanups (rt st))) as [id|]; [|exact H1].
    assert (Hcalm : frames calm (cleanup_begin id)).
    { unfold cleanup_begin, _waitForSubscriptionToBeConnected, get_record, new_promise,
        fresh, set_record, await, enqueue. calm_tac. }
    apply (calm_closed _ _ (Hcalm st1)). exact H1.
Qed.

(** [observer.error(e)] or [observer.complete()]: the call is made, the
    observer is closed afterwards, and the connection is not touched. *)
Lemma observer_call_calm (m : ObserverId -> M unit) o e st :
  (forall st, m o st = (emit e ;; close_subscription o) st) ->
  let st' := exec (m o) st in
  trace st' = trace st ++ [e]
  /\ is_closed o st' = true
  /\ socketStatus (this st') = socketStatus (this st)
  /\ awsRealTimeSocket (this st') = awsRealTimeSocket (this st)
  /\ promiseArray (this st') = promiseArray (this st)
  /\ connectCalls (rt st') = connectCalls (rt st)
  /\ sockets (rt st') = sockets (rt st)
  /\ timers (rt st') = timers (rt st).
Proof.
  intros Hm st'. subst st'. unfold exec. rewrite Hm.
  cbn -[close_subscription].
  set (st1 := mkState (this st) (rt st) (trace st ++ [e])).
  destruct (calm_close_subscription o st1) as [H1 H2 H3 H4 H5 H6 H7 H8].
  split; [exact H1|]. split; [apply close_subscription_closes|].
  auto 10.
Qed.

(** The start call whose headers cannot be built goes to the [catch] of
    [subscribe]. *)
Lemma start_headers_throw W st id a c err :
  microtasks (rt st) = [] ->
  map_get id (startCalls (rt st)) = Some c ->
  let options := sc_options c in
  let auth :=
    _awsRealTimeHeaderBasedAuth a (authenticationType options)
      (Stringify (data_object options)) EmptyString options in
  auth = Throws err
  \/ ((exists h, auth = Returned h) /\ graphql_headers options = Some (Throws err)) ->
  step W (SubscriptionHeaders id a) st
  = Some (exec (update_rt (fun r => set_startCalls (map_delete id (startCalls r)) r) ;;
                subscribe_catch W (sc_observer c) err) st).
Proof.
  intros Hq Hc options auth Hfail.
  unfold step. rewrite Hq. cbn [task]. rewrite Hc.
  unfold _startSubscription_headers. fold options. fold auth.
  destruct Hfail as [-> | ((h & ->) & ->)]; reflexivity.
Qed.

(** The [catch] of [subscribe]: the error goes to the observer, which is
    then completed; the connection is not touched. *)
Lemma subscribe_catch_calm W id o err st :
  let st' :=
    exec (update_rt (fun r => set_startCalls (map_delete id (startCalls r)) r) ;;
          subscribe_catch W o err) st in
  trace st'
  = trace st
    ++ [EvObserverError o
          (error_value
             (colon (REALTIME_SUBSCRIPTION_INIT_ERROR (CONTROL_MSG W)) (OfThrown err)));
        EvObserverComplete o]
  /\ is_closed o st' = true
  /\ socketStatus (this st') = socketStatus (this st)
  /\ promiseArray (this st') = promiseArray (this st)
  /\ connectCalls (rt st') = connectCalls (rt st)
  /\ sockets (rt st') = sockets (rt st).
Proof.
  set (e1 := EvObserverError o
               (error_value
                  (colon (REALTIME_SUBSCRIPTION_INIT_ERROR (CONTROL_MSG W)) (OfThrown err)))).
  set (st0 := mkState (this st) (set_startCalls (map_delete id (startCalls (rt st))) (rt st))
                (trace st)).
  set (st1 := exec (observer_error o
                      (error_value
                         (colon (REALTIME_SUBSCRIPTION_INIT_ERROR (CONTROL_MSG W))
                            (OfThrown err)))) st0).
  change (let st' := exec (observer_complete o) st1 in
          trace st' = trace st ++ [e1; EvObserverComplete o]
          /\ is_closed o st' = true
          /\ socketStatus (this st') = socketStatus (this st)
          /\ promiseArray (this st') = promiseArray (this st)
          /\ connectCalls (rt st') = connectCalls (rt st)
          /\ sockets (rt st') = sockets (rt st)).
  destruct (observer_call_calm
              (fun o => observer_error o
                 (error_value
                    (colon (REALTIME_SUBSCRIPTION_INIT_ERROR (CONTROL_MSG W))
                       (OfThrown err)))) o e1 st0 (fun _ => eq_refl))
    as (A1 & A2 & A3 & A4 & A5 & A6 & A7 & A8).
  fold st1 in A1, A2, A3, A4, A5, A6, A7, A8.
  destruct (observer_call_calm observer_complete o (EvObserverComplete o) st1
              (fun _ => eq_refl))
    as (B1 & B2 & B3 & B4 & B5 & B6 & B7 & B8).
  cbv zeta.
  rewrite B1, A1, B3, A3, B5, A5, B6, A6, B7, A7, <- app_assoc.
  repeat split; first [reflexivity | exact B2].
Qed.

(** X11. When the auth headers of a start message cannot be built (the
    auth strategy or [graphql_headers] throws [err]), [observer.error] is
    called with one error made of REALTIME_SUBSCRIPTION_INIT_ERROR and
    [err], then [observer.complete]; no connection is asked for: the status,
    the waiters, the connect calls and the sockets stay as they were, and
    nothing else is called or sent. *)
Theorem X11_start_headers_failure W st id a c err :
  microtasks (rt st) = [] ->
  map_get id (startCalls (rt st)) = Some c ->
  let options := sc_options c in
  let auth :=
    _awsRealTimeHeaderBasedAuth a (authenticationType options)
      (Stringify (data_object options)) EmptyString options in
  auth = Throws err
  \/ ((exists h, auth = Returned h) /\ graphql_headers options = Some (Throws err)) ->
  exists st',
    step W (SubscriptionHeaders id a) st = Some st'
    /\ trace st'
       = trace st
         ++ [EvObserverError (sc_observer c)
               (error_value
                  (colon (REALTIME_SUBSCRIPTION_INIT_ERROR (CONTROL_MSG W)) (OfThrown err)));
             EvObserverComplete (sc_observer c)]
    /\ is_closed (sc_observer c) st' = true
    /\ socketStatus (this st') = socketStatus (this st)
    /\ promiseArray (this st') = promiseArray (this st)
    /\ connectCalls (rt st') = connectCalls (rt st)
    /\ sockets (rt st') = sockets (rt st).
Proof.
  intros Hq Hc options auth Hfail. eexists. split.
  - exact (start_headers_throw W st id a c err Hq Hc Hfail).
  - apply subscribe_catch_calm.
Qed.

(** The provider's own reasons to refuse a mode: no token in
    [additionalHeaders] (AWS_LAMBDA), a cached [federatedInfo] without a
    token (OPENID_CONNECT), no credentials (AWS_IAM). *)
Lemma missing_credentials_throw a payload canonicalUri options reason :
  missing_credentials a options reason ->
  _awsRealTimeHeaderBasedAuth a (authenticationType options) payload canonicalUri options
  = Throws (Error (Lit reason)).
Proof.
  unfold _awsRealTimeHeaderBasedAuth.
  intros [(-> & Hm & ->) | [(-> & Hm & ->) | (-> & Hm & ->)]];
    cbn [headerHandler String.eqb Ascii.eqb Bool.eqb run_handler].
  - unfold _customAuthHeader, lambda_token in *. cbn [in_additionalHeaders].
    destruct (additionalHeaders options) as [additional|]; [|reflexivity].
    destruct (assoc "Authorization" additional) as [[token|]|]; try reflexivity.
    destruct (string_truthy token); [discriminate | reflexivity].
  - unfold _awsRealTimeOPENIDHeader.
    destruct Hm as [-> | ->]; reflexivity.
  - unfold _awsRealTimeIAMHeader, _ensureCredentials.
    destruct (credentials a) as [[creds|]|e]; try reflexivity. contradiction.
Qed.

(** X12. A subscription whose credentials are missing fails before any
    connection is asked for.  In the mode AWS_LAMBDA without a non-empty
    [additionalHeaders.Authorization], in the mode OPENID_CONNECT when the
    cache holds a [federatedInfo] item without a token (the current user is
    not asked then), and in the mode AWS_IAM when [Credentials.get()] rejects
    or resolves to nothing, the observer is handed the init error with the
    text of that mode ("No auth token specified", "No federated jwt",
    "No credentials") and completed; the status, the waiters, the connect
    calls and the sockets stay as they were. *)
Theorem X12_missing_credentials_fail_locally W st id a c reason :
  microtasks (rt st) = [] ->
  map_get id (startCalls (rt st)) = Some c ->
  missing_credentials a (sc_options c) reason ->
  exists st',
    step W (SubscriptionHeaders id a) st = Some st'
    /\ trace st'
       = trace st
         ++ [EvObserverError (sc_observer c)
               (error_value
                  (colon (REALTIME_SUBSCRIPTION_INIT_ERROR (CONTROL_MSG W))
                     (OfThrown (Error (Lit reason)))));
             EvObserverComplete (sc_observer c)]
    /\ socketStatus (this st') = socketStatus (this st)
    /\ promiseArray (this st') = promiseArray (this st)
    /\ connectCalls (rt st') = connectCalls (rt st)
    /\ sockets (rt st') = sockets (rt st).
Proof.
  intros Hq Hc Hm. eexists. split.
  - apply (start_headers_throw W st id a c (Error (Lit reason)) Hq Hc).
    left. now apply missing_credentials_throw.
  - destruct (subscribe_catch_calm W id (sc_observer c) (Error (Lit reason)) st)
      as (H1 & _ & H2).
    auto.
Qed.

(** X13. In every reachable state, when the auth headers of the connection
    cannot be built (the auth strategy throws [err]), no socket is opened
    and no handshake is started: every caller waiting for the connection is
    rejected with [err], the waiter set is emptied, the socket the provider
    remembers is closed with code 3001 if it is open and forgotten, and the
    status goes back to CLOSED. *)
Theorem X13_connection_headers_failure W st call c a err :
  reachable W st ->
  microtasks (rt st) = [] ->
  store_get call (connectCalls (rt st)) = Some c ->
  cc_url c = None ->
  _awsRealTimeHeaderBasedAuth a (authenticationType (cc_options c)) (Lit "{}")
    "/connect" (cc_options c) = Throws err ->
  exists st',
    step W (ConnectionHeaders call a) st = Some st'
    /\ socketStatus (this st') = CLOSED
    /\ awsRealTimeSocket (this st') = None
    /\ promiseArray (this st') = []
    /\ trace st'
       = trace st
         ++ match awsRealTimeSocket (this st) with
            | Some s =>
                match store_get s (sockets (rt st)) with
                | Some w =>
                    match readyState w with
                    | WS_OPEN => [EvSocketClose s (Some 3001%Z)]
                    | _ => []
                    end
                | None => []
                end
            | None => []
            end
    /\ timers (rt st') = timers (rt st)
    /\ connectCalls (rt st') = connectCalls (rt st)
    /\ forall p,
        In p (promiseArray (this st)) ->
        exists cell,
          store_get p (promises (rt st)) = Some cell /\ settled cell = None
          /\ store_get p (promises (rt st'))
             = Some (mkPromiseCell (Some (Rejected err)) (awaiters cell))
          /\ forall k, In k (awaiters cell) -> In (k, Rejected err) (microtasks (rt st')).
Proof.
  intros Hreach Hq Hc Hurl Hauth.
  pose proof (w_pending st (reachable_waiters_pending W st Hreach)) as Hpending.
  exists (exec (connection_failed err) st).
  split.
  { unfold step. rewrite Hq. cbn [task]. rewrite Hc, Hurl.
    unfold _initializeWebSocketConnection_headers, get_call.
    cbn -[connection_failed _awsRealTimeHeaderBasedAuth store_get].
    rewrite Hc. cbn -[connection_failed _awsRealTimeHeaderBasedAuth store_get].
    rewrite Hauth. reflexivity. }
  pose proof (settle_all (Rejected err) (promiseArray (this st)) st) as H.
  pose proof (settling_waiters (promiseArray (this st)) (Rejected err) st) as Hs.
  unfold connection_failed. cbn -[forEach settle socket_is_open socket_close].
  cbn -[forEach settle] in H, Hs.
  set (st1 := snd (forEach (promiseArray (this st))
                     (fun p => settle p (Rejected err)) st)) in *.
  destruct H as [Hthis Htrace Hwaiter _ _]. destruct Hs as [_ Hsockets Htimers _ _].
  assert (Hcalls : connectCalls (rt st1) = connectCalls (rt st)).
  { unfold st1. clear. generalize (promiseArray (this st)). intros l. revert st.
    induction l as [|p l IH]; intros st; [reflexivity|].
    cbn [forEach]. cbn -[forEach settle]. rewrite IH.
    unfold settle. cbn -[forEach].
    destruct (store_get p (promises (rt st))) as [cell|]; [|reflexivity].
    destruct (settled cell); [reflexivity|]. cbn -[forEach].
    match goal with
    | |- context [forEach ?l ?f ?s] =>
        pose proof (forEach_enqueue l (Rejected err) s) as H;
        cbn -[forEach] in H; rewrite H; reflexivity
    end. }
  assert (Hall : forall p, In p (promiseArray (this st)) ->
            exists cell,
              store_get p (promises (rt st)) = Some cell /\ settled cell = None
              /\ store_get p (promises (rt st1))
                 = Some (mkPromiseCell (Some (Rejected err)) (awaiters cell))
              /\ forall k, In k (awaiters cell) ->
                           In (k, Rejected err) (microtasks (rt st1))).
  { intros p Hin. destruct (Hpending p Hin) as (cell & Hcell & Hset).
    exists cell. split; [exact Hcell|]. split; [exact Hset|]. eapply Hwaiter; eauto. }
  rewrite Hthis.
  destruct (awsRealTimeSocket (this st)) as [s|] eqn:Hsock; cbn.
  - unfold socket_is_open, socket_close, when, update_socket. cbn.
    rewrite Hsockets.
    destruct (store_get s (sockets (rt st))) as [w|] eqn:Hw; cbn.
    + destruct (readyState w) eqn:Hr; cbn; rewrite ?Hsockets, ?Hw; cbn;
        rewrite ?Htrace, ?app_nil_r; auto 10.
    + rewrite ?Htrace, ?app_nil_r; auto 10.
  - rewrite ?Htrace, ?app_nil_r; auto 10.
Qed.

Lemma store_get_In_delete {V} (k : nat) (v : V) l : ~ In (k, v) (store_delete k l).
Proof.
  induction l as [|[k' v'] l IH]; cbn; [auto|].
  destruct (Nat.eqb_spec k k') as [-> | Hne]; [exact IH|].
  intros [[= Heq _] | Hin]; [congruence | auto].
Qed.

(** ** The keep-alive timer *)

Lemma keeps_keep_alive_refl st : keeps_keep_alive st st.
Proof. constructor; auto. Qed.

Lemma keeps_keep_alive_trans a b c :
  keeps_keep_alive a b -> keeps_keep_alive b c -> keeps_keep_alive a c.
Proof. intros [] []. constructor; [congruence | auto]. Qed.

Lemma ka_update_this f :
  (forall p, keepAliveTimeoutId (f p) = keepAliveTimeoutId p) ->
  frames keeps_keep_alive (update_this f).
Proof. intros Hf st. constructor; cbn; auto. Qed.

Lemma ka_update_rt f :
  (forall r, incl (timers (f r)) (timers r)) -> frames keeps_keep_alive (update_rt f).
Proof. intros Hf st. constructor; cbn; auto. intros t. apply Hf. Qed.

Lemma ka_emit e : frames keeps_keep_alive (emit e).
Proof. intros st. constructor; cbn; auto. Qed.

Lemma ka_fresh : frames keeps_keep_alive fresh.
Proof. intros st. constructor; cbn; auto. Qed.

Lemma ka_setTimeout task delay :
  task <> KeepAliveTimeout -> frames keeps_keep_alive (setTimeout task delay).
Proof.
  intros Ht st. unfold setTimeout. constructor; cbn; auto.
  intros t Hin. apply in_app_or in Hin. destruct Hin as [Hin | [[= _ Heq] | []]];
    [exact Hin | congruence].
Qed.

Create HintDb keepalive.

Ltac ka_tac :=
  repeat first
    [ apply ka_emit
    | apply ka_fresh
    | apply ka_setTimeout; discriminate
    | solve [auto with keepalive]
    | apply ka_update_this; intros; cbn; reflexivity
    | apply ka_update_rt; intros;
      repeat match goal with
             | |- context [match ?x with _ => _ end] => destruct x
             end;
      cbn; solve [auto using incl_refl, store_delete_incl]
    | frame_step keeps_keep_alive_refl keeps_keep_alive_trans ].

Lemma ka_enqueue k o : frames keeps_keep_alive (enqueue k o).
Proof. unfold enqueue. ka_tac. Qed.
#[local] Hint Resolve ka_enqueue : keepalive.

Lemma ka_new_promise : frames keeps_keep_alive (new_promise).
Proof. unfold new_promise. ka_tac. Qed.
#[local] Hint Resolve ka_new_promise : keepalive.

Lemma ka_await v k : frames keeps_keep_alive (await v k).
Proof. unfold await. ka_tac. Qed.
#[local] Hint Resolve ka_await : keepalive.

Lemma ka_settle p o : frames keeps_keep_alive (settle p o).
Proof. unfold settle. ka_tac. Qed.
#[local] Hint Resolve ka_settle : keepalive.

Lemma ka_call cb : frames keeps_keep_alive (call cb).
Proof. unfold call. ka_tac. Qed.
#[local] Hint Resolve ka_call : keepalive.

Lemma ka_call_if_function cb : frames keeps_keep_alive (call_if_function cb).
Proof. unfold call_if_function. ka_tac. Qed.
#[local] Hint Resolve ka_call_if_function : keepalive.

Lemma ka_clearTimeout t : frames keeps_keep_alive (clearTimeout t).
Proof. unfold clearTimeout. ka_tac. Qed.
#[local] Hint Resolve ka_clearTimeout : keepalive.

Lemma ka_clearTimeout_if_set t : frames keeps_keep_alive (clearTimeout_if_set t).
Proof. unfold clearTimeout_if_set. ka_tac. Qed.
#[local] Hint Resolve ka_clearTimeout_if_set : keepalive.

Lemma ka_update_socket s f : frames keeps_keep_alive (update_socket s f).
Proof. unfold update_socket. ka_tac. Qed.
#[local] Hint Resolve ka_update_socket : keepalive.

Lemma ka_new_WebSocket u : frames keeps_keep_alive (new_WebSocket u).
Proof. unfold new_WebSocket. ka_tac. Qed.
#[local] Hint Resolve ka_new_WebSocket : keepalive.

Lemma ka_socket_close s code : frames keeps_keep_alive (socket_close s code).
Proof. unfold socket_close. ka_tac. Qed.
#[local] Hint Resolve ka_socket_close : keepalive.

Lemma ka_socket_is_open s : frames keeps_keep_alive (socket_is_open s).
Proof. unfold socket_is_open. ka_tac. Qed.
#[local] Hint Resolve ka_socket_is_open : keepalive.

Lemma ka_get_record id : frames keeps_keep_alive (get_record id).
Proof. unfold get_record. ka_tac. Qed.
#[local] Hint Resolve ka_get_record : keepalive.

Lemma ka_set_record id r : frames keeps_keep_alive (set_record id r).
Proof. unfold set_record. ka_tac. Qed.
#[local] Hint Resolve ka_set_record : keepalive.

Lemma ka_waitForSubscriptionToBeConnected id :
  frames keeps_keep_alive (_waitForSubscriptionToBeConnected id).
Proof. unfold _waitForSubscriptionToBeConnected. ka_tac. Qed.
#[local] Hint Resolve ka_waitForSubscriptionToBeConnected : keepalive.

Lemma ka_removeSubscriptionObserver id :
  frames keeps_keep_alive (_removeSubscriptionObserver id).
Proof. unfold _removeSubscriptionObserver. ka_tac. Qed.
#[local] Hint Resolve ka_removeSubscriptionObserver : keepalive.

Lemma ka_closeSocketIfRequired : frames keeps_keep_alive (_closeSocketIfRequired).
Proof. unfold _closeSocketIfRequired. ka_tac. Qed.
#[local] Hint Resolve ka_closeSocketIfRequired : keepalive.

Lemma ka_cleanup_begin id : frames keeps_keep_alive (cleanup_begin id).
Proof. unfold cleanup_begin. ka_tac. Qed.
#[local] Hint Resolve ka_cleanup_begin : keepalive.

Lemma ka_close_subscription o : frames keeps_keep_alive (close_subscription o).
Proof. unfold close_subscription, observer_closed. ka_tac. Qed.
#[local] Hint Resolve ka_close_subscription : keepalive.

Lemma ka_observer_next o v : frames keeps_keep_alive (observer_next o v).
Proof. unfold observer_next. ka_tac. Qed.
#[local] Hint Resolve ka_observer_next : keepalive.

Lemma ka_observer_error o e : frames keeps_keep_alive (observer_error o e).
Proof. unfold observer_error. ka_tac. Qed.
#[local] Hint Resolve ka_observer_error : keepalive.

Lemma ka_observer_complete o : frames keeps_keep_alive (observer_complete o).
Proof. unfold observer_complete. ka_tac. Qed.
#[local] Hint Resolve ka_observer_complete : keepalive.

Lemma ka_errorDisconnect msg : frames keeps_keep_alive (_errorDisconnect msg).
Proof. unfold _errorDisconnect, observer_closed. ka_tac. Qed.
#[local] Hint Resolve ka_errorDisconnect : keepalive.

Lemma ka_timeoutStartSubscriptionAck id :
  frames keeps_keep_alive (_timeoutStartSubscriptionAck id).
Proof. unfold _timeoutStartSubscriptionAck, observer_closed. ka_tac. Qed.
#[local] Hint Resolve ka_timeoutStartSubscriptionAck : keepalive.

Lemma ka_connection_established : frames keeps_keep_alive (connection_established).
Proof. unfold connection_established. ka_tac. Qed.
#[local] Hint Resolve ka_connection_established : keepalive.

Lemma ka_connection_failed err : frames keeps_keep_alive (connection_failed err).
Proof. unfold connection_failed. ka_tac. Qed.
#[local] Hint Resolve ka_connection_failed : keepalive.

Lemma ka_set_call call c : frames keeps_keep_alive (set_call call c).
Proof. unfold set_call. ka_tac. Qed.
#[local] Hint Resolve ka_set_call : keepalive.

Lemma ka_initializeHandshake call : frames keeps_keep_alive (_initializeHandshake call).
Proof. unfold _initializeHandshake, get_call. ka_tac. Qed.
#[local] Hint Resolve ka_initializeHandshake : keepalive.

Lemma ka_initializeHandshake_step2 call :
  frames keeps_keep_alive (_initializeHandshake_step2 call).
Proof. unfold _initializeHandshake_step2, socket_send. ka_tac. Qed.
#[local] Hint Resolve ka_initializeHandshake_step2 : keepalive.

Lemma ka_handshake_attempt_failed W call err :
  frames keeps_keep_alive (handshake_attempt_failed W call err).
Proof. unfold handshake_attempt_failed, get_call. ka_tac. Qed.
#[local] Hint Resolve ka_handshake_attempt_failed : keepalive.

Lemma ka_initializeWebSocketConnection options :
  frames keeps_keep_alive (_initializeWebSocketConnection options).
Proof. unfold _initializeWebSocketConnection. ka_tac. Qed.
#[local] Hint Resolve ka_initializeWebSocketConnection : keepalive.

Lemma ka_initializeWebSocketConnection_headers W a call :
  frames keeps_keep_alive (_initializeWebSocketConnection_headers W a call).
Proof. unfold _initializeWebSocketConnection_headers, get_call. ka_tac. Qed.
#[local] Hint Resolve ka_initializeWebSocketConnection_headers : keepalive.

Lemma ka_handshake_onmessage p m : frames keeps_keep_alive (handshake_onmessage p m).
Proof. unfold handshake_onmessage. ka_tac. Qed.
#[local] Hint Resolve ka_handshake_onmessage : keepalive.

Lemma ka_subscribe_catch W o err : frames keeps_keep_alive (subscribe_catch W o err).
Proof. unfold subscribe_catch. ka_tac. Qed.
#[local] Hint Resolve ka_subscribe_catch : keepalive.

Lemma ka_startSubscription_headers W a c :
  frames keeps_keep_alive (_startSubscription_headers W a c).
Proof. unfold _startSubscription_headers. ka_tac. Qed.
#[local] Hint Resolve ka_startSubscription_headers : keepalive.

Lemma ka_startSubscription_resume W c o :
  frames keeps_keep_alive (_startSubscription_resume W c o).
Proof. unfold _startSubscription_resume, socket_send. ka_tac. Qed.
#[local] Hint Resolve ka_startSubscription_resume : keepalive.

Lemma ka_run_onopen s h : frames keeps_keep_alive (run_onopen s h).
Proof. unfold run_onopen. ka_tac. Qed.
#[local] Hint Resolve ka_run_onopen : keepalive.

Lemma ka_run_onclose W h : frames keeps_keep_alive (run_onclose W h).
Proof. unfold run_onclose. ka_tac. Qed.
#[local] Hint Resolve ka_run_onclose : keepalive.

Lemma ka_run_onerror W h : frames keeps_keep_alive (run_onerror W h).
Proof. unfold run_onerror. ka_tac. Qed.
#[local] Hint Resolve ka_run_onerror : keepalive.

Lemma ka_run_timer W task : frames keeps_keep_alive (run_timer W task).
Proof. unfold run_timer. ka_tac. Qed.
#[local] Hint Resolve ka_run_timer : keepalive.

Lemma ka_socket_send s m : frames keeps_keep_alive (socket_send s m).
Proof. unfold socket_send. ka_tac. Qed.
#[local] Hint Resolve ka_socket_send : keepalive.

Lemma ka_sendUnsubscriptionMessage id :
  frames keeps_keep_alive (_sendUnsubscriptionMessage id).
Proof. unfold _sendUnsubscriptionMessage. ka_tac. Qed.
#[local] Hint Resolve ka_sendUnsubscriptionMessage : keepalive.

Lemma ka_cleanup_resume id o : frames keeps_keep_alive (cleanup_resume id o).
Proof. unfold cleanup_resume. ka_tac. Qed.
#[local] Hint Resolve ka_cleanup_resume : keepalive.

Lemma ka_subscribe W topics options :
  frames keeps_keep_alive (subscribe W topics options).
Proof. unfold subscribe, _startSubscriptionWithAWSAppSyncRealTime. ka_tac. Qed.

Lemma ka_resume W k o : frames keeps_keep_alive (resume W k o).
Proof. unfold resume. ka_tac. Qed.

Lemma one_keep_alive_frame {A} (m : M A) st :
  frames keeps_keep_alive m -> one_keep_alive st -> one_keep_alive (snd (m st)).
Proof.
  intros Hm Hst t Hin. destruct (Hm st) as [Hid Ht]. rewrite Hid. apply Hst, Ht, Hin.
Qed.

(** A keep-alive message clears the timer remembered before it arms the
    next one. *)
Lemma one_keep_alive_message W m st :
  one_keep_alive st -> one_keep_alive (exec (_handleIncomingSubscriptionMessage W m) st).
Proof.
  intros Hst.
  unfold _handleIncomingSubscriptionMessage, dispatchApiEvent. cbv zeta.
  cbn [exec bind]. unfold get_record at 1. cbn [gets fst snd].
  set (r := map_get _ _).
  destruct (String.eqb (m_type m) GQL_DATA && truthy (m_payload m)
            && truthy match m_payload m with
                      | Some p => prop p "data"
                      | None => None
                      end).
  { apply one_keep_alive_frame; [ka_tac | exact Hst]. }
  destruct (String.eqb (m_type m) GQL_START_ACK).
  { apply one_keep_alive_frame; [ka_tac | exact Hst]. }
  destruct (String.eqb (m_type m) GQL_CONNECTION_KEEP_ALIVE).
  2:{ apply one_keep_alive_frame; [ka_tac | exact Hst]. }
  unfold clearTimeout_if_set, clearTimeout, setTimeout.
  cbn -[store_delete].
  intros t Hin.
  assert (Hrest : forall old, In (t, KeepAliveTimeout) (store_delete old (timers (rt st))) ->
                              keepAliveTimeoutId (this st) = Some old -> False).
  { intros old Hin' Hold.
    assert (Hne : t <> old).
    { intros ->. apply store_get_In_delete in Hin'. exact Hin'. }
    apply store_delete_incl in Hin'. apply Hst in Hin'. congruence. }
  destruct (keepAliveTimeoutId (this st)) as [old|] eqn:Hka; cbn -[store_delete] in Hin |- *.
  - apply in_app_or in Hin. destruct Hin as [Hin | [[= <-] | []]]; [|reflexivity].
    exfalso. eapply Hrest; eauto.
  - apply in_app_or in Hin. destruct Hin as [Hin | [[= <-] | []]]; [|reflexivity].
    apply Hst in Hin. congruence.
Qed.

Lemma one_keep_alive_task W a st st' :
  task W a st = Some st' -> one_keep_alive st -> one_keep_alive st'.
Proof.
  intros Ht Hst.
  destruct a as [topics options | o | id a | cid a | s | s | s | s m | s n | t | ];
    cbn [task] in Ht.
  - injection Ht as <-. apply one_keep_alive_frame; [apply ka_subscribe | exact Hst].
  - injection Ht as <-. apply one_keep_alive_frame; [ka_tac | exact Hst].
  - destruct (map_get id (startCalls (rt st))) as [c|]; [|discriminate].
    injection Ht as <-.
    apply (one_keep_alive_frame
             (update_rt (fun r => set_startCalls (map_delete id (startCalls r)) r) ;;
              _startSubscription_headers W a c)); [ka_tac | exact Hst].
  - destruct (store_get cid (connectCalls (rt st))) as [c|]; [|discriminate].
    destruct (cc_url c); [discriminate|]. injection Ht as <-.
    apply one_keep_alive_frame; [ka_tac | exact Hst].
  - destruct (store_get s (sockets (rt st))) as [w|]; [|discriminate].
    destruct (readyState w); try discriminate. injection Ht as <-.
    apply (one_keep_alive_frame (update_socket s (set_readyState WS_OPEN) ;;
                                 run_onopen s (onopen w))); [ka_tac | exact Hst].
  - destruct (store_get s (sockets (rt st))) as [w|]; [|discriminate].
    assert (H : one_keep_alive
                  (snd ((update_socket s (set_readyState WS_CLOSED) ;;
                         run_onclose W (onclose w)) st)))
      by (apply one_keep_alive_frame; [ka_tac | exact Hst]).
    destruct (readyState w); try discriminate; injection Ht as <-; exact H.
  - destruct (store_get s (sockets (rt st))) as [w|]; [|discriminate].
    injection Ht as <-. apply one_keep_alive_frame; [ka_tac | exact Hst].
  - destruct (store_get s (sockets (rt st))) as [w|]; [|discriminate].
    assert (H : one_keep_alive (snd (run_onmessage W (onmessage w) m st))).
    { unfold run_onmessage. destruct (onmessage w) as [[p|]|].
      - apply one_keep_alive_frame; [ka_tac | exact Hst].
      - now apply one_keep_alive_message.
      - exact Hst. }
    destruct (readyState w); try discriminate; injection Ht as <-; exact H.
  - destruct (store_get s (sockets (rt st))) as [w|]; [|discriminate].
    injection Ht as <-.
    apply (one_keep_alive_frame (update_socket s (set_bufferedAmount n)));
      [ka_tac | exact Hst].
  - destruct (store_get t (timers (rt st))) as [tk|]; [|discriminate].
    injection Ht as <-.
    apply (one_keep_alive_frame
             (update_rt (fun r => set_timers (store_delete t (timers r)) r) ;;
              run_timer W tk)); [ka_tac | exact Hst].
  - discriminate.
Qed.

(** X14. In every reachable state at most one keep-alive timer is armed,
    and it is the one the provider remembers in [keepAliveTimeoutId]: the
    one the next keep-alive message, or the closing of the idle socket,
    clears. *)
Theorem X14_one_keep_alive_timer W st t t' :
  reachable W st ->
  In (t, KeepAliveTimeout) (timers (rt st)) ->
  (keepAliveTimeoutId (this st) = Some t)
  /\ (In (t', KeepAliveTimeout) (timers (rt st)) -> t' = t).
Proof.
  intros Hreach.
  assert (H : one_keep_alive st).
  { induction Hreach as [|a st st' Hr IH Hstep].
    - intros x [].
    - unfold step in Hstep.
      destruct (microtasks (rt st)) as [|[k o] rest] eqn:Hq.
      + destruct a; try discriminate; eapply one_keep_alive_task; eauto.
      + destruct a; try discriminate. injection Hstep as <-.
        apply (one_keep_alive_frame (update_rt (set_microtasks rest) ;; resume W k o));
          [|exact IH].
        pose proof ka_resume. ka_tac. }
  intros Hin. split; [apply H, Hin|].
  intros Hin'. apply H in Hin. apply H in Hin'. congruence.
Qed.

(** ** The start message *)

Lemma assoc_obj_set k k' v (h : Headers) :
  assoc k (obj_set k' v h) = if String.eqb k k' then Some v else assoc k h.
Proof.
  induction h as [|[k2 v2] h IH]; cbn.
  - reflexivity.
  - destruct (String.eqb_spec k' k2) as [-> | Hne]; cbn.
    + destruct (String.eqb k k2); reflexivity.
    + rewrite IH. destruct (String.eqb_spec k k2) as [-> | Hne2].
      * destruct (String.eqb_spec k2 k'); [congruence | reflexivity].
      * reflexivity.
Qed.

Lemma assoc_app {V} k (l l' : list (string * V)) :
  assoc k (l ++ l') = match assoc k l with Some v => Some v | None => assoc k l' end.
Proof.
  induction l as [|[k2 v2] l IH]; cbn; [reflexivity|].
  destruct (String.eqb k k2); auto.
Qed.

Lemma assoc_obj_spread k (a b : Headers) :
  assoc k (obj_spread a b)
  = match last_value k b with Some v => Some v | None => assoc k a end.
Proof.
  unfold obj_spread, last_value. revert a.
  induction b as [|[k2 v2] b IH]; intros a; cbn [fold_left rev fst snd].
  - reflexivity.
  - rewrite IH, assoc_app, assoc_obj_set. cbn [assoc].
    destruct (assoc k (rev b)); [reflexivity|].
    destruct (String.eqb k k2); reflexivity.
Qed.

(** X15. The headers of the start message are merged so that later
    sources win: the user agent entry is always the one of the library;
    otherwise an entry of [additionalHeaders] replaces one of
    [graphql_headers()], which replaces one of the auth headers. *)
Theorem X15_start_header_precedence W auth extra additional k :
  assoc k (start_message_headers W auth extra additional)
  = if String.eqb k (USER_AGENT_HEADER W) then Some (Some (userAgent W))
    else match last_value k additional with
         | Some v => Some v
         | None =>
             match last_value k extra with
             | Some v => Some v
             | None => assoc k (spread_auth auth)
             end
         end.
Proof.
  unfold start_message_headers.
  rewrite assoc_obj_set, !assoc_obj_spread. reflexivity.
Qed.


(** X17. For each of the five supported modes the auth headers are a
    header object or a failure, never the empty string that an unsupported
    mode yields. *)
Theorem X17_supported_modes_give_headers a payload canonicalUri options mode handler :
  headerHandler mode = Some handler ->
  (exists h, _awsRealTimeHeaderBasedAuth a (Some mode) payload canonicalUri options
             = Returned (HeaderObject h))
  \/ (exists e, _awsRealTimeHeaderBasedAuth a (Some mode) payload canonicalUri options
                = Throws e).
Proof.
  intros Hh. unfold _awsRealTimeHeaderBasedAuth. rewrite Hh.
  destruct handler; cbn [run_handler].
  - left. eexists. reflexivity.
  - unfold _awsRealTimeIAMHeader, _ensureCredentials.
    destruct (credentials a) as [[creds|]|e]; [left | right | right]; eexists; reflexivity.
  - unfold _awsRealTimeOPENIDHeader.
    destruct (federatedInfo a) as [t|].
    + destruct (opt_string_truthy t); [left | right]; eexists; reflexivity.
    + destruct (currentAuthenticatedUser a) as [[t|]|e]; cbv zeta;
        try destruct (opt_string_truthy t);
        first [left; eexists; reflexivity | right; eexists; reflexivity].
  - unfold _awsRealTimeCUPHeader.
    destruct (currentSession a); [left | right]; eexists; reflexivity.
  - unfold _customAuthHeader. cbn [in_additionalHeaders].
    destruct (additionalHeaders options) as [additional|];
      [|right; eexists; reflexivity].
    destruct (assoc "Authorization" additional) as [[token|]|];
      try (right; eexists; reflexivity).
    destruct (string_truthy token); [left | right]; eexists; reflexivity.
Qed.

(** X18. On an established connection the start message goes out at once.
    With the status READY, the start call whose headers can be built calls
    nothing in its own task.  In the next microtask it arms the ack timer
    of 15000 ms, stores the record as PENDING with that timer and with the
    callbacks the record had, and sends exactly one message to the socket:
    the start message with the id, the data string and the merged headers.
    No waiter is added and the status stays READY. *)
Theorem X18_start_on_established_connection W st id a c h extra s :
  microtasks (rt st) = [] ->
  map_get id (startCalls (rt st)) = Some c ->
  let options := sc_options c in
  let dataString := Stringify (data_object options) in
  _awsRealTimeHeaderBasedAuth a (authenticationType options) dataString EmptyString options
  = Returned h ->
  match graphql_headers options with
  | Some r => r
  | None => Returned []
  end = Returned extra ->
  socketStatus (this st) = READY ->
  awsRealTimeSocket (this st) = Some s ->
  let headerObj :=
    start_message_headers W h extra
      (match additionalHeaders options with Some x => x | None => [] end) in
  let t := nextId (rt st) in
  let r := map_get (sc_subscriptionId c) (subscriptionObserverMap (this st)) in
  exists st1 st2,
    step W (SubscriptionHeaders id a) st = Some st1
    /\ trace st1 = trace st
    /\ step W Microtask st1 = Some st2
    /\ trace st2
       = trace st
         ++ [EvSetTimeout t (StartAckTimeout (sc_subscriptionId c)) (JNum 15000);
             EvSocketSend s (Start (sc_subscriptionId c) dataString headerObj)]
    /\ In (t, StartAckTimeout (sc_subscriptionId c)) (timers (rt st2))
    /\ map_get (sc_subscriptionId c) (subscriptionObserverMap (this st2))
       = Some {| observer := sc_observer c;
                 subscriptionState := PENDING;
                 query := query_or_default options;
                 variables := variables_or_default options;
                 subscriptionReadyCallback :=
                   match r with Some r => subscriptionReadyCallback r | None => None end;
                 subscriptionFailedCallback :=
                   match r with Some r => subscriptionFailedCallback r | None => None end;
                 startAckTimeoutId := Some t |}
    /\ socketStatus (this st2) = READY
    /\ promiseArray (this st2) = promiseArray (this st).
Proof.
  intros Hq Hc options dataString Hauth Hextra Hready Hsock headerObj t r.
  eexists. eexists. split.
  { unfold step. rewrite Hq. cbn [task]. rewrite Hc.
    unfold _startSubscription_headers. fold options. fold dataString.
    rewrite Hauth, Hextra. reflexivity. }
  unfold _initializeWebSocketConnection, await, enqueue.
  cbn -[map_get map_set map_delete store_get store_set]. rewrite Hready.
  cbn -[map_get map_set map_delete store_get store_set]. rewrite Hq.
  split; [reflexivity|].
  split.
  { unfold step. cbn -[map_get map_set map_delete store_get store_set resume]. reflexivity. }
  cbn [resume]. unfold _startSubscription_resume, get_record, setTimeout, set_record,
    socket_send.
  cbn -[map_get map_set map_delete store_get store_set]. rewrite Hsock.
  cbn -[map_get map_set map_delete store_get store_set].
  split; [rewrite <- !app_assoc; reflexivity|].
  split; [apply in_or_app; right; now left|].
  split; [apply map_get_set_same|].
  split; [exact Hready | reflexivity].
Qed.


(** * The address of the socket *)

Section Address.
Import Ascii.

(** ** Strings *)

Lemma append_nil_r s : (s ++ EmptyString)%string = s.
Proof. induction s as [|c s IH]; cbn; congruence. Qed.

Lemma append_assoc a b c : ((a ++ b) ++ c)%string = (a ++ b ++ c)%string.
Proof. induction a as [|x a IH]; cbn; congruence. Qed.

Lemma append_eq_nil a b : (a ++ b)%string = EmptyString -> a = EmptyString /\ b = EmptyString.
Proof. destruct a; cbn; [auto | discriminate]. Qed.

Lemma starts_with_app p b : starts_with p (p ++ b) = true.
Proof. induction p as [|c p IH]; cbn; [reflexivity|]. now rewrite eqb_refl. Qed.

Lemma drop_app p b : drop (String.length p) (p ++ b) = b.
Proof. induction p as [|c p IH]; cbn; auto. Qed.

Lemma replace_unfold p r s :
  replace p r s =
  if starts_with p s then (r ++ drop (String.length p) s)%string
  else match s with
       | EmptyString => EmptyString
       | String c s' => String c (replace p r s')
       end.
Proof. destruct s; reflexivity. Qed.

Lemma contains_unfold p s :
  contains p s =
  starts_with p s
  || match s with
     | EmptyString => false
     | String _ s' => contains p s'
     end.
Proof. destruct s; reflexivity. Qed.

(** An occurrence at the start is the one that is replaced. *)
Lemma replace_prefix p r b : replace p r (p ++ b) = (r ++ b)%string.
Proof. rewrite replace_unfold, starts_with_app, drop_app. reflexivity. Qed.

(** Without an occurrence nothing is replaced. *)
Lemma replace_none p r s : contains p s = false -> replace p r s = s.
Proof.
  induction s as [|c s IH]; rewrite contains_unfold, replace_unfold;
    intros H; apply orb_false_elim in H; destruct H as [H1 H2]; rewrite H1.
  - reflexivity.
  - now rewrite IH.
Qed.

Lemma occurs_app c a b : occurs c (a ++ b) = occurs c a || occurs c b.
Proof.
  induction a as [|x a IH]; cbn; [reflexivity|].
  now rewrite IH, orb_assoc.
Qed.

(** A pattern without the code unit [c] does not reach across a [c]. *)
Lemma starts_with_sep p c a b :
  occurs c p = false -> starts_with p (a ++ String c b) = starts_with p a.
Proof.
  revert a. induction p as [|x p IH]; intros a H; [now destruct a|].
  cbn in H. apply orb_false_elim in H. destruct H as [Hx Hp].
  destruct a as [|y a]; cbn.
  - now rewrite eqb_sym, Hx.
  - now rewrite IH.
Qed.

Lemma drop_starts_with p a t :
  starts_with p a = true ->
  drop (String.length p) (a ++ t) = (drop (String.length p) a ++ t)%string.
Proof.
  revert a. induction p as [|x p IH]; intros a H; [reflexivity|].
  destruct a as [|y a]; cbn in H; [discriminate|].
  apply andb_prop in H. cbn. now apply IH.
Qed.

Lemma contains_app_sep p c a b :
  occurs c p = false ->
  contains p (a ++ String c b) = contains p a || contains p b.
Proof.
  intros H. induction a as [|y a IH].
  - pose proof (starts_with_sep p c EmptyString b H) as E. cbn [append] in *.
    rewrite (contains_unfold p (String c b)), E. cbn.
    now rewrite orb_false_r.
  - cbn [append]. rewrite (contains_unfold p (String y (a ++ String c b))).
    rewrite (contains_unfold p (String y a)).
    change (String y (a ++ String c b)) with (String y a ++ String c b)%string.
    rewrite (starts_with_sep p c (String y a) b H), IH.
    now rewrite orb_assoc.
Qed.

(** Replacing the first occurrence, on the two sides of a code unit that
    the pattern does not have. *)
Lemma replace_app_sep p r c a b :
  occurs c p = false ->
  replace p r (a ++ String c b) =
  if contains p a then (replace p r a ++ String c b)%string
  else (a ++ String c (replace p r b))%string.
Proof.
  intros H. induction a as [|y a IH].
  - pose proof (starts_with_sep p c EmptyString b H) as E. cbn [append] in *.
    rewrite (replace_unfold p r (String c b)), E.
    destruct p as [|x p]; cbn; [|reflexivity].
    now rewrite append_nil_r.
  - rewrite (contains_unfold p (String y a)), (replace_unfold p r (String y a)).
    rewrite (replace_unfold p r (String y a ++ String c b)).
    rewrite (starts_with_sep p c (String y a) b H).
    destruct (starts_with p (String y a)) eqn:Hs.
    + cbn [orb]. rewrite (drop_starts_with p (String y a) _ Hs).
      now rewrite append_assoc.
    + cbn [orb append]. rewrite IH. now destruct (contains p a).
Qed.

Lemma occurs_drop_S c n s :
  occurs c (drop n s) = false -> occurs c (drop (S n) s) = false.
Proof.
  revert s. induction n as [|n IH]; intros [|x s]; cbn; auto.
  - intros H. apply orb_false_elim in H. destruct H as [_ H]. now destruct s.
  - intros H. apply (IH s) in H. exact H.
Qed.

Lemma starts_with_marker u c v s :
  starts_with (u ++ String c v) s = true -> occurs c (drop (String.length u) s) = true.
Proof.
  revert s. induction u as [|x u IH]; intros [|y s]; cbn; try discriminate.
  - intros H. apply andb_prop in H. destruct H as [H _]. now rewrite H.
  - intros H. apply andb_prop in H. destruct H as [_ H]. now apply IH.
Qed.

(** A pattern does not occur where one of its code units is missing. *)
Lemma contains_marker u c v s :
  occurs c (drop (String.length u) s) = false ->
  contains (u ++ String c v) s = false.
Proof.
  induction s as [|y s IH]; intros H; rewrite contains_unfold.
  - destruct (starts_with (u ++ String c v) EmptyString) eqn:Hs; [|reflexivity].
    apply starts_with_marker in Hs. congruence.
  - destruct (starts_with (u ++ String c v) (String y s)) eqn:Hs.
    + apply starts_with_marker in Hs. congruence.
    + cbn [orb]. apply IH.
      destruct u as [|x u].
      * cbn in *. apply orb_false_elim in H. tauto.
      * cbn [String.length drop] in H. now apply occurs_drop_S.
Qed.

Lemma occurs_drop c n s : occurs c s = false -> occurs c (drop n s) = false.
Proof.
  intros H. induction n as [|n IH]; [now destruct s | now apply occurs_drop_S].
Qed.

Lemma all_chars_occurs P c s :
  all_chars P s = true -> P c = false -> occurs c s = false.
Proof.
  intros Hs Hc. induction s as [|x s IH]; cbn in *; [reflexivity|].
  apply andb_prop in Hs. destruct Hs as [Hx Hs].
  rewrite (IH Hs), orb_false_r.
  destruct (eqb_spec c x) as [->|]; congruence.
Qed.

Lemma all_chars_app P a b : all_chars P (a ++ b) = all_chars P a && all_chars P b.
Proof.
  induction a as [|x a IH]; cbn; [reflexivity|]. now rewrite IH, andb_assoc.
Qed.

Lemma all_chars_weaken (P Q : ascii -> bool) s :
  (forall c, P c = true -> Q c = true) -> all_chars P s = true -> all_chars Q s = true.
Proof.
  intros HPQ. induction s as [|x s IH]; cbn; [reflexivity|].
  intros H. apply andb_prop in H. destruct H as [Hx Hs].
  now rewrite (HPQ x Hx), IH.
Qed.

(** The replacement of a pattern brings the code units of the
    replacement only. *)
Lemma all_chars_drop P n s : all_chars P s = true -> all_chars P (drop n s) = true.
Proof.
  revert s. induction n as [|n IH]; intros [|x s]; cbn; auto.
  intros H. apply andb_prop in H. now apply IH.
Qed.

Lemma all_chars_replace P p r s :
  all_chars P r = true -> all_chars P s = true -> all_chars P (replace p r s) = true.
Proof.
  intros Hr. induction s as [|x s IH]; intros Hs; rewrite replace_unfold.
  - destruct (starts_with p EmptyString); [|reflexivity].
    rewrite all_chars_app, Hr. now destruct (String.length p).
  - destruct (starts_with p (String x s)).
    + rewrite all_chars_app, Hr. now apply all_chars_drop.
    + cbn in *. apply andb_prop in Hs. destruct Hs as [Hx Hs].
      now rewrite Hx, IH.
Qed.

(** ** Matching *)

Lemma nullable_lang r : nullable r = true <-> lang r EmptyString.
Proof.
  split.
  - induction r; cbn; intros H; try discriminate.
    + constructor.
    + apply andb_prop in H. destruct H as [H1 H2].
      change EmptyString with (EmptyString ++ EmptyString)%string.
      constructor; auto.
    + apply orb_prop in H. destruct H; [apply lang_Alt_l | apply lang_Alt_r]; auto.
    + constructor.
  - intros H. remember EmptyString as s eqn:Hs.
    induction H; cbn; try discriminate; auto.
    + apply append_eq_nil in Hs. destruct Hs. now rewrite IHlang1, IHlang2.
    + now rewrite IHlang.
    + rewrite IHlang; auto using orb_true_r.
Qed.

Lemma lang_Star_cons_inv a c s :
  lang (Star a) (String c s) ->
  exists s1 s2, s = (s1 ++ s2)%string /\ lang a (String c s1) /\ lang (Star a) s2.
Proof.
  intros H. remember (Star a) as r eqn:Hr. remember (String c s) as w eqn:Hw.
  induction H as [| | | | | |a' s1 t1 H1 IH1 H2 IH2]; try discriminate.
  injection Hr as ->.
  destruct s1 as [|x s1]; cbn in Hw.
  - auto.
  - injection Hw as -> <-. eauto.
Qed.

Lemma lang_Seq_inv a b s :
  lang (Seq a b) s -> exists s1 s2, s = (s1 ++ s2)%string /\ lang a s1 /\ lang b s2.
Proof. intros H. inversion H; subst. eauto. Qed.

Lemma lang_Alt_inv a b s : lang (Alt a b) s -> lang a s \/ lang b s.
Proof. intros H. inversion H; subst; auto. Qed.

Lemma lang_Class_inv f s :
  lang (Class f) s -> exists c, s = String c EmptyString /\ f c = true.
Proof. intros H. inversion H; subst. eauto. Qed.

Lemma lang_Seq_cons a b c s t :
  lang a (String c s) -> lang b t -> lang (Seq a b) (String c (s ++ t)).
Proof.
  intros Ha Hb. change (String c (s ++ t)) with (String c s ++ t)%string.
  now constructor.
Qed.

Lemma deriv_lang c r s : lang (deriv c r) s <-> lang r (String c s).
Proof.
  revert s. induction r as [| |f|a IHa b IHb|a IHa b IHb|a IHa]; intros s; cbn.
  - split; intros H; inversion H.
  - split; intros H; inversion H.
  - split; intros H.
    + destruct (f c) eqn:Hf; inversion H; subst. now constructor.
    + apply lang_Class_inv in H. destruct H as (x & [= <- ->] & Hf).
      rewrite Hf. constructor.
  - split; intros H.
    + assert (Hseq : lang (Seq (deriv c a) b) s -> lang (Seq a b) (String c s)).
      { intros H'. apply lang_Seq_inv in H'. destruct H' as (s1 & s2 & -> & H1 & H2).
        apply lang_Seq_cons; [now apply IHa | assumption]. }
      destruct (nullable a) eqn:Hn; [|auto].
      apply lang_Alt_inv in H. destruct H as [H | H]; [auto|].
      change (String c s) with (EmptyString ++ String c s)%string.
      constructor; [now apply nullable_lang | now apply IHb].
    + apply lang_Seq_inv in H. destruct H as (s1 & s2 & E & H1 & H2).
      destruct s1 as [|x s1]; cbn in E.
      * subst s2. apply nullable_lang in H1. rewrite H1.
        apply lang_Alt_r. now apply IHb.
      * injection E as <- ->.
        assert (Hseq : lang (Seq (deriv c a) b) (s1 ++ s2)).
        { constructor; [now apply IHa | assumption]. }
        destruct (nullable a); [now apply lang_Alt_l | assumption].
  - split; intros H; apply lang_Alt_inv in H;
      (destruct H as [H | H]; [apply lang_Alt_l; now apply IHa | apply lang_Alt_r; now apply IHb]).
  - split; intros H.
    + apply lang_Seq_inv in H. destruct H as (s1 & s2 & -> & H1 & H2).
      change (String c (s1 ++ s2)) with (String c s1 ++ s2)%string.
      constructor; [now apply IHa | assumption].
    + apply lang_Star_cons_inv in H. destruct H as (s1 & s2 & -> & H1 & H2).
      constructor; [now apply IHa | assumption].
Qed.

(** [matches] decides the language. *)
Lemma matches_lang r s : matches r s = true <-> lang r s.
Proof.
  revert r. induction s as [|c s IH]; intros r; cbn.
  - apply nullable_lang.
  - rewrite IH. apply deriv_lang.
Qed.

Lemma same_letter_refl c : same_letter c c = true.
Proof. apply Nat.eqb_refl. Qed.

Lemma lang_Literal p : lang (Literal p) p.
Proof.
  induction p as [|c p IH]; cbn; [constructor|].
  change (String c p) with (String c EmptyString ++ p)%string.
  constructor; [|assumption]. constructor. apply same_letter_refl.
Qed.

(** The code units of a string of the language are of its classes. *)
Lemma lang_all_chars P r s : classes_within P r -> lang r s -> all_chars P s = true.
Proof.
  intros Hr H. induction H; cbn in *; auto.
  - rewrite (Hr c H). reflexivity.
  - destruct Hr. rewrite all_chars_app, IHlang1, IHlang2; auto.
  - destruct Hr. auto.
  - destruct Hr. auto.
  - rewrite all_chars_app, IHlang1, IHlang2; auto.
Qed.

(** ** The classes of the pattern *)

Ltac ascii_cases c :=
  destruct c as [[] [] [] [] [] [] [] []]; vm_compute;
  intros; first [reflexivity | discriminate].

Lemma word_char_region c : word_char c = true -> region_char c = true.
Proof. unfold region_char. now intros ->. Qed.

Lemma hyphen_region c : same_letter "-" c = true -> region_char c = true.
Proof. ascii_cases c. Qed.

Lemma digit_char_region c : digit_char c = true -> region_char c = true.
Proof. ascii_cases c. Qed.

(** An API id is made of the code units of [\w]. *)
Lemma id_chars id : matches apiIdPattern id = true -> all_chars word_char id = true.
Proof.
  intros H. apply matches_lang in H. revert H. apply lang_all_chars.
  unfold apiIdPattern. cbn. repeat split; auto.
Qed.

(** A region is made of the code units of [\w] and of hyphens. *)
Lemma region_chars region :
  matches regionPattern region = true -> all_chars region_char region = true.
Proof.
  intros H. apply matches_lang in H. revert H. apply lang_all_chars.
  unfold regionPattern, Plus, AtLeast. cbn.
  repeat split; auto using word_char_region, hyphen_region, digit_char_region.
Qed.

Lemma occurs_cons c x s : occurs c (String x s) = eqb c x || occurs c s.
Proof. reflexivity. Qed.

(** What is put for a pattern begins with a code unit that [q] does not
    have: the result does not begin with [q] unless the string did. *)
Lemma starts_with_replace q p w r s :
  occurs w q = false -> starts_with q s = false ->
  starts_with q (replace p (String w r) s) = false.
Proof.
  revert s. induction q as [|x q IH]; intros s Hw Hs; [now destruct s|].
  cbn in Hw. apply orb_false_elim in Hw. destruct Hw as [Hx Hq].
  rewrite replace_unfold. destruct (starts_with p s).
  - cbn. now rewrite eqb_sym, Hx.
  - destruct s as [|c s]; [reflexivity|]. cbn in *.
    destruct (eqb x c); [|reflexivity]. cbn in *. now apply IH.
Qed.

Lemma starts_with_replace_self q w r s :
  occurs w q = false -> q <> EmptyString ->
  starts_with q (replace q (String w r) s) = false.
Proof.
  intros Hw Hq. destruct (starts_with q s) eqn:Hs.
  - rewrite replace_unfold, Hs. destruct q as [|x q]; [congruence|].
    cbn in *. apply orb_false_elim in Hw. destruct Hw as [Hx _].
    now rewrite eqb_sym, Hx.
  - now apply starts_with_replace.
Qed.

Lemma protocol_w ssl : exists r, protocol ssl = String "w" r.
Proof. destruct ssl; cbn; eauto. Qed.

(** ** The address *)

(** X20. The endpoint of an AppSync API, [https://<id>.appsync-api.<region>.amazonaws.com/graphql]
    with an id of 26 word characters and a region such as [us-east-1], is
    no custom domain, and its socket is opened at
    [wss://<id>.appsync-realtime-api.<region>.amazonaws.com/graphql]
    ([ws://] when SSL is switched off), with [grt-beta] for a [gogi-beta]
    of the region. *)
Theorem X20_standard_endpoint_address ssl id region :
  matches apiIdPattern id = true ->
  matches regionPattern region = true ->
  let e := ("https://" ++ id ++ ".appsync-api." ++ region
              ++ ".amazonaws.com/graphql")%string in
  isCustomDomain e = false
  /\ discoverableEndpoint ssl e =
     (protocol ssl ++ id ++ ".appsync-realtime-api."
        ++ replace "gogi-beta" "grt-beta" region ++ ".amazonaws.com/graphql")%string.
Proof.
  intros Hid Hregion e.
  pose proof (id_chars id Hid) as Cid.
  pose proof (region_chars region Hregion) as Creg.
  assert (Hstd : matches standardDomainPattern e = true).
  { apply matches_lang. apply matches_lang in Hid, Hregion.
    unfold standardDomainPattern, e.
    constructor; [apply lang_Literal|].
    constructor; [exact Hid|].
    constructor; [apply lang_Literal|].
    change ".amazonaws.com/graphql"
      with (".amazonaws" ++ "." ++ "com/graphql")%string.
    constructor; [exact Hregion|].
    constructor; [apply lang_Literal|].
    constructor; [now constructor | apply lang_Literal]. }
  unfold discoverableEndpoint, isCustomDomain. rewrite Hstd. cbn [negb].
  split; [reflexivity|].
  set (suffix := "amazonaws.com/graphql").
  set (region' := replace "gogi-beta" "grt-beta" region).
  assert (Hdash : occurs "-" id = false)
    by (apply (all_chars_occurs word_char); [exact Cid | reflexivity]).
  assert (Hcolon : occurs ":" id = false)
    by (apply (all_chars_occurs word_char); [exact Cid | reflexivity]).
  assert (Hcolon' : occurs ":" region' = false).
  { apply (all_chars_occurs region_char); [|reflexivity].
    now apply all_chars_replace. }
  (* appsync-api *)
  assert (E1 : e = (("https://" ++ id)
                      ++ String "." ("appsync-api"
                      ++ String "." (region ++ String "." suffix)))%string)
    by reflexivity.
  rewrite E1. clear E1.
  rewrite (replace_app_sep "appsync-api" "appsync-realtime-api" "." _ _ eq_refl).
  assert (K1 : contains "appsync-api" ("https://" ++ id) = false).
  { apply (contains_marker "appsync" "-" "api"). cbn. now rewrite Hdash. }
  rewrite K1, replace_prefix.
  (* gogi-beta *)
  rewrite (replace_app_sep "gogi-beta" "grt-beta" "." ("https://" ++ id) _ eq_refl).
  assert (K2 : contains "gogi-beta" ("https://" ++ id) = false).
  { apply (contains_marker "gogi" "-" "beta"). cbn. now rewrite Hdash. }
  rewrite K2.
  rewrite (replace_app_sep "gogi-beta" "grt-beta" "." "appsync-realtime-api"
             (region ++ String "." suffix) eq_refl).
  change (contains "gogi-beta" "appsync-realtime-api") with false. cbv iota.
  assert (K4 : replace "gogi-beta" "grt-beta" (region ++ String "." suffix)
               = (region' ++ String "." suffix)%string).
  { rewrite (replace_app_sep "gogi-beta" "grt-beta" "." region suffix eq_refl).
    destruct (contains "gogi-beta" region) eqn:Hc; [reflexivity|].
    unfold region'. now rewrite (replace_none _ _ region Hc). }
  rewrite K4.
  (* https:// *)
  rewrite append_assoc, replace_prefix.
  (* http:// *)
  set (rest := (id ++ String "." ("appsync-realtime-api"
                  ++ String "." (region' ++ String "." suffix)))%string).
  assert (K5 : occurs ":" rest = false).
  { unfold rest. rewrite (occurs_app ":" id), Hcolon.
    change (occurs ":" (".appsync-realtime-api." ++ region' ++ String "." suffix) = false).
    now rewrite (occurs_app ":" ".appsync-realtime-api."), (occurs_app ":" region'), Hcolon'. }
  rewrite replace_none.
  - reflexivity.
  - apply (contains_marker "http" ":" "//"). destruct ssl; cbn; exact K5.
Qed.

Lemma replace_cons_ne p r c s :
  starts_with p (String c s) = false ->
  replace p r (String c s) = String c (replace p r s).
Proof. intros H. now rewrite replace_unfold, H. Qed.

(** X21. A custom domain given with [https://] has its socket opened at the
    same place with [wss://] ([ws://] when SSL is switched off); the first
    [http://] of the rest is rewritten as well. *)
Theorem X21_custom_https_address ssl h :
  isCustomDomain ("https://" ++ h) = true ->
  discoverableEndpoint ssl ("https://" ++ h)
  = (protocol ssl ++ replace "http://" (protocol ssl) h)%string.
Proof.
  intros Hc. unfold discoverableEndpoint. rewrite Hc.
  unfold customDomainPath. rewrite append_nil_r, replace_prefix.
  destruct ssl; cbn [protocol append];
    rewrite !replace_cons_ne by reflexivity; reflexivity.
Qed.

Lemma lang_Literal_prefix p s t : lang (Literal p) s -> starts_with_i p (s ++ t) = true.
Proof.
  revert s. induction p as [|c p IH]; intros s H; [reflexivity|].
  cbn [Literal] in H. apply lang_Seq_inv in H. destruct H as (a & b & -> & Ha & Hb).
  apply lang_Class_inv in Ha. destruct Ha as (x & -> & Hx).
  cbn. rewrite Hx. now apply IH.
Qed.

(** A standard domain is given with [https://], in small or capital
    letters. *)
Lemma standard_domain_scheme e :
  isCustomDomain e = false -> starts_with_i "https://" e = true.
Proof.
  unfold isCustomDomain. intros H. apply negb_false_iff, matches_lang in H.
  unfold standardDomainPattern in H.
  apply lang_Seq_inv in H. destruct H as (a & b & -> & Ha & _).
  now apply lang_Literal_prefix.
Qed.

(** X22. An endpoint given with [http://] is a custom domain, and its socket
    is opened at the same place with [ws://], or [wss://] unless SSL is
    switched off; the first [https://] of the rest is rewritten as well. *)
Theorem X22_http_address ssl h :
  isCustomDomain ("http://" ++ h) = true
  /\ discoverableEndpoint ssl ("http://" ++ h)
     = (protocol ssl ++ replace "https://" (protocol ssl) h)%string.
Proof.
  assert (Hc : isCustomDomain ("http://" ++ h) = true).
  { destruct (isCustomDomain ("http://" ++ h)) eqn:H; [reflexivity|].
    apply standard_domain_scheme in H. discriminate. }
  split; [exact Hc|].
  unfold discoverableEndpoint. rewrite Hc.
  unfold customDomainPath. rewrite append_nil_r. cbn [append].
  rewrite !replace_cons_ne by reflexivity.
  rewrite replace_unfold. reflexivity.
Qed.

(** X23. Whatever the endpoint, the address begins with neither [http://]
    nor [https://]. *)
Theorem X23_address_has_no_http_scheme ssl e :
  starts_with "http://" (discoverableEndpoint ssl e) = false
  /\ starts_with "https://" (discoverableEndpoint ssl e) = false.
Proof.
  unfold discoverableEndpoint. destruct (protocol_w ssl) as [r ->].
  split.
  - apply starts_with_replace_self; [reflexivity | discriminate].
  - apply starts_with_replace; [reflexivity|].
    apply starts_with_replace_self; [reflexivity | discriminate].
Qed.

(** X24. An endpoint in which none of the strings that are rewritten occurs,
    as they are written, is the address as it is: no scheme is put in
    front of it. *)
Theorem X24_endpoint_without_patterns_is_kept ssl e :
  contains "appsync-api" e = false -> contains "gogi-beta" e = false ->
  contains "https://" e = false -> contains "http://" e = false ->
  discoverableEndpoint ssl e = e.
Proof.
  intros H1 H2 H3 H4. unfold discoverableEndpoint, customDomainPath.
  destruct (isCustomDomain e).
  - rewrite append_nil_r.
    now rewrite (replace_none "https://" _ e H3), (replace_none "http://" _ e H4).
  - rewrite (replace_none "appsync-api" _ e H1), (replace_none "gogi-beta" _ e H2).
    now rewrite (replace_none "https://" _ e H3), (replace_none "http://" _ e H4).
Qed.

End Address.
(** * The further properties on the concrete run *)

Lemma after_reachable actions st :
  run exampleWorld actions initialState = Some st -> reachable exampleWorld st.
Proof. apply reachable_run, reachable_initial. Qed.

Lemma connected_reachable : reachable exampleWorld connected.
Proof.
  apply (after_reachable (start_sent ++ [SocketMessage 5 start_ack])).
  vm_compute. reflexivity.
Qed.


Lemma cognito_connecting_reachable : reachable exampleWorld cognito_connecting.
Proof.
  apply (after_reachable
           [Subscribe [] (Some cognitoOptions); SubscriptionHeaders "s1" exampleAnswers]).
  vm_compute. reflexivity.
Qed.

Lemma kept_alive_reachable : reachable exampleWorld kept_alive.
Proof.
  apply (after_reachable
           (start_sent
            ++ [SocketMessage 5 (mkServerMessage GQL_CONNECTION_KEEP_ALIVE None None)])).
  vm_compute. reflexivity.
Qed.


(** X1 (witness): subscribing sends no stop message. *)
Lemma X1_witness :
  step exampleWorld (Subscribe [] (Some exampleOptions)) initialState = Some subscribed
  /\ sent_stops (trace subscribed) = [].
Proof.
  assert (H : step exampleWorld (Subscribe [] (Some exampleOptions)) initialState
              = Some subscribed) by (vm_compute; reflexivity).
  split; [exact H|].
  destruct (stop_only_for_connected_record exampleWorld _ _ _ H)
    as [Hs | (id & rest & r & Ha & _)]; [exact Hs | discriminate].
Defined.

(** X2 (witness): socket 5 closes while "s1" is registered. *)
Lemma X2_witness :
  exists st' evs,
    step exampleWorld (SocketClose 5) started = Some st'
    /\ trace st' = trace started ++ evs
    /\ errors_on 1 evs = 1
    /\ subscriptionObserverMap (this st') = []
    /\ socketStatus (this st') = CLOSED.
Proof.
  destruct (X2_socket_failure_disconnects_all exampleWorld started 5
              established_socket
              (SocketClose 5) eq_refl eq_refl)
    as (st' & evs & H1 & H2 & H3 & _ & H5 & H6).
  { left. split; [reflexivity|]. split; [discriminate | reflexivity]. }
  exists st', evs. rewrite H3. auto.
Defined.

(** X3 (witness): a data message for the unknown id "zz". *)
Lemma X3_witness :
  let m := mkServerMessage GQL_DATA (Some "zz") (Some examplePayload) in
  observer_calls (trace (exec (_handleIncomingSubscriptionMessage exampleWorld m) started))
  = observer_calls (trace started).
Proof.
  exact (proj1 (proj2 (X3_message_for_unknown_id exampleWorld
                         (mkServerMessage GQL_DATA (Some "zz") (Some examplePayload))
                         started eq_refl))).
Defined.

(** X4 (witness): the consumer of the CONNECTED subscription "s1"
    unsubscribes. *)
Lemma X4_witness :
  exists st1 st2,
    step exampleWorld (Unsubscribe 1) connected = Some st1
    /\ step exampleWorld Microtask st1 = Some st2
    /\ sent_stops (trace st2) = ["s1"]
    /\ map_get "s1" (subscriptionObserverMap (this st2)) = None.
Proof.
  destruct (X4_unsubscribe_connected exampleWorld connected "s1" connected_record 5
              established_socket
              connected_reachable eq_refl eq_refl eq_refl eq_refl eq_refl eq_refl eq_refl
              eq_refl)
    as (st1 & st2 & H1 & _ & _ & H2 & H3 & H4 & _).
  exists st1, st2. split; [exact H1|]. split; [exact H2|]. split; [|exact H4].
  rewrite H3. reflexivity.
Defined.

(** X5 (witness): the start-ack of "s1" arrives while its consumer, who
    has unsubscribed, waits on promise 9. *)
Lemma X5_witness :
  exists st1 st2,
    step exampleWorld (SocketMessage 5 start_ack) waiting = Some st1
    /\ step exampleWorld Microtask st1 = Some st2
    /\ sent_messages (trace st2) = sent_messages (trace waiting) ++ [(5, Stop "s1")]
    /\ map_get "s1" (subscriptionObserverMap (this st2)) = None.
Proof.
  destruct (X5_start_ack_releases_unsubscribe exampleWorld waiting 5 established_socket
              start_ack "s1" waiting_record 9
              eq_refl eq_refl eq_refl eq_refl eq_refl eq_refl eq_refl eq_refl eq_refl
              eq_refl eq_refl)
    as (st1 & st2 & H1 & _ & _ & _ & _ & H2 & _ & H3 & H4).
  exists st1, st2. auto.
Defined.

(** X6 (witness): timer 9 finds the registry empty and socket 5 idle. *)
Lemma X6_witness :
  exists st1 st2,
    step exampleWorld (TimerFires 9) unsubscribed = Some st1
    /\ socketStatus (this st1) = CLOSED
    /\ step exampleWorld (SocketClose 5) st1 = Some st2
    /\ trace st2 = trace st1.
Proof.
  destruct (X6_idle_socket_is_closed_silently exampleWorld unsubscribed 9 5
              established_socket
              eq_refl eq_refl eq_refl eq_refl eq_refl eq_refl)
    as (st1 & st2 & H1 & _ & _ & H2 & H3 & _ & H4 & _).
  { cbn. lia. }
  exists st1, st2. auto.
Defined.

(** X7 (witness): timer 9 finds the stop message still buffered. *)
Lemma X7_witness :
  exists st',
    step exampleWorld (TimerFires 9) buffered = Some st'
    /\ this st' = this buffered
    /\ In (10, CloseSocketCheck) (timers (rt st')).
Proof.
  destruct (proj2 (X7_socket_in_use_is_kept exampleWorld buffered 9 eq_refl eq_refl)
              5 (mkWebSocket WS_OPEN 10 (Some (OnOpenHandshake 4)) (Some OnCloseDisconnect)
                   (Some OnErrorDisconnect) (Some OnMessageSubscription))
              eq_refl eq_refl eq_refl eq_refl)
    as (st' & H1 & H2 & _ & _ & H3).
  exists st'. auto.
Defined.

(** X8 (witness): timer 7 of the handshake fires after the ack. *)
Lemma X8_witness :
  step exampleWorld (TimerFires 7) started = Some (timer_gone 7 started).
Proof.
  exact (X8_late_ack_timer_is_harmless exampleWorld started 7 6
           (mkPromiseCell (Some Fulfilled) [KHandshakeAck 3]) Fulfilled
           eq_refl eq_refl eq_refl eq_refl).
Defined.

(** X9 (witness): a keep-alive message after the ack without payload. *)
Lemma X9_witness :
  awsRealTimeSocket (this started) = Some 5
  /\ keepAliveTimeoutId
       (this (exec (_handleIncomingSubscriptionMessage exampleWorld
                      (mkServerMessage GQL_CONNECTION_KEEP_ALIVE None None)) started))
     = Some (nextId (rt started)).
Proof.
  split; [reflexivity|].
  exact (proj1 (proj2 (proj2 (X9_keep_alive_deadline exampleWorld 6
                                (mkServerMessage GQL_CONNECTION_KEEP_ALIVE None None)
                                started 5 eq_refl) eq_refl))).
Defined.

(** X10 (witness): the server refuses the connection with code 401. *)
Lemma X10_witness :
  _initializeHandshake_catch
    (ErrorObject (JStr "UnauthorizedException") (JNum 401))
  = NonRetryableError (ToString (JStr "UnauthorizedException")).
Proof.
  exact (proj2 (proj1 (X10_connection_error_classified 6 connection_refused handshaking
                         (mkPromiseCell None [KHandshakeAck 3])
                         [("errors",
                           JArr [JObj [("errorType", JStr "UnauthorizedException");
                                       ("errorCode", JNum 401)]])]
                         eq_refl eq_refl eq_refl eq_refl)
                  "UnauthorizedException" 401%Z [] eq_refl)).
Defined.

(** X11 (witness): the start call of the consumer without a token. *)
Lemma X11_witness :
  exists st',
    step exampleWorld (SubscriptionHeaders "s1" exampleAnswers) lambda_subscribed = Some st'
    /\ errors_on 1 (trace st') = 1
    /\ socketStatus (this st') = CLOSED.
Proof.
  destruct (X11_start_headers_failure exampleWorld lambda_subscribed "s1" exampleAnswers
              (mkStartCall lambdaOptions 1 "s1" None)
              (Error (Lit "No auth token specified")) eq_refl eq_refl)
    as (st' & H1 & H2 & _ & H3 & _).
  { left. reflexivity. }
  exists st'. split; [exact H1|]. split; [rewrite H2; reflexivity | exact H3].
Defined.

(** X12 (witness): the mode AWS_LAMBDA without a token. *)
Lemma X12_witness :
  missing_credentials exampleAnswers lambdaOptions "No auth token specified"
  /\ exists st',
      step exampleWorld (SubscriptionHeaders "s1" exampleAnswers) lambda_subscribed
      = Some st'
      /\ connectCalls (rt st') = [].
Proof.
  assert (Hm : missing_credentials exampleAnswers lambdaOptions "No auth token specified").
  { left. repeat split. }
  split; [exact Hm|].
  destruct (X12_missing_credentials_fail_locally exampleWorld lambda_subscribed "s1"
              exampleAnswers (mkStartCall lambdaOptions 1 "s1" None)
              "No auth token specified" eq_refl eq_refl Hm)
    as (st' & H1 & _ & _ & _ & H2 & _).
  exists st'. split; [exact H1 | exact H2].
Defined.

(** X13 (witness): the session is gone when the connection is built. *)
Lemma X13_witness :
  exists st',
    step exampleWorld (ConnectionHeaders 3 signedOutAnswers) cognito_connecting = Some st'
    /\ socketStatus (this st') = CLOSED
    /\ promiseArray (this st') = []
    /\ trace st' = trace cognito_connecting.
Proof.
  destruct (X13_connection_headers_failure exampleWorld cognito_connecting 3
              (mkConnectCall cognitoOptions None 0) signedOutAnswers
              (Error (Lit "No current user"))
              cognito_connecting_reachable eq_refl eq_refl eq_refl eq_refl)
    as (st' & H1 & H2 & _ & H3 & H4 & _).
  exists st'. split; [exact H1|]. split; [exact H2|]. split; [exact H3|].
  rewrite H4. apply app_nil_r.
Defined.

(** X14 (witness): the keep-alive timer 9. *)
Lemma X14_witness :
  reachable exampleWorld kept_alive
  /\ In (9, KeepAliveTimeout) (timers (rt kept_alive))
  /\ keepAliveTimeoutId (this kept_alive) = Some 9.
Proof.
  assert (Hin : In (9, KeepAliveTimeout) (timers (rt kept_alive))).
  { cbn. auto 10. }
  split; [exact kept_alive_reachable|]. split; [exact Hin|].
  exact (proj1 (X14_one_keep_alive_timer exampleWorld kept_alive 9 9
                  kept_alive_reachable Hin)).
Defined.


(** X17 (witness): the mode API_KEY. *)
Lemma X17_witness :
  (exists h, _awsRealTimeHeaderBasedAuth exampleAnswers (Some "API_KEY") (Lit "{}")
               "/connect" exampleOptions = Returned (HeaderObject h))
  \/ (exists e, _awsRealTimeHeaderBasedAuth exampleAnswers (Some "API_KEY") (Lit "{}")
                  "/connect" exampleOptions = Throws e).
Proof.
  exact (X17_supported_modes_give_headers exampleAnswers (Lit "{}") "/connect"
           exampleOptions "API_KEY" API_KEY eq_refl).
Defined.

(** X18 (witness): the start call of the second consumer. *)
Lemma X18_witness :
  exists st1 st2,
    step exampleWorld (SubscriptionHeaders "s2" exampleAnswers) second_subscribed = Some st1
    /\ step exampleWorld Microtask st1 = Some st2
    /\ trace st2
       = trace second_subscribed
         ++ [EvSetTimeout 10 (StartAckTimeout "s2") (JNum 15000);
             EvSocketSend 5
               (Start "s2" (Stringify (JObj [("query", JStr "{onCreate}")]))
                  [("host", Some "example.com");
                   ("x-amz-date", Some "20210101T000000Z");
                   ("x-api-key", Some "key");
                   ("x-amz-user-agent", Some "aws-amplify")])].
Proof.
  destruct (X18_start_on_established_connection exampleWorld second_subscribed "s2"
              exampleAnswers (mkStartCall exampleOptions 9 "s2" None)
              (HeaderObject [("host", Some "example.com");
                             ("x-amz-date", Some "20210101T000000Z");
                             ("x-api-key", Some "key")])
              [] 5 eq_refl eq_refl eq_refl eq_refl eq_refl eq_refl)
    as (st1 & st2 & H1 & _ & H2 & H3 & _).
  exists st1, st2. split; [exact H1|]. split; [exact H2|]. rewrite H3. reflexivity.
Defined.


(** X20 (witness): the endpoint of an API in us-east-1. *)
Lemma X20_witness :
  discoverableEndpoint true
    "https://abcdefghijklmnopqrstuvwxyz.appsync-api.us-east-1.amazonaws.com/graphql"
  = "wss://abcdefghijklmnopqrstuvwxyz.appsync-realtime-api.us-east-1.amazonaws.com/graphql".
Proof.
  exact (proj2 (X20_standard_endpoint_address true "abcdefghijklmnopqrstuvwxyz" "us-east-1"
                  eq_refl eq_refl)).
Defined.

(** X21 (witness): the endpoint of the concrete run. *)
Lemma X21_witness :
  discoverableEndpoint true exampleEndpoint = "wss://example.com/graphql".
Proof. exact (X21_custom_https_address true "example.com/graphql" eq_refl). Defined.

(** X24 (witness): the endpoint of an API written in capitals is no custom
    domain, and nothing of it is rewritten. *)
Lemma X24_witness :
  isCustomDomain
    "HTTPS://ABCDEFGHIJKLMNOPQRSTUVWXYZ.APPSYNC-API.US-EAST-1.AMAZONAWS.COM/GRAPHQL"
  = false
  /\ discoverableEndpoint true
       "HTTPS://ABCDEFGHIJKLMNOPQRSTUVWXYZ.APPSYNC-API.US-EAST-1.AMAZONAWS.COM/GRAPHQL"
     = "HTTPS://ABCDEFGHIJKLMNOPQRSTUVWXYZ.APPSYNC-API.US-EAST-1.AMAZONAWS.COM/GRAPHQL".
Proof.
  split; [reflexivity|].
  exact (X24_endpoint_without_patterns_is_kept true
           "HTTPS://ABCDEFGHIJKLMNOPQRSTUVWXYZ.APPSYNC-API.US-EAST-1.AMAZONAWS.COM/GRAPHQL"
           eq_refl eq_refl eq_refl eq_refl).
Defined.
